(** * matterbridge-valetudo: state normalisation and change propagation

    A shallow embedding of the parts of [src/module.ts] and
    [src/valetudo-client.ts] that normalise the vendor state of a Valetudo
    robot and propagate it to the Matter side:

    - the enumeration mappers [mapValetudoStatusToOperationalState] and
      [mapValetudoStatusToRunMode];
    - the region lookup [findSegmentAtPositionCached];
    - the clean-mode catalogue post-processing of [createDeviceForVacuum];
    - the consumable tracker ([getConsumableName], [getMaxLifetime],
      [setupConsumablesForVacuum], [updateConsumableStatesForVacuum]);
    - the poll cycle [updateVacuumState].

    Conventions of the embedding.

    - JavaScript numbers that the code only compares, adds or multiplies are
      integers ([Z]); numbers that are divided ([battery.level],
      [remaining.value], lifetimes, thresholds) are exact rationals ([Q]).
      [Math.round] is rounding half up, [js_round].  IEEE-754 rounding of
      intermediate quotients is not modelled.  The distances of the region
      lookup, which are sorted, are IEEE-754 doubles ([spec_float]).
    - Strings are [string], the UTF-8 encoding of the JavaScript string;
      [toLowerCase] acts on the ASCII letters, [trim] strips the white
      space and line terminators of ECMAScript.
    - Asynchronous code is sequential per device (one cycle at a time), so an
      [await] is a plain sequencing point.  A computation is a function from
      the environment of the cycle (what the robot and the Matter endpoint
      answer) and the device record to a result, the new record and the
      events it emitted (log lines, attribute writes, pacing delays).
    - A [throw] is the [Throw] result; the record keeps the mutations made
      before it, as in JavaScript. *)

From Stdlib Require Import ZArith QArith Qround Qminmax SpecFloat Ascii String List Bool Lia Lqa.
From stdpp Require Import base list strings gmap.

Local Open Scope string_scope.
Local Open Scope list_scope.
Local Open Scope Z_scope.

(* ===================================================================== *)
(** * JavaScript primitives                                               *)
(* ===================================================================== *)

Module JS.

(** [String.prototype.toLowerCase], on the ASCII range. *)
Definition lower_ascii (c : ascii) : ascii :=
let n := N_of_ascii c in
if ((65 <=? n) && (n <=? 90))%N then ascii_of_N (n + 32) else c.

Fixpoint toLowerCase (s : string) : string :=
match s with
| EmptyString => EmptyString
| String c s' => String (lower_ascii c) (toLowerCase s')
end.

(** [hay.startsWith(needle)] and [hay.includes(needle)]. *)
Fixpoint startsWith (needle hay : string) : bool :=
match needle, hay with
| EmptyString, _ => true
| String _ _, EmptyString => false
| String a n', String b h' => if Ascii.eqb a b then startsWith n' h' else false
end.

Fixpoint includes (needle hay : string) : bool :=
startsWith needle hay ||
match hay with
| EmptyString => false
| String _ h' => includes needle h'
end.

(** [Math.round]: the nearest integer, halves towards plus infinity. *)
Definition js_round (q : Q) : Z := Qfloor (q + (1 # 2)).

(** The values a property read on a plain object literal can give: a number
  stored in the literal, or a member the literal inherits from
  [Object.prototype] (a function or an object, compared by identity). *)
Inductive jsval : Type :=
| JNum (n : Z)
| JProto (member : string).

#[global] Instance jsval_eq_dec : EqDecision jsval.
Proof. solve_decision. Defined.

(** The property names that every object literal inherits. *)
Definition Object_prototype_members : list string :=
[ "constructor"; "__proto__"; "hasOwnProperty"; "isPrototypeOf";
  "propertyIsEnumerable"; "toLocaleString"; "toString"; "valueOf";
  "__defineGetter__"; "__defineSetter__"; "__lookupGetter__";
  "__lookupSetter__" ].

(** [obj[key]] on an object literal with the own properties [own]:
  [None] is [undefined]. *)
Definition object_get (own : gmap string Z) (key : string) : option jsval :=
match own !! key with
| Some n => Some (JNum n)
| None => if decide (key ∈ Object_prototype_members)
          then Some (JProto key) else None
end.

(** [v ?? d]. *)
Definition nullish {A} (v : option A) (d : A) : A :=
match v with Some a => a | None => d end.

End JS.

Import JS.

(* ===================================================================== *)
(** * Enumeration values ([const enum]s of module.ts)                     *)
(* ===================================================================== *)

Module RvcRunModeValue.
Definition Idle : Z := 1.
Definition Cleaning : Z := 2.
Definition Mapping : Z := 3.
End RvcRunModeValue.

Module OperationalStateValue.
Definition Stopped : Z := 0.
Definition Running : Z := 1.
Definition Paused : Z := 2.
Definition Error : Z := 3.
Definition SeekingCharger : Z := 64.
Definition Charging : Z := 65.
Definition Docked : Z := 66.
End OperationalStateValue.

(* ===================================================================== *)
(** * Enumeration mapper                                                  *)
(* ===================================================================== *)

(** The literal [statusMap] of [mapValetudoStatusToOperationalState]. *)
Definition statusMap : gmap string Z :=
  list_to_map
    [ ("idle", OperationalStateValue.Docked);
      ("docked", OperationalStateValue.Docked);
      ("cleaning", OperationalStateValue.Running);
      ("returning", OperationalStateValue.SeekingCharger);
      ("manual_control", OperationalStateValue.Running);
      ("moving", OperationalStateValue.Docked);
      ("paused", OperationalStateValue.Paused);
      ("error", OperationalStateValue.Error);
      ("charging", OperationalStateValue.Charging) ].

(** [dockStatus] is [None] for [undefined]; the empty string is falsy. *)
Definition truthy_string (s : option string) : option string :=
  match s with
  | Some EmptyString => None
  | other => other
  end.

Definition mapValetudoStatusToOperationalState
    (status : string) (dockStatus : option string) : jsval :=
  let statusLower := toLowerCase status in
  let baseState :=
    nullish (object_get statusMap statusLower)
            (JNum OperationalStateValue.Stopped) in
  match truthy_string dockStatus with
  | Some dock =>
      if (String.eqb statusLower "docked" || String.eqb statusLower "idle"
          || String.eqb statusLower "charging")%bool
      then
        let dockStatusLower := toLowerCase dock in
        if (String.eqb dockStatusLower "emptying"
            || String.eqb dockStatusLower "drying"
            || String.eqb dockStatusLower "cleaning")%bool
        then JNum OperationalStateValue.Docked
        else baseState
      else baseState
  | None => baseState
  end.

Definition mapValetudoStatusToRunMode (status : string) : Z :=
  let statusLower := toLowerCase status in
  if String.eqb statusLower "cleaning"
  then RvcRunModeValue.Cleaning
  else RvcRunModeValue.Idle.

(** The statuses of the lookup table. *)
Definition known_statuses : list string :=
  [ "idle"; "docked"; "cleaning"; "returning"; "manual_control"; "moving";
    "paused"; "error"; "charging" ].

(* ===================================================================== *)
(** * Vendor payloads (valetudo-client.ts)                                *)
(* ===================================================================== *)

(** The tagged records of [/api/v2/robot/state/attributes]; the constructor
    is the [__class] tag. *)
Inductive StateAttribute : Type :=
| BatteryStateAttribute (level : Q) (flag : string)
| AttachmentStateAttribute (type : string) (attached : bool)
| PresetSelectionStateAttribute (type value : string)
| StatusStateAttribute (value : string)
| DockStatusStateAttribute (value : string).

Record MapLayer := {
  ml_type : string;
  ml_segmentId : string;          (* metaData.segmentId *)
  x_min : Z; x_max : Z; x_mid : Z;   (* dimensions.x *)
  y_min : Z; y_max : Z; y_mid : Z    (* dimensions.y *)
}.

Record MapEntity := {
  me_type : string;
  me_points : list Z
}.

(** The body of [/api/v2/robot/state/map] is cast to [MapData] unchecked: a
    record without [metaData] or without [entities] type-checks and fails
    only where the field is dereferenced. *)
Record MapData := {
  md_metaData : option Z;           (* metaData.version; None: no metaData *)
  md_pixelSize : Z;
  md_layers : list MapLayer;
  md_entities : option (list MapEntity)
}.

Record CachedMapLayers := {
  layers : list MapLayer;
  pixelSize : Z;
  timestamp : Z;
  version : Z
}.

Record MapPositionData := {
  pd_entities : option (list MapEntity);
  pd_metaData : option Z
}.

Record ConsumableRemaining := {
  rem_value : Q;
  rem_unit : string
}.

Record ValetudoConsumable := {
  c_type : string;
  c_subType : string;
  c_remaining : option ConsumableRemaining   (* None: field missing *)
}.

(* ===================================================================== *)
(** * Region lookup (valetudo-client.ts, findSegmentAtPositionCached)     *)
(* ===================================================================== *)

(** JavaScript numbers are IEEE 754 doubles: the binary64 format of the
    Standard Library's [SpecFloat], with its round-to-nearest-even
    operations. *)
Definition js_prec : Z := 53.
Definition js_emax : Z := 1024.

(** The double of an integer coordinate.  The coordinates of the payload
    and of the query are integers (pixel indices, the results of
    [Math.round]); an integer field holds the exact value of the double it
    was parsed to. *)
Definition number (z : Z) : spec_float :=
  binary_normalize js_prec js_emax z 0 false.

(** [v > 0] for the number a comparator returned ([NaN] is not). *)
Definition isPositive (v : spec_float) : bool := SFltb (S754_zero false) v.

(** [Array.prototype.sort(compareFn)] is a stable sort: an element moves
    behind another only when the comparator, called on the two, returns a
    positive number.  Insertion from the right keeps the elements that
    compare as equal in input order. *)
Section StableSort.
Context {A : Type} (compareFn : A -> A -> spec_float).

Fixpoint sort_insert (a : A) (l : list A) : list A :=
  match l with
  | [] => [a]
  | b :: l' => if isPositive (compareFn a b) then b :: sort_insert a l'
               else a :: b :: l'
  end.

Fixpoint js_sort (l : list A) : list A :=
  match l with
  | [] => []
  | a :: l' => sort_insert a (js_sort l')
  end.
End StableSort.

Definition inBounds (x y : Z) (segment : MapLayer) : bool :=
  (x_min segment <=? x) && (x <=? x_max segment)
  && (y_min segment <=? y) && (y <=? y_max segment).

(** [Math.sqrt(Math.pow(x - dims.x.mid, 2) + Math.pow(y - dims.y.mid, 2))],
    in doubles; [Math.pow(d, 2)] is the correctly rounded square [d * d]. *)
Definition distanceFromMid (x y : Z) (segment : MapLayer) : spec_float :=
  let dx := SFsub js_prec js_emax (number x) (number (x_mid segment)) in
  let dy := SFsub js_prec js_emax (number y) (number (y_mid segment)) in
  SFsqrt js_prec js_emax
    (SFadd js_prec js_emax (SFmul js_prec js_emax dx dx)
                           (SFmul js_prec js_emax dy dy)).

(** The comparator [(a, b) => a.distance - b.distance]. *)
Definition byDistance (x y : Z) (a b : MapLayer) : spec_float :=
  SFsub js_prec js_emax (distanceFromMid x y a) (distanceFromMid x y b).

(** A region layer, and a bounding box that contains a point (all four
    edges inclusive). *)
Definition isSegment (layer : MapLayer) : Prop := ml_type layer = "segment".

Definition containsPoint (layer : MapLayer) (x y : Z) : Prop :=
  x_min layer <= x <= x_max layer /\ y_min layer <= y <= y_max layer.

Definition matchingSegments (cachedLayers : CachedMapLayers) (x y : Z)
  : list MapLayer :=
  let segments :=
    List.filter (fun layer => String.eqb (ml_type layer) "segment")
                (layers cachedLayers) in
  List.filter (inBounds x y) segments.

(** Membership in [matchingSegments], as one test. *)
Definition isMatch (x y : Z) (layer : MapLayer) : bool :=
  String.eqb (ml_type layer) "segment" && inBounds x y layer.

Definition findSegmentAtPositionCached
    (cachedLayers : CachedMapLayers) (x y : Z) : option MapLayer :=
  match matchingSegments cachedLayers x y with
  | [] => None
  | [only] => Some only
  | several => head (js_sort (byDistance x y) several)
  end.

Definition createCachedLayers (mapData : MapData) (now : Z)
  : option CachedMapLayers :=
  match md_metaData mapData with
  | None => None      (* mapData.metaData.version on undefined: TypeError *)
  | Some v => Some {| layers := md_layers mapData;
                      pixelSize := md_pixelSize mapData;
                      timestamp := now;
                      version := v |}
  end.

(* ===================================================================== *)
(** * Device record, configuration, events                                *)
(* ===================================================================== *)

(** The Matter endpoints the plugin writes to: the vacuum device itself and
    the optional contact sensor of a consumable. *)
Inductive Endpoint : Type :=
| VacuumDevice
| ContactSensor (sensorId : string).

(** Values written to an attribute. *)
Inductive AttrValue : Type :=
| VNum (n : Z)
| VJs (v : jsval)
| VBool (b : bool).

(** One call of [endpoint.setAttribute(cluster, attribute, value, log)]. *)
Record Write := {
  wr_target : Endpoint;
  wr_cluster : string;
  wr_attribute : string;
  wr_value : AttrValue
}.

#[global] Instance Endpoint_eq_dec : EqDecision Endpoint.
Proof. solve_decision. Defined.
#[global] Instance AttrValue_eq_dec : EqDecision AttrValue.
Proof. solve_decision. Defined.
#[global] Instance Write_eq_dec : EqDecision Write.
Proof. solve_decision. Defined.

Inductive LogLevel : Type := LDebug | LInfo | LWarn | LError.

(** What is thrown: a [TypeError] on a missing field, or the rejection of an
    attribute write by the Matter endpoint. *)
Inductive Exn : Type :=
| TypeError (what : string)
| WriteRejected (w : Write)
| RegisterRejected (sensorId : string).

(** The log lines of the modelled functions, by their content. *)
Inductive LogMsg : Type :=
| MsgFetchFailed                                    (* Failed to fetch state attributes *)
| MsgBattery (level : Q) (batPercentRemaining : Z)
| MsgChargeState (batChargeState : Z)
| MsgOperationalState (status : string) (operationalState : jsval)
| MsgRunMode (status : string) (runMode : Z)
| MsgInitialStateSet
| MsgMapCacheRefreshed
| MsgMapCacheUnavailable
| MsgMapVersionChanged
| MsgMultipleSegments (x y : Z) (segmentId : string)
| MsgLocation (name : string) (areaId : Z)
| MsgPositionTrackingError (e : Exn)
| MsgConsumable (name : string) (remaining : Q) (lifePercent : Z)
                (needsReplacement : bool)
| MsgConsumableSetup (name : string) (remaining : Q) (lifePercent : Z)
| MsgContactSensor (sensorId : string) (needsReplacement : bool)
| MsgConsumablesDisabled
| MsgConsumablesUnsupported
| MsgNoConsumables
| MsgFoundConsumables (n : nat)
| MsgConsumablesError (e : Exn)
| MsgUpdateError (e : Exn).

Inductive Event : Type :=
| EvLog (lvl : LogLevel) (msg : LogMsg)
| EvSetAttribute (w : Write)
| EvRegisterSensor (sensorId : string) (stateValue : bool)
| EvDelay (ms : Z).

Record ConsumableEntry := {
  endpoint : option string;           (* the contact sensor, when exposed *)
  consumable : ValetudoConsumable;
  lastState : option bool             (* None: undefined *)
}.

Record SegmentInfo := {
  seg_id : string;
  seg_name : string
}.

(** [VacuumInstance], the fields the modelled functions read or write.
    [areaToSegmentMap] is a [Map] iterated in insertion order. *)
Record VacuumInstance := {
  id : string;
  device : bool;                                   (* device !== null *)
  areaToSegmentMap : list (Z * SegmentInfo);
  consumableMap : gmap string ConsumableEntry;
  mapLayersCache : option CachedMapLayers;
  mapCacheValidUntil : Q;
  lastCurrentArea : option Z;
  lastConsumablesCheck : Z;
  lastBatteryLevel : option Z;
  lastBatteryChargeState : option Z;
  lastOperationalState : option jsval;
  lastRunMode : option Z;
  initialStatePending : bool;
  lastSeen : Z;
  online : bool
}.

(** The record created by [addVacuum]. *)
Definition newVacuum (systemId : string) (now : Z) : VacuumInstance :=
  {| id := systemId; device := false; areaToSegmentMap := [];
     consumableMap := ∅; mapLayersCache := None; mapCacheValidUntil := 0;
     lastCurrentArea := None; lastConsumablesCheck := 0;
     lastBatteryLevel := None; lastBatteryChargeState := None;
     lastOperationalState := None; lastRunMode := None;
     initialStatePending := true; lastSeen := now; online := true |}.

(** Field assignments. *)
Definition set_consumableMap (m : gmap string ConsumableEntry) (v : VacuumInstance) :=
  {| id := id v; device := device v; areaToSegmentMap := areaToSegmentMap v;
     consumableMap := m; mapLayersCache := mapLayersCache v;
     mapCacheValidUntil := mapCacheValidUntil v;
     lastCurrentArea := lastCurrentArea v;
     lastConsumablesCheck := lastConsumablesCheck v;
     lastBatteryLevel := lastBatteryLevel v;
     lastBatteryChargeState := lastBatteryChargeState v;
     lastOperationalState := lastOperationalState v;
     lastRunMode := lastRunMode v;
     initialStatePending := initialStatePending v;
     lastSeen := lastSeen v; online := online v |}.

Definition set_mapLayersCache (c : option CachedMapLayers) (v : VacuumInstance) :=
  {| id := id v; device := device v; areaToSegmentMap := areaToSegmentMap v;
     consumableMap := consumableMap v; mapLayersCache := c;
     mapCacheValidUntil := mapCacheValidUntil v;
     lastCurrentArea := lastCurrentArea v;
     lastConsumablesCheck := lastConsumablesCheck v;
     lastBatteryLevel := lastBatteryLevel v;
     lastBatteryChargeState := lastBatteryChargeState v;
     lastOperationalState := lastOperationalState v;
     lastRunMode := lastRunMode v;
     initialStatePending := initialStatePending v;
     lastSeen := lastSeen v; online := online v |}.

Definition set_mapCacheValidUntil (t : Q) (v : VacuumInstance) :=
  {| id := id v; device := device v; areaToSegmentMap := areaToSegmentMap v;
     consumableMap := consumableMap v; mapLayersCache := mapLayersCache v;
     mapCacheValidUntil := t;
     lastCurrentArea := lastCurrentArea v;
     lastConsumablesCheck := lastConsumablesCheck v;
     lastBatteryLevel := lastBatteryLevel v;
     lastBatteryChargeState := lastBatteryChargeState v;
     lastOperationalState := lastOperationalState v;
     lastRunMode := lastRunMode v;
     initialStatePending := initialStatePending v;
     lastSeen := lastSeen v; online := online v |}.

Definition set_lastCurrentArea (a : option Z) (v : VacuumInstance) :=
  {| id := id v; device := device v; areaToSegmentMap := areaToSegmentMap v;
     consumableMap := consumableMap v; mapLayersCache := mapLayersCache v;
     mapCacheValidUntil := mapCacheValidUntil v;
     lastCurrentArea := a;
     lastConsumablesCheck := lastConsumablesCheck v;
     lastBatteryLevel := lastBatteryLevel v;
     lastBatteryChargeState := lastBatteryChargeState v;
     lastOperationalState := lastOperationalState v;
     lastRunMode := lastRunMode v;
     initialStatePending := initialStatePending v;
     lastSeen := lastSeen v; online := online v |}.

Definition set_lastConsumablesCheck (t : Z) (v : VacuumInstance) :=
  {| id := id v; device := device v; areaToSegmentMap := areaToSegmentMap v;
     consumableMap := consumableMap v; mapLayersCache := mapLayersCache v;
     mapCacheValidUntil := mapCacheValidUntil v;
     lastCurrentArea := lastCurrentArea v;
     lastConsumablesCheck := t;
     lastBatteryLevel := lastBatteryLevel v;
     lastBatteryChargeState := lastBatteryChargeState v;
     lastOperationalState := lastOperationalState v;
     lastRunMode := lastRunMode v;
     initialStatePending := initialStatePending v;
     lastSeen := lastSeen v; online := online v |}.

Definition set_lastBatteryLevel (x : option Z) (v : VacuumInstance) :=
  {| id := id v; device := device v; areaToSegmentMap := areaToSegmentMap v;
     consumableMap := consumableMap v; mapLayersCache := mapLayersCache v;
     mapCacheValidUntil := mapCacheValidUntil v;
     lastCurrentArea := lastCurrentArea v;
     lastConsumablesCheck := lastConsumablesCheck v;
     lastBatteryLevel := x;
     lastBatteryChargeState := lastBatteryChargeState v;
     lastOperationalState := lastOperationalState v;
     lastRunMode := lastRunMode v;
     initialStatePending := initialStatePending v;
     lastSeen := lastSeen v; online := online v |}.

Definition set_lastBatteryChargeState (x : option Z) (v : VacuumInstance) :=
  {| id := id v; device := device v; areaToSegmentMap := areaToSegmentMap v;
     consumableMap := consumableMap v; mapLayersCache := mapLayersCache v;
     mapCacheValidUntil := mapCacheValidUntil v;
     lastCurrentArea := lastCurrentArea v;
     lastConsumablesCheck := lastConsumablesCheck v;
     lastBatteryLevel := lastBatteryLevel v;
     lastBatteryChargeState := x;
     lastOperationalState := lastOperationalState v;
     lastRunMode := lastRunMode v;
     initialStatePending := initialStatePending v;
     lastSeen := lastSeen v; online := online v |}.

Definition set_lastOperationalState (x : option jsval) (v : VacuumInstance) :=
  {| id := id v; device := device v; areaToSegmentMap := areaToSegmentMap v;
     consumableMap := consumableMap v; mapLayersCache := mapLayersCache v;
     mapCacheValidUntil := mapCacheValidUntil v;
     lastCurrentArea := lastCurrentArea v;
     lastConsumablesCheck := lastConsumablesCheck v;
     lastBatteryLevel := lastBatteryLevel v;
     lastBatteryChargeState := lastBatteryChargeState v;
     lastOperationalState := x;
     lastRunMode := lastRunMode v;
     initialStatePending := initialStatePending v;
     lastSeen := lastSeen v; online := online v |}.

Definition set_lastRunMode (x : option Z) (v : VacuumInstance) :=
  {| id := id v; device := device v; areaToSegmentMap := areaToSegmentMap v;
     consumableMap := consumableMap v; mapLayersCache := mapLayersCache v;
     mapCacheValidUntil := mapCacheValidUntil v;
     lastCurrentArea := lastCurrentArea v;
     lastConsumablesCheck := lastConsumablesCheck v;
     lastBatteryLevel := lastBatteryLevel v;
     lastBatteryChargeState := lastBatteryChargeState v;
     lastOperationalState := lastOperationalState v;
     lastRunMode := x;
     initialStatePending := initialStatePending v;
     lastSeen := lastSeen v; online := online v |}.

Definition set_initialStatePending (b : bool) (v : VacuumInstance) :=
  {| id := id v; device := device v; areaToSegmentMap := areaToSegmentMap v;
     consumableMap := consumableMap v; mapLayersCache := mapLayersCache v;
     mapCacheValidUntil := mapCacheValidUntil v;
     lastCurrentArea := lastCurrentArea v;
     lastConsumablesCheck := lastConsumablesCheck v;
     lastBatteryLevel := lastBatteryLevel v;
     lastBatteryChargeState := lastBatteryChargeState v;
     lastOperationalState := lastOperationalState v;
     lastRunMode := lastRunMode v;
     initialStatePending := b;
     lastSeen := lastSeen v; online := online v |}.

Definition set_lastSeen (t : Z) (v : VacuumInstance) :=
  {| id := id v; device := device v; areaToSegmentMap := areaToSegmentMap v;
     consumableMap := consumableMap v; mapLayersCache := mapLayersCache v;
     mapCacheValidUntil := mapCacheValidUntil v;
     lastCurrentArea := lastCurrentArea v;
     lastConsumablesCheck := lastConsumablesCheck v;
     lastBatteryLevel := lastBatteryLevel v;
     lastBatteryChargeState := lastBatteryChargeState v;
     lastOperationalState := lastOperationalState v;
     lastRunMode := lastRunMode v;
     initialStatePending := initialStatePending v;
     lastSeen := t; online := online v |}.

Definition set_online (b : bool) (v : VacuumInstance) :=
  {| id := id v; device := device v; areaToSegmentMap := areaToSegmentMap v;
     consumableMap := consumableMap v; mapLayersCache := mapLayersCache v;
     mapCacheValidUntil := mapCacheValidUntil v;
     lastCurrentArea := lastCurrentArea v;
     lastConsumablesCheck := lastConsumablesCheck v;
     lastBatteryLevel := lastBatteryLevel v;
     lastBatteryChargeState := lastBatteryChargeState v;
     lastOperationalState := lastOperationalState v;
     lastRunMode := lastRunMode v;
     initialStatePending := initialStatePending v;
     lastSeen := lastSeen v; online := b |}.

(** The plugin configuration read by the modelled functions; [None] is an
    absent key. *)
Record Config := {
  positionTracking_enabled : option bool;
  mapCache_refreshIntervalHours : option Q;
  consumables_enabled : bool;
  consumables_exposeAsContactSensors : bool;
  consumables_maxLifetimes : option (gmap string Q);
  consumables_warningThreshold : option Q
}.

(** What the outside answers during one run: the robot's REST interface
    ([None] is the client's [null], returned after it caught and logged a
    transport or parse failure) and the Matter endpoints (whether a write or
    a registration throws). *)
Record Env := {
  config : Config;
  getStateAttributes : option (list StateAttribute);
  getMapDataWithTimeout : nat -> option MapData;  (* by refresh site: 0, 1 *)
  getMapPositionData : option MapPositionData;
  getConsumables : option (list ValetudoConsumable);
  setAttribute_throws : Write -> bool;
  registerDevice_throws : string -> bool;
  capabilities : list string
}.

(** The mutable world of one device: its record and the wall clock. *)
Record World := {
  vac : VacuumInstance;
  clock : Z
}.

(* ===================================================================== *)
(** * Computations: environment, state, events, exceptions                *)
(* ===================================================================== *)

Inductive Result (A : Type) : Type :=
| Ok (a : A)
| Throw (e : Exn).
Arguments Ok {A} a.
Arguments Throw {A} e.

Definition M (A : Type) : Type := Env -> World -> Result A * World * list Event.

Definition ret {A} (a : A) : M A := fun _ w => (Ok a, w, []).

Definition bind {A B} (m : M A) (k : A -> M B) : M B :=
  fun env w =>
    match m env w with
    | (Ok a, w1, ev1) =>
        let '(r, w2, ev2) := k a env w1 in (r, w2, ev1 ++ ev2)
    | (Throw e, w1, ev1) => (Throw e, w1, ev1)
    end.

Definition throw {A} (e : Exn) : M A := fun _ w => (Throw e, w, []).

(** [try { body } catch (error) { handler(error) }]. *)
Definition try_catch {A} (body : M A) (handler : Exn -> M A) : M A :=
  fun env w =>
    match body env w with
    | (Ok a, w1, ev1) => (Ok a, w1, ev1)
    | (Throw e, w1, ev1) =>
        let '(r, w2, ev2) := handler e env w1 in (r, w2, ev1 ++ ev2)
    end.

Declare Scope js_scope.
Delimit Scope js_scope with js.
Notation "x <- c ;; k" := (bind c (fun x => k))
  (at level 100, c at next level, right associativity) : js_scope.
Notation "c ;; k" := (bind c (fun _ => k))
  (at level 100, right associativity) : js_scope.
Local Open Scope js_scope.

Definition ask : M Env := fun env w => (Ok env, w, []).
Definition get_vac : M VacuumInstance := fun _ w => (Ok (vac w), w, []).
Definition modify_vac (f : VacuumInstance -> VacuumInstance) : M unit :=
  fun _ w => (Ok tt, {| vac := f (vac w); clock := clock w |}, []).
Definition log (lvl : LogLevel) (msg : LogMsg) : M unit :=
  fun _ w => (Ok tt, w, [EvLog lvl msg]).

(** [Date.now()]. *)
Definition dateNow : M Z := fun _ w => (Ok (clock w), w, []).

(** [await new Promise((resolve) => setTimeout(resolve, ms))]. *)
Definition sleep (ms : Z) : M unit :=
  fun _ w => (Ok tt, {| vac := vac w; clock := clock w + ms |}, [EvDelay ms]).

(** [await endpoint.setAttribute(cluster, attribute, value, this.log)]: the
    call is issued (and recorded); the endpoint may reject it by throwing. *)
Definition setAttribute (target : Endpoint) (cluster attribute : string)
    (value : AttrValue) : M unit :=
  fun env w =>
    let wr := {| wr_target := target; wr_cluster := cluster;
                 wr_attribute := attribute; wr_value := value |} in
    (if setAttribute_throws env wr then Throw (WriteRejected wr) else Ok tt,
     w, [EvSetAttribute wr]).

Definition registerDevice (sensorId : string) (stateValue : bool) : M unit :=
  fun env w =>
    (if registerDevice_throws env sensorId
     then Throw (RegisterRejected sensorId) else Ok tt,
     w, [EvRegisterSensor sensorId stateValue]).

(** [for (const a of l) { body(a) }]. *)
Fixpoint forEach {A} (l : list A) (body : A -> M unit) : M unit :=
  match l with
  | [] => ret tt
  | a :: l' => body a ;; forEach l' body
  end.

(** Running a computation. *)
Definition result {A} (o : Result A * World * list Event) : Result A := o.1.1.
Definition world {A} (o : Result A * World * list Event) : World := o.1.2.
Definition events {A} (o : Result A * World * list Event) : list Event := o.2.

(* ===================================================================== *)
(** * The poll cycle (module.ts, updateVacuumState)                       *)
(* ===================================================================== *)

(** [attributes.find((attr) => attr.__class === 'BatteryStateAttribute')]
    and its two siblings: the first record of the class. *)
Fixpoint findBattery (attributes : list StateAttribute) : option (Q * string) :=
  match attributes with
  | [] => None
  | BatteryStateAttribute level flag :: _ => Some (level, flag)
  | _ :: rest => findBattery rest
  end.

Fixpoint findStatus (attributes : list StateAttribute) : option string :=
  match attributes with
  | [] => None
  | StatusStateAttribute value :: _ => Some value
  | _ :: rest => findStatus rest
  end.

Fixpoint findDockStatus (attributes : list StateAttribute) : option string :=
  match attributes with
  | [] => None
  | DockStatusStateAttribute value :: _ => Some value
  | _ :: rest => findDockStatus rest
  end.

(** The [let batChargeState = 0; if (battery.flag === ...)] cascade. *)
Definition batChargeStateOf (flag : string) : Z :=
  if String.eqb flag "charging" then 1
  else if String.eqb flag "charged" then 2
  else if (String.eqb flag "discharging" || String.eqb flag "none")%bool then 3
  else 0.

(** [last !== value] for a [number | null] field. *)
Definition changed {A} `{EqDecision A} (last : option A) (value : A) : bool :=
  negb (bool_decide (last = Some value)).

(** "Update battery state". *)
Definition updateBatteryState (attributes : list StateAttribute) : M unit :=
  match findBattery attributes with
  | Some (level, flag) =>
      let batPercentRemaining := js_round (level * (2 # 1)) in
      let batChargeState := batChargeStateOf flag in
      vacuum <- get_vac ;;
      let batteryChanged := changed (lastBatteryLevel vacuum) batPercentRemaining in
      let chargeStateChanged :=
        changed (lastBatteryChargeState vacuum) batChargeState in
      (vacuum <- get_vac ;;
       if (initialStatePending vacuum || batteryChanged)%bool then
         (log LInfo (MsgBattery level batPercentRemaining) ;;
          setAttribute VacuumDevice "PowerSource" "batPercentRemaining"
                       (VNum batPercentRemaining) ;;
          modify_vac (set_lastBatteryLevel (Some batPercentRemaining)) ;;
          sleep 200)
       else ret tt) ;;
      (vacuum <- get_vac ;;
       if (initialStatePending vacuum || chargeStateChanged)%bool then
         (log LInfo (MsgChargeState batChargeState) ;;
          setAttribute VacuumDevice "PowerSource" "batChargeState"
                       (VNum batChargeState) ;;
          modify_vac (set_lastBatteryChargeState (Some batChargeState)) ;;
          sleep 200)
       else ret tt)
  | None => ret tt
  end.

(** "Update operational state" and "Update run mode". *)
Definition updateStatusState (attributes : list StateAttribute) : M unit :=
  let statusAttr := findStatus attributes in
  let dockStatus := findDockStatus attributes in
  match statusAttr with
  | Some status =>
      let operationalState :=
        mapValetudoStatusToOperationalState status dockStatus in
      vacuum <- get_vac ;;
      let operationalStateChanged :=
        changed (lastOperationalState vacuum) operationalState in
      (if (initialStatePending vacuum || operationalStateChanged)%bool then
         (log LInfo (MsgOperationalState status operationalState) ;;
          setAttribute VacuumDevice "RvcOperationalState" "operationalState"
                       (VJs operationalState) ;;
          modify_vac (set_lastOperationalState (Some operationalState)) ;;
          sleep 200)
       else ret tt) ;;
      let runMode := mapValetudoStatusToRunMode status in
      vacuum <- get_vac ;;
      let runModeChanged := changed (lastRunMode vacuum) runMode in
      (if (initialStatePending vacuum || runModeChanged)%bool then
         (log LInfo (MsgRunMode status runMode) ;;
          setAttribute VacuumDevice "RvcRunMode" "currentMode" (VNum runMode) ;;
          modify_vac (set_lastRunMode (Some runMode)) ;;
          sleep 200)
       else ret tt)
  | None => ret tt
  end.

(** "Clear initial state pending flag after first successful update". *)
Definition clearInitialStatePending : M unit :=
  vacuum <- get_vac ;;
  if initialStatePending vacuum then
    (modify_vac (set_initialStatePending false) ;;
     log LDebug MsgInitialStateSet)
  else ret tt.

(** [refreshMapCacheForVacuum]; [site] tells the two call sites apart. *)
Definition refreshMapCacheForVacuum (site : nat) : M unit :=
  env <- ask ;;
  let refreshHours :=
    Qmax (1 # 10)
         (Qmin (24 # 1)
               (nullish (mapCache_refreshIntervalHours (config env)) (1 # 1))) in
  match getMapDataWithTimeout env site with
  | Some mapData =>
      now <- dateNow ;;
      match createCachedLayers mapData now with
      | None => throw (TypeError "mapData.metaData is undefined")
      | Some cache =>
          modify_vac (set_mapLayersCache (Some cache)) ;;
          now' <- dateNow ;;
          modify_vac (set_mapCacheValidUntil
                        (inject_Z now' + refreshHours * (3600000 # 1))%Q) ;;
          log LDebug MsgMapCacheRefreshed
      end
  | None => ret tt
  end.

(** [Math.round(p / pixelSize)]; a zero [pixelSize] gives an infinity or a
    NaN, which no comparison with a bound accepts: [None]. *)
Definition js_round_quot (p s : Z) : option Z :=
  if s =? 0 then None else Some (js_round (inject_Z p / inject_Z s)).

(** The client method with its debug line for overlapping segments. *)
Definition client_findSegmentAtPositionCached
    (cachedLayers : CachedMapLayers) (x y : Z) : M (option MapLayer) :=
  let found := findSegmentAtPositionCached cachedLayers x y in
  match matchingSegments cachedLayers x y, found with
  | _ :: _ :: _, Some closest =>
      log LDebug (MsgMultipleSegments x y (ml_segmentId closest)) ;;
      ret found
  | _, _ => ret found
  end.

(** [for (const [areaId, segmentInfo] of areaToSegmentMap.entries())
       if (segmentInfo.id === segmentId) { foundAreaId = areaId; break }]. *)
Fixpoint findAreaId (entries : list (Z * SegmentInfo)) (segmentId : string)
  : option Z :=
  match entries with
  | [] => None
  | (areaId, segmentInfo) :: rest =>
      if String.eqb (seg_id segmentInfo) segmentId then Some areaId
      else findAreaId rest segmentId
  end.

(** [areaToSegmentMap.get(areaId)?.name || 'Unknown']. *)
Fixpoint areaName (entries : list (Z * SegmentInfo)) (areaId : Z) : string :=
  match entries with
  | [] => "Unknown"
  | (a, segmentInfo) :: rest =>
      if a =? areaId
      then (if String.eqb (seg_name segmentInfo) "" then "Unknown"
            else seg_name segmentInfo)
      else areaName rest areaId
  end.

(** The body of the [try] of "Position tracking with cached map layers". *)
Definition positionTrackingBody : M unit :=
  env <- ask ;;
  (vacuum <- get_vac ;;
   now <- dateNow ;;
   if (negb (bool_decide (is_Some (mapLayersCache vacuum)))
       || negb (Qle_bool (inject_Z now) (mapCacheValidUntil vacuum)))%bool
   then refreshMapCacheForVacuum 0
   else ret tt) ;;
  vacuum <- get_vac ;;
  match mapLayersCache vacuum with
  | None => log LDebug MsgMapCacheUnavailable
  | Some cache =>
      match getMapPositionData env with
      | None => ret tt
      | Some positionData =>
          (match pd_metaData positionData with
           | Some v =>
               if negb (v =? version cache)
               then (log LWarn MsgMapVersionChanged ;;
                     refreshMapCacheForVacuum 1)
               else ret tt
           | None => ret tt
           end) ;;
          match pd_entities positionData with
          | None => throw (TypeError "positionData.entities is undefined")
          | Some entities =>
              let robotEntity :=
                List.find (fun entity => String.eqb (me_type entity) "robot_position")
                          entities in
              vacuum <- get_vac ;;
              match robotEntity, mapLayersCache vacuum with
              | Some robotEntity, Some cache =>
                  match me_points robotEntity with
                  | p0 :: p1 :: _ =>
                      currentSegment <-
                        match js_round_quot p0 (pixelSize cache),
                              js_round_quot p1 (pixelSize cache) with
                        | Some x, Some y =>
                            client_findSegmentAtPositionCached cache x y
                        | _, _ => ret None
                        end ;;
                      match currentSegment with
                      | Some segment =>
                          vacuum <- get_vac ;;
                          match findAreaId (areaToSegmentMap vacuum)
                                           (ml_segmentId segment) with
                          | Some foundAreaId =>
                              if changed (lastCurrentArea vacuum) foundAreaId
                              then
                                (log LInfo
                                     (MsgLocation
                                        (areaName (areaToSegmentMap vacuum) foundAreaId)
                                        foundAreaId) ;;
                                 setAttribute VacuumDevice "ServiceArea"
                                              "currentArea" (VNum foundAreaId) ;;
                                 modify_vac (set_lastCurrentArea (Some foundAreaId)))
                              else ret tt
                          | None => ret tt
                          end
                      | None => ret tt
                      end
                  | _ => ret tt
                  end
              | _, _ => ret tt
              end
          end
      end
  end.

(** [config.positionTracking?.enabled !== false &&
     vacuum.areaToSegmentMap.size > 0]. *)
Definition positionTrackingEnabled (env : Env) (vacuum : VacuumInstance) : bool :=
  negb (bool_decide (positionTracking_enabled (config env) = Some false))
  && negb (bool_decide (areaToSegmentMap vacuum = [])).

(** "Position tracking with cached map layers". *)
Definition positionTracking : M unit :=
  env <- ask ;;
  vacuum <- get_vac ;;
  if positionTrackingEnabled env vacuum
  then try_catch positionTrackingBody
                 (fun error => log LDebug (MsgPositionTrackingError error))
  else ret tt.

(* ===================================================================== *)
(** * Consumable tracker                                                  *)
(* ===================================================================== *)

(** The literal [typeMap] of [getConsumableName].  Its keys are read as
    [type + "-" + subType]; no inherited member name contains a hyphen, so
    the literal's own properties decide the lookup. *)
Definition typeMap : gmap string string :=
  list_to_map
    [ ("brush-main", "Main Brush");
      ("brush-side_right", "Side Brush");
      ("brush-side_left", "Side Brush Left");
      ("filter-main", "Dust Filter");
      ("cleaning-sensor", "Sensor");
      ("cleaning-wheel", "Wheel");
      ("consumable-detergent", "Detergent") ].

Definition getConsumableName (consumable : ValetudoConsumable) : string :=
  let key := (c_type consumable ++ "-" ++ c_subType consumable)%string in
  if includes "dock" (c_subType consumable) then "Detergent"
  else match typeMap !! key with
       | Some name => name
       | None => (c_type consumable ++ " " ++ c_subType consumable)%string
       end.

(** [n || d] on a number: zero is falsy. *)
Definition or_default (n : option Q) (d : Q) : Q :=
  match n with
  | Some q => if Qeq_bool q 0 then d else q
  | None => d
  end.

Definition defaultMaxLifetimes : gmap string Q :=
  list_to_map
    [ ("mainBrush", 18000 # 1); ("sideBrush", 12000 # 1);
      ("dustFilter", 9000 # 1); ("sensor", 1800 # 1) ]%Q.

(** [getMaxLifetime]; reading [consumable.remaining.value] throws a
    TypeError when the payload has no [remaining]: [None]. *)
Definition getMaxLifetime (consumable : ValetudoConsumable)
    (maxLifetimes : gmap string Q) : option Q :=
  match c_remaining consumable with
  | None => None
  | Some remaining =>
      let isPercentage :=
        (String.eqb (c_type consumable) "consumable"
         || includes "detergent" (c_subType consumable)
         || includes "dock" (c_subType consumable))%bool in
      if (Qle_bool (rem_value remaining) (100 # 1)
          && Qle_bool 0 (rem_value remaining) && isPercentage)%bool
      then Some (100 # 1)%Q
      else
        let key :=
          if (String.eqb (c_type consumable) "brush"
              && String.eqb (c_subType consumable) "main")%bool
          then Some "mainBrush"
          else if (String.eqb (c_type consumable) "brush"
                   && (String.eqb (c_subType consumable) "side_right"
                       || String.eqb (c_subType consumable) "side_left"))%bool
          then Some "sideBrush"
          else if (String.eqb (c_type consumable) "filter"
                   && String.eqb (c_subType consumable) "main")%bool
          then Some "dustFilter"
          else if (String.eqb (c_type consumable) "cleaning"
                   && String.eqb (c_subType consumable) "sensor")%bool
          then Some "sensor"
          else None in
        match key with
        | Some key => Some (or_default (maxLifetimes !! key) (10000 # 1))
        | None => Some (10000 # 1)%Q
        end
  end.

(** [consumable.remaining.value], read after [getMaxLifetime] succeeded. *)
Definition remainingValue (consumable : ValetudoConsumable) : Q :=
  match c_remaining consumable with
  | Some r => rem_value r
  | None => 0%Q
  end.

(** [Math.round((remainingMinutes / maxLifetime) * 100)]. *)
Definition lifePercentOf (remainingMinutes maxLifetime : Q) : Z :=
  js_round ((remainingMinutes / maxLifetime) * (100 # 1)).

(** [lifePercent <= warningThreshold]. *)
Definition atMost (lifePercent : Z) (warningThreshold : Q) : bool :=
  Qle_bool (inject_Z lifePercent) warningThreshold.

(** [.replace(/[^a-zA-Z0-9-]/g, '_')]. *)
Definition sanitize_ascii (c : ascii) : ascii :=
  let n := N_of_ascii c in
  if (((97 <=? n) && (n <=? 122)) || ((65 <=? n) && (n <=? 90))
      || ((48 <=? n) && (n <=? 57)) || (n =? 45))%N
  then c else "_"%char.

Fixpoint sanitize (s : string) : string :=
  match s with
  | EmptyString => EmptyString
  | String c s' => String (sanitize_ascii c) (sanitize s')
  end.

(** [setupConsumablesForVacuum]: the entries are created here. *)
Definition setupConsumablesForVacuum : M unit :=
  env <- ask ;;
  if negb (consumables_enabled (config env)) then
    log LDebug MsgConsumablesDisabled
  else if negb (bool_decide ("ConsumableMonitoringCapability" ∈ capabilities env))
  then log LWarn MsgConsumablesUnsupported
  else
    match getConsumables env with
    | None | Some [] => log LInfo MsgNoConsumables
    | Some consumables =>
        log LInfo (MsgFoundConsumables (length consumables)) ;;
        let maxLifetimes :=
          nullish (consumables_maxLifetimes (config env)) defaultMaxLifetimes in
        let exposeAsContactSensors :=
          consumables_exposeAsContactSensors (config env) in
        let warningThreshold :=
          nullish (consumables_warningThreshold (config env)) (10 # 1)%Q in
        forEach consumables (fun consumable =>
          let name := getConsumableName consumable in
          maxLifetime <-
            match getMaxLifetime consumable maxLifetimes with
            | Some maxLifetime => ret maxLifetime
            | None => throw (TypeError "consumable.remaining is undefined")
            end ;;
          let remainingMinutes := remainingValue consumable in
          let lifePercent := lifePercentOf remainingMinutes maxLifetime in
          let needsReplacement := atMost lifePercent warningThreshold in
          log LInfo (MsgConsumableSetup name remainingMinutes lifePercent) ;;
          vacuum <- get_vac ;;
          if exposeAsContactSensors then
            let sensorId :=
              sanitize (id vacuum ++ "-consumable-" ++ c_type consumable
                        ++ "-" ++ c_subType consumable)%string in
            registerDevice sensorId (negb needsReplacement) ;;
            vacuum <- get_vac ;;
            modify_vac (set_consumableMap
              (<[name := {| endpoint := Some sensorId;
                            consumable := consumable;
                            lastState := Some needsReplacement |}]>
                 (consumableMap vacuum))) ;;
            log LInfo (MsgContactSensor sensorId needsReplacement)
          else
            modify_vac (set_consumableMap
              (<[name := {| endpoint := None;
                            consumable := consumable;
                            lastState := None |}]>
                 (consumableMap vacuum))))
    end.

Definition CONSUMABLES_CHECK_INTERVAL : Z := 5 * 60 * 1000.

(** The body of the [for] loop of [updateConsumableStatesForVacuum]. *)
Definition checkConsumable (maxLifetimes : gmap string Q) (warningThreshold : Q)
    (consumable : ValetudoConsumable) : M unit :=
  let name := getConsumableName consumable in
  vacuum <- get_vac ;;
  match consumableMap vacuum !! name with
  | None => ret tt                                          (* continue *)
  | Some entry =>
      maxLifetime <-
        match getMaxLifetime consumable maxLifetimes with
        | Some maxLifetime => ret maxLifetime
        | None => throw (TypeError "consumable.remaining is undefined")
        end ;;
      let remainingMinutes := remainingValue consumable in
      let lifePercent := lifePercentOf remainingMinutes maxLifetime in
      let entry1 := {| endpoint := endpoint entry; consumable := consumable;
                       lastState := lastState entry |} in
      modify_vac (fun v => set_consumableMap (<[name := entry1]> (consumableMap v)) v) ;;
      let needsReplacement := atMost lifePercent warningThreshold in
      (if changed (lastState entry1) needsReplacement then
         (log LInfo (MsgConsumable name remainingMinutes lifePercent
                                   needsReplacement) ;;
          modify_vac (fun v =>
            set_consumableMap
              (<[name := {| endpoint := endpoint entry1;
                            consumable := consumable;
                            lastState := Some needsReplacement |}]>
                 (consumableMap v)) v))
       else ret tt) ;;
      match endpoint entry1 with
      | Some sensorId =>
          setAttribute (ContactSensor sensorId) "BooleanState" "stateValue"
                       (VBool (negb needsReplacement))
      | None => ret tt
      end
  end.

(** The body of the [try] of [updateConsumableStatesForVacuum]. *)
Definition checkConsumablesBody (maxLifetimes : gmap string Q)
    (warningThreshold : Q) : M unit :=
  env <- ask ;;
  match getConsumables env with
  | None => ret tt
  | Some consumables =>
      forEach consumables (checkConsumable maxLifetimes warningThreshold)
  end.

Definition updateConsumableStatesForVacuum : M unit :=
  env <- ask ;;
  now <- dateNow ;;
  vacuum <- get_vac ;;
  if now - lastConsumablesCheck vacuum <? CONSUMABLES_CHECK_INTERVAL then
    ret tt                                                  (* skip this check *)
  else
    modify_vac (set_lastConsumablesCheck now) ;;
    let maxLifetimes :=
      nullish (consumables_maxLifetimes (config env)) defaultMaxLifetimes in
    let warningThreshold :=
      or_default (consumables_warningThreshold (config env)) (10 # 1) in
    try_catch
      (checkConsumablesBody maxLifetimes warningThreshold)
      (fun error => log LDebug (MsgConsumablesError error)).

(** "Update consumables if enabled". *)
Definition updateConsumablesIfTracked : M unit :=
  vacuum <- get_vac ;;
  if negb (bool_decide (consumableMap vacuum = ∅))
  then updateConsumableStatesForVacuum
  else ret tt.

(* ===================================================================== *)
(** * updateVacuumState                                                   *)
(* ===================================================================== *)

(** The statements after the primary attribute pass. *)
Definition afterPrimaryPass : M unit :=
  sleep 500 ;;
  positionTracking ;;
  updateConsumablesIfTracked ;;
  now <- dateNow ;;
  modify_vac (set_lastSeen now) ;;
  modify_vac (set_online true).

(** The primary attribute pass: battery, pacing delay, status, flag. *)
Definition primaryPass (attributes : list StateAttribute) : M unit :=
  updateBatteryState attributes ;;
  sleep 200 ;;
  updateStatusState attributes ;;
  clearInitialStatePending.

Definition updateVacuumState : M unit :=
  env <- ask ;;
  vacuum <- get_vac ;;
  if negb (device vacuum) then ret tt
  else
    try_catch
      (match getStateAttributes env with
       | None => log LWarn MsgFetchFailed                   (* return *)
       | Some attributes =>
           primaryPass attributes ;;
           afterPrimaryPass
       end)
      (fun error =>
         log LError (MsgUpdateError error) ;;
         modify_vac (set_online false)).

(* ===================================================================== *)
(** * Clean-mode catalogue (module.ts, createDeviceForVacuum)             *)
(* ===================================================================== *)

Record CleanMode := {
  label : string;
  mode : Z;
  modeTags : list Z
}.

Section CleanModes.
(** [RvcCleanMode.ModeTag.Vacuum] and [.Auto], constants of the matter.js
    cluster definitions. *)
Variables (ModeTag_Vacuum ModeTag_Auto : Z).

(** "Deduplicate modes by label": [supportedCleanModes.filter] with the
    set [seenLabels] threaded through the predicate. *)
Fixpoint deduplicate (seenLabels : gset string) (modes : list CleanMode)
  : list CleanMode :=
  match modes with
  | [] => []
  | mode :: rest =>
      if bool_decide (label mode ∈ seenLabels)
      then deduplicate seenLabels rest
      else mode :: deduplicate ({[ label mode ]} ∪ seenLabels) rest
  end.

Definition fallbackCleanMode : CleanMode :=
  {| label := "Vacuum"; mode := 66;
     modeTags := [ModeTag_Vacuum; ModeTag_Auto] |}.

(** The catalogue handed to [RoboticVacuumCleaner], from the entries the
    three categories generated. *)
Definition finalCleanModes (supportedCleanModes : list CleanMode)
  : list CleanMode :=
  let deduplicatedModes := deduplicate ∅ supportedCleanModes in
  match deduplicatedModes with
  | [] => [fallbackCleanMode]
  | _ :: _ => deduplicatedModes
  end.
End CleanModes.


(** Vocabulary for the statements about the mapper. *)

(** The table value of a known status. *)
Definition tableValue (statusLower : string) : Z :=
  nullish (statusMap !! statusLower) OperationalStateValue.Stopped.

Definition dockActivity (dock : option string) : bool :=
  match truthy_string dock with
  | Some d =>
      let l := toLowerCase d in
      (String.eqb l "emptying" || String.eqb l "drying"
       || String.eqb l "cleaning")%bool
  | None => false
  end.

Definition parked (statusLower : string) : bool :=
  (String.eqb statusLower "docked" || String.eqb statusLower "idle"
   || String.eqb statusLower "charging")%bool.


(** The callback of [setInterval] in [startPollingForVacuum]. *)
Definition pollTick : M unit :=
  try_catch updateVacuumState
    (fun error =>
       log LError (MsgUpdateError error) ;;
       modify_vac (set_online false)).

(** The timer: one tick per period, each with what the outside answers
    during it and the time it fires at; every tick runs the callback. *)
Fixpoint pollTicks (ticks : list (Env * Z)) (v : VacuumInstance)
  : VacuumInstance * list Event :=
  match ticks with
  | [] => (v, [])
  | (env, now) :: rest =>
      let o := pollTick env {| vac := v; clock := now |} in
      let '(v', evs) := pollTicks rest (vac (world o)) in
      (v', events o ++ evs)
  end.

(* ===================================================================== *)
(** * Vocabulary for the statements about the poll cycle                  *)
(* ===================================================================== *)

(** The four tracked attributes, in the order the cycle treats them. *)
Inductive Tracked : Type :=
| BatteryLevel
| BatteryChargeState
| OperationalState
| RunMode.

#[global] Instance Tracked_eq_dec : EqDecision Tracked.
Proof. solve_decision. Defined.

Definition allTracked : list Tracked :=
  [BatteryLevel; BatteryChargeState; OperationalState; RunMode].

(** The tracked attribute a write on the vacuum endpoint publishes. *)
Definition trackedOf (wr : Write) : option Tracked :=
  match wr_target wr with
  | VacuumDevice =>
      if (String.eqb (wr_cluster wr) "PowerSource"
          && String.eqb (wr_attribute wr) "batPercentRemaining")%bool
      then Some BatteryLevel
      else if (String.eqb (wr_cluster wr) "PowerSource"
               && String.eqb (wr_attribute wr) "batChargeState")%bool
      then Some BatteryChargeState
      else if (String.eqb (wr_cluster wr) "RvcOperationalState"
               && String.eqb (wr_attribute wr) "operationalState")%bool
      then Some OperationalState
      else if (String.eqb (wr_cluster wr) "RvcRunMode"
               && String.eqb (wr_attribute wr) "currentMode")%bool
      then Some RunMode
      else None
  | ContactSensor _ => None
  end.

Definition publicationOf (e : Event) : option (Tracked * AttrValue) :=
  match e with
  | EvSetAttribute wr =>
      match trackedOf wr with
      | Some t => Some (t, wr_value wr)
      | None => None
      end
  | _ => None
  end.

(** The publications of tracked attributes among the events of a run, in
    the order they were issued. *)
Definition publications (evs : list Event) : list (Tracked * AttrValue) :=
  omap publicationOf evs.

(** The value the cycle computes for a tracked attribute from a snapshot;
    [None] when the snapshot has no record to compute it from. *)
Definition computed (t : Tracked) (attributes : list StateAttribute)
  : option AttrValue :=
  match t with
  | BatteryLevel =>
      match findBattery attributes with
      | Some (level, _) => Some (VNum (js_round (level * (2 # 1))))
      | None => None
      end
  | BatteryChargeState =>
      match findBattery attributes with
      | Some (_, flag) => Some (VNum (batChargeStateOf flag))
      | None => None
      end
  | OperationalState =>
      match findStatus attributes with
      | Some status =>
          Some (VJs (mapValetudoStatusToOperationalState
                       status (findDockStatus attributes)))
      | None => None
      end
  | RunMode =>
      match findStatus attributes with
      | Some status => Some (VNum (mapValetudoStatusToRunMode status))
      | None => None
      end
  end.

(** The last-published value the record holds for a tracked attribute. *)
Definition lastPublished (t : Tracked) (v : VacuumInstance) : option AttrValue :=
  match t with
  | BatteryLevel => VNum <$> lastBatteryLevel v
  | BatteryChargeState => VNum <$> lastBatteryChargeState v
  | OperationalState => VJs <$> lastOperationalState v
  | RunMode => VNum <$> lastRunMode v
  end.

(** The publications a cycle owes: for each tracked attribute with a
    computed value, that value if [force] is set or it differs from the
    last-published one. *)
Definition duePublication (force : bool) (v : VacuumInstance)
    (attributes : list StateAttribute) (t : Tracked)
  : list (Tracked * AttrValue) :=
  match computed t attributes with
  | Some x =>
      if (force || negb (bool_decide (lastPublished t v = Some x)))%bool
      then [(t, x)] else []
  | None => []
  end.

Definition duePublications (force : bool) (v : VacuumInstance)
    (attributes : list StateAttribute) : list (Tracked * AttrValue) :=
  flat_map (duePublication force v attributes) allTracked.

(** The Matter endpoints accept every write. *)
Definition sinkAccepts (env : Env) : Prop :=
  forall wr, setAttribute_throws env wr = false.

(** A computation that relates the record before and after by [R] and emits
    only events satisfying [P], whatever the environment. *)
Definition respects (R : VacuumInstance -> VacuumInstance -> Prop)
    (P : Event -> Prop) {A} (m : M A) : Prop :=
  forall env w,
    R (vac w) (vac (world (m env w))) /\ Forall P (events (m env w)).

(** A computation that never throws. *)
Definition no_throw {A} (m : M A) : Prop :=
  forall env w, exists a, result (m env w) = Ok a.

(** The fields the primary attribute pass owns. *)
Definition trackedFields (v : VacuumInstance) :=
  (device v, initialStatePending v, lastBatteryLevel v,
   lastBatteryChargeState v, lastOperationalState v, lastRunMode v).

Definition notPublication (e : Event) : Prop := publicationOf e = None.

(** Every tracked attribute has a publication among the events. *)
Definition allFourPublished (evs : list Event) : Prop :=
  forall t, exists x, (t, x) ∈ publications evs.

(** Everything a snapshot lets the cycle compute, in publication order. *)
Definition allComputed (attributes : list StateAttribute)
  : list (Tracked * AttrValue) :=
  flat_map (fun t => match computed t attributes with
                     | Some x => [(t, x)]
                     | None => []
                     end) allTracked.

(* ===================================================================== *)
(** * Sample data                                                         *)
(* ===================================================================== *)

Definition sampleConfig : Config :=
  {| positionTracking_enabled := None;
     mapCache_refreshIntervalHours := None;
     consumables_enabled := true;
     consumables_exposeAsContactSensors := false;
     consumables_maxLifetimes := None;
     consumables_warningThreshold := None |}.

(** A robot that answers the attribute fetch with [attributes] and nothing
    else, and endpoints that accept every write. *)
Definition sampleEnv (attributes : option (list StateAttribute)) : Env :=
  {| config := sampleConfig;
     getStateAttributes := attributes;
     getMapDataWithTimeout := fun _ => None;
     getMapPositionData := None;
     getConsumables := None;
     setAttribute_throws := fun _ => false;
     registerDevice_throws := fun _ => false;
     capabilities := ["ConsumableMonitoringCapability"] |}.

(** A registered vacuum that has not polled yet, with given last values. *)
Definition sampleVacuum (pending : bool) (battery charge : option Z)
    (opstate : option jsval) (runmode : option Z) : VacuumInstance :=
  {| id := "robot"; device := true; areaToSegmentMap := [];
     consumableMap := ∅; mapLayersCache := None; mapCacheValidUntil := 0;
     lastCurrentArea := None; lastConsumablesCheck := 0;
     lastBatteryLevel := battery; lastBatteryChargeState := charge;
     lastOperationalState := opstate; lastRunMode := runmode;
     initialStatePending := pending; lastSeen := 0; online := true |}.

Definition dockedAt (level : Q) : list StateAttribute :=
  [ BatteryStateAttribute level "charging";
    StatusStateAttribute "docked";
    DockStatusStateAttribute "docked" ].

(** A robot whose map payload lacks [metaData] and whose consumable payload
    lacks [remaining]: both sub-steps of the cycle hit a TypeError. *)
Definition brushWithoutRemaining : ValetudoConsumable :=
  {| c_type := "brush"; c_subType := "main"; c_remaining := None |}.

Definition faultyEnv : Env :=
  {| config := sampleConfig;
     getStateAttributes := Some (dockedAt (80 # 1));
     getMapDataWithTimeout := fun _ =>
       Some {| md_metaData := None; md_pixelSize := 5; md_layers := [];
               md_entities := None |};
     getMapPositionData := None;
     getConsumables := Some [brushWithoutRemaining];
     setAttribute_throws := fun _ => false;
     registerDevice_throws := fun _ => false;
     capabilities := ["ConsumableMonitoringCapability"] |}.

(** A vacuum with one mapped area and one tracked consumable. *)
Definition trackedVacuum : VacuumInstance :=
  {| id := "robot"; device := true;
     areaToSegmentMap := [(1, {| seg_id := "17"; seg_name := "Kitchen" |})];
     consumableMap :=
       {[ "Main Brush" :=
            {| endpoint := None;
               consumable :=
                 {| c_type := "brush"; c_subType := "main";
                    c_remaining := Some {| rem_value := 200 # 1;
                                           rem_unit := "minutes" |} |};
               lastState := None |} ]};
     mapLayersCache := None; mapCacheValidUntil := 0;
     lastCurrentArea := None; lastConsumablesCheck := 0;
     lastBatteryLevel := Some 160; lastBatteryChargeState := Some 1;
     lastOperationalState := Some (JNum 66); lastRunMode := Some 1;
     initialStatePending := false; lastSeen := 0; online := true |}.

(** The main brush with [remaining] minutes left. *)
Definition mainBrush (remaining : Q) : ValetudoConsumable :=
  {| c_type := "brush"; c_subType := "main";
     c_remaining := Some {| rem_value := remaining; rem_unit := "minutes" |} |}.

(** A robot reporting one consumable, under a given consumable
    configuration (contact sensors or not, warning threshold). *)
Definition consumableEnv (exposeAsContactSensors : bool)
    (warningThreshold : option Q) (consumables : list ValetudoConsumable) : Env :=
  {| config :=
       {| positionTracking_enabled := None;
          mapCache_refreshIntervalHours := None;
          consumables_enabled := true;
          consumables_exposeAsContactSensors := exposeAsContactSensors;
          consumables_maxLifetimes := None;
          consumables_warningThreshold := warningThreshold |};
     getStateAttributes := None;
     getMapDataWithTimeout := fun _ => None;
     getMapPositionData := None;
     getConsumables := Some consumables;
     setAttribute_throws := fun _ => false;
     registerDevice_throws := fun _ => false;
     capabilities := ["ConsumableMonitoringCapability"] |}.

(** [setupConsumablesForVacuum] at device creation, then three periodic
    checks five minutes apart, all against the same robot answers: the
    events of each check. *)
Definition threeChecks (env : Env) : list Event * list Event * list Event :=
  let v0 := sampleVacuum false None None None None in
  let s := setupConsumablesForVacuum env {| vac := v0; clock := 0 |} in
  let c1 := updateConsumableStatesForVacuum
              env {| vac := vac (world s); clock := 300000 |} in
  let c2 := updateConsumableStatesForVacuum
              env {| vac := vac (world c1); clock := 600000 |} in
  let c3 := updateConsumableStatesForVacuum
              env {| vac := vac (world c2); clock := 900000 |} in
  (events c1, events c2, events c3).

(** The write that reports a consumable on its contact sensor. *)
Definition sensorWrite (sensorId : string) (needsReplacement : bool) : Event :=
  EvSetAttribute {| wr_target := ContactSensor sensorId;
                    wr_cluster := "BooleanState";
                    wr_attribute := "stateValue";
                    wr_value := VBool (negb needsReplacement) |}.

(** The robot of [sampleEnv] behind a Matter endpoint that rejects every
    attribute write by throwing. *)
Definition rejectingEnv (attributes : option (list StateAttribute)) : Env :=
  {| config := sampleConfig;
     getStateAttributes := attributes;
     getMapDataWithTimeout := fun _ => None;
     getMapPositionData := None;
     getConsumables := None;
     setAttribute_throws := fun _ => true;
     registerDevice_throws := fun _ => false;
     capabilities := ["ConsumableMonitoringCapability"] |}.

From Stdlib Require Import DecimalString.

(* ===================================================================== *)
(** * Poll timer set-up (module.ts, startPollingForVacuum)                *)
(* ===================================================================== *)


(** [n || d] on an integer: zero is falsy. *)
Definition or_defaultZ (n : option Z) (d : Z) : Z :=
  match n with
  | Some z => if z =? 0 then d else z
  | None => d
  end.

(** [Math.max(5000, Math.min(60000, config.pollingInterval || 30000))]. *)
Definition baseInterval (pollingInterval : option Z) : Z :=
  Z.max 5000 (Z.min 60000 (or_defaultZ pollingInterval 30000)).



(* ===================================================================== *)
(** * Clean-mode generation (module.ts)                                   *)
(* ===================================================================== *)

Module RvcCleanModeValue.
Definition VacuumMopQuiet : Z := 5.
Definition VacuumMopAuto : Z := 6.
Definition VacuumMopQuick : Z := 7.
Definition VacuumMopMax : Z := 8.
Definition VacuumMopTurbo : Z := 9.
Definition MopMin : Z := 31.
Definition MopLow : Z := 32.
Definition MopMedium : Z := 33.
Definition MopHigh : Z := 34.
Definition VacuumQuiet : Z := 66.
Definition VacuumAuto : Z := 67.
Definition VacuumQuick : Z := 68.
Definition VacuumMax : Z := 69.
Definition VacuumTurbo : Z := 70.
End RvcCleanModeValue.

(** [String.prototype.toUpperCase], on the ASCII range. *)
Definition upper_ascii (c : ascii) : ascii :=
  let n := N_of_ascii c in
  if ((97 <=? n) && (n <=? 122))%N then ascii_of_N (n - 32) else c.

(** [s.charAt(0).toUpperCase() + s.slice(1)]. *)
Definition capitalize (s : string) : string :=
  match s with
  | EmptyString => EmptyString
  | String c rest => String (upper_ascii c) rest
  end.

(** A clean-mode entry as the generators build it: a code that is not a
    number (a sum with [undefined] is NaN) is [None], and so is an
    [undefined] tag. *)
Record GeneratedMode := {
  g_label : string;
  g_mode : option Z;
  g_modeTags : list (option Z)
}.

(** The value of [intensityMap[presetLower]]: its three fields, each
    [undefined] ([None]) when the lookup found a member inherited from
    [Object.prototype] instead of an entry of the table. *)
Record Intensity := {
  i_tag : option Z;
  i_label : option string;
  i_offset : option Z
}.

(** [`${x}`] for a [string | undefined]. *)
Definition show_label (l : option string) : string :=
  match l with Some s => s | None => "undefined" end.

Section Generators.
(** The mode tags of [RvcCleanMode.ModeTag], constants of matter.js. *)
Variables (Tag_Auto Tag_Quick Tag_Quiet Tag_Min Tag_Max
           Tag_Vacuum Tag_Mop : Z).

Definition own_intensity (tag : Z) (lbl : string) (offset : Z) : Intensity :=
  {| i_tag := Some tag; i_label := Some lbl; i_offset := Some offset |}.

(** The own properties of the literal [intensityMap]. *)
Definition intensityMap : gmap string Intensity :=
  list_to_map
    [ ("off", own_intensity Tag_Min "Off" 4);
      ("min", own_intensity Tag_Min "Min" 4);
      ("low", own_intensity Tag_Quiet "Quiet" 2);
      ("medium", own_intensity Tag_Auto "Auto" 0);
      ("high", own_intensity Tag_Quick "Quick" 1);
      ("max", own_intensity Tag_Max "Max" 3);
      ("turbo", own_intensity Tag_Max "Turbo" 3) ].

(** [intensityMap[presetLower]]; [None] is [undefined]. *)
Definition intensity_get (presetLower : string) : option Intensity :=
  match intensityMap !! presetLower with
  | Some i => Some i
  | None =>
      if decide (presetLower ∈ Object_prototype_members)
      then Some {| i_tag := None; i_label := None; i_offset := None |}
      else None
  end.

Definition modeLabelOf (baseMode : string) : string :=
  if String.eqb baseMode "vacuum_and_mop" then "Vacuum & Mop"
  else capitalize baseMode.

(** The single entry pushed when no preset gives a variant. *)
Definition autoMode (modeLabel : string) (baseModeNumber : Z)
    (baseTags : list Z) : GeneratedMode :=
  {| g_label := modeLabel;
     g_mode := Some baseModeNumber;
     g_modeTags := (Some <$> baseTags) ++ [Some Tag_Auto] |}.

(** The [for (const preset of fanSpeedPresets)] loop, with the set
    [usedOffsets] and the array [modes] it updates. *)
Fixpoint intensityLoop (modeLabel : string) (baseModeNumber : Z)
    (baseTags : list Z) (presets : list string)
    (usedOffsets : list (option Z)) (modes : list GeneratedMode)
  : list GeneratedMode :=
  match presets with
  | [] => modes
  | preset :: rest =>
      let presetLower := toLowerCase preset in
      match intensity_get presetLower with
      | Some intensity =>
          if bool_decide (i_offset intensity ∈ usedOffsets)
          then intensityLoop modeLabel baseModeNumber baseTags rest
                             usedOffsets modes
          else
            intensityLoop modeLabel baseModeNumber baseTags rest
              (i_offset intensity :: usedOffsets)
              (modes ++
               [ {| g_label := (modeLabel ++ " ("
                                ++ show_label (i_label intensity) ++ ")")%string;
                    g_mode := (fun o => baseModeNumber + o) <$> i_offset intensity;
                    g_modeTags := (Some <$> baseTags) ++ [i_tag intensity] |} ])
      | None =>
          intensityLoop modeLabel baseModeNumber baseTags rest usedOffsets modes
      end
  end.

Definition createIntensityVariants (baseMode : string) (baseModeNumber : Z)
    (baseTags : list Z) (fanSpeedPresets : option (list string))
  : list GeneratedMode :=
  let modeLabel := modeLabelOf baseMode in
  match fanSpeedPresets with
  | None | Some [] => [autoMode modeLabel baseModeNumber baseTags]
  | Some presets =>
      match intensityLoop modeLabel baseModeNumber baseTags presets [] [] with
      | [] => [autoMode modeLabel baseModeNumber baseTags]
      | modes => modes
      end
  end.

(** One of the four fixed combinations of [createMopVariants]. *)
Record MopConfig := {
  mc_fanPreset : string;
  mc_waterPreset : string;
  mc_tag : Z;
  mc_label : string;
  mc_mode : Z
}.

Definition mopConfigs : list MopConfig :=
  [ {| mc_fanPreset := "medium"; mc_waterPreset := "medium";
       mc_tag := Tag_Auto; mc_label := "Mop (Auto)";
       mc_mode := RvcCleanModeValue.MopMin |};
    {| mc_fanPreset := "low"; mc_waterPreset := "low";
       mc_tag := Tag_Quiet; mc_label := "Mop (Quiet)";
       mc_mode := RvcCleanModeValue.MopLow |};
    {| mc_fanPreset := "high"; mc_waterPreset := "high";
       mc_tag := Tag_Quick; mc_label := "Mop (Quick)";
       mc_mode := RvcCleanModeValue.MopMedium |};
    {| mc_fanPreset := "max"; mc_waterPreset := "high";
       mc_tag := Tag_Max; mc_label := "Mop (Max)";
       mc_mode := RvcCleanModeValue.MopHigh |} ].

(** The [for (const config of mopConfigs)] loop, with [usedLabels] and
    [modes]. *)
Fixpoint mopLoop (fanSpeedPresets waterUsagePresets : list string)
    (configs : list MopConfig) (usedLabels : list string)
    (modes : list GeneratedMode) : list GeneratedMode :=
  match configs with
  | [] => modes
  | config :: rest =>
      let hasFan := bool_decide (mc_fanPreset config ∈ fanSpeedPresets) in
      let hasWater := bool_decide (mc_waterPreset config ∈ waterUsagePresets) in
      if (hasFan && hasWater
          && negb (bool_decide (mc_label config ∈ usedLabels)))%bool
      then mopLoop fanSpeedPresets waterUsagePresets rest
                   (mc_label config :: usedLabels)
                   (modes ++
                    [ {| g_label := mc_label config;
                         g_mode := Some (mc_mode config);
                         g_modeTags := [Some Tag_Mop; Some (mc_tag config)] |} ])
      else mopLoop fanSpeedPresets waterUsagePresets rest usedLabels modes
  end.

Definition createMopVariants (fanSpeedPresets waterUsagePresets : option (list string))
  : list GeneratedMode :=
  match fanSpeedPresets, waterUsagePresets with
  | Some fan, Some water =>
      match mopLoop fan water mopConfigs [] [] with
      | [] => createIntensityVariants "mop" RvcCleanModeValue.MopMin
                                      [Tag_Mop] fanSpeedPresets
      | modes => modes
      end
  | _, _ => createIntensityVariants "mop" RvcCleanModeValue.MopMin
                                    [Tag_Mop] fanSpeedPresets
  end.
End Generators.

(** [s || d] on a string: the empty string is falsy. *)
Definition or_string (s : option string) (d : string) : string :=
  match s with
  | Some EmptyString | None => d
  | Some s' => s'
  end.

(** [config.modeMapping], each key optional. *)
Record ModeMappingConfig := {
  mm_vacuum : option string;
  mm_mop : option string;
  mm_vacuumAndMop : option string
}.

Record ModeMapping := {
  vacuumSource : string;
  mopSource : string;
  vacuumMopSource : string
}.

Definition getModeMapping (cfg : option ModeMappingConfig) : ModeMapping :=
  {| vacuumSource := or_string (cfg ≫= mm_vacuum) "vacuum";
     mopSource := or_string (cfg ≫= mm_mop) "mop";
     vacuumMopSource := or_string (cfg ≫= mm_vacuumAndMop) "vacuum_and_mop" |}.

Definition getBaseModeFromNumber (cfg : option ModeMappingConfig) (mode : Z)
  : string :=
  let modeMapping := getModeMapping cfg in
  if (66 <=? mode) && (mode <=? 70) then vacuumSource modeMapping
  else if (31 <=? mode) && (mode <=? 42) then mopSource modeMapping
  else if (5 <=? mode) && (mode <=? 9) then vacuumMopSource modeMapping
  else "".

(** One entry of [config.intensityPresets]. *)
Record PresetOverride := {
  po_fanSpeed : option string;
  po_waterUsage : option string
}.

(** [config.intensityPresets]. *)
Record IntensityPresets := {
  ip_auto : option PresetOverride;
  ip_quiet : option PresetOverride;
  ip_quick : option PresetOverride;
  ip_max : option PresetOverride
}.

Inductive IntensityKey : Type := KAuto | KQuiet | KQuick | KMax.

Record IntensitySettings := {
  fan : string;
  water : string
}.

(** The table [offsetMap] of the two five-code bands, with the
    [offsetMap[offset] || offsetMap[1]] default. *)
Definition offsetMap (offset : Z) : IntensityKey * string * string :=
  if offset =? 0 then (KQuiet, "low", "low")
  else if offset =? 2 then (KQuick, "high", "high")
  else if offset =? 3 then (KMax, "max", "high")
  else if offset =? 4 then (KMax, "turbo", "high")
  else (KAuto, "medium", "medium").

(** The table [modeMap] of the mop band, with its default. *)
Definition mopModeMap (mode : Z) : IntensityKey * string * string :=
  if mode =? RvcCleanModeValue.MopLow then (KQuiet, "low", "low")
  else if mode =? RvcCleanModeValue.MopMedium then (KQuick, "high", "high")
  else if mode =? RvcCleanModeValue.MopHigh then (KMax, "max", "high")
  else (KAuto, "medium", "medium").

Definition overrideOf (cfg : option IntensityPresets) (k : IntensityKey)
  : option PresetOverride :=
  cfg ≫= match k with
         | KAuto => ip_auto
         | KQuiet => ip_quiet
         | KQuick => ip_quick
         | KMax => ip_max
         end.

Definition getIntensitySettings (cfg : option IntensityPresets) (mode : Z)
  : IntensitySettings :=
  let withOverrides (m : IntensityKey * string * string) :=
    let '(intensityKey, defaultFan, defaultWater) := m in
    let overrides := overrideOf cfg intensityKey in
    {| fan := or_string (overrides ≫= po_fanSpeed) defaultFan;
       water := or_string (overrides ≫= po_waterUsage) defaultWater |} in
  if (RvcCleanModeValue.VacuumQuiet <=? mode)
     && (mode <=? RvcCleanModeValue.VacuumTurbo)
  then withOverrides (offsetMap (mode - RvcCleanModeValue.VacuumQuiet))
  else if (RvcCleanModeValue.MopMin <=? mode)
          && (mode <=? RvcCleanModeValue.MopHigh)
  then withOverrides (mopModeMap mode)
  else if (RvcCleanModeValue.VacuumMopQuiet <=? mode)
          && (mode <=? RvcCleanModeValue.VacuumMopTurbo)
  then withOverrides (offsetMap (mode - RvcCleanModeValue.VacuumMopQuiet))
  else {| fan := "medium"; water := "medium" |}.

(** What the preset loop of [createIntensityVariants] keeps invariant: the
    codes are pairwise distinct, and each comes from a used offset. *)
Definition loopInv (base : Z) (used : list (option Z))
    (modes : list GeneratedMode) : Prop :=
  NoDup (g_mode <$> modes)
  /\ forall m, m ∈ modes ->
       exists o, o ∈ used /\ g_mode m = (fun z => base + z) <$> o
                 /\ match o with Some z => 0 <= z <= 4 | None => True end.

(* ===================================================================== *)
(** * Service areas (module.ts, createDeviceForVacuum)                    *)
(* ===================================================================== *)

(** A room of [/capabilities/MapSegmentationCapability]. *)
Record MapSegment := {
  ms_id : string;
  ms_name : string
}.

(** The bytes of a string, and the string of a list of bytes. *)
Definition utf8 (codes : list N) : list ascii := ascii_of_N <$> codes.

(** The code points that [String.prototype.trim] strips -- the WhiteSpace
    and the LineTerminator of ECMAScript -- each by the bytes of its UTF-8
    encoding. *)
Definition whiteSpace : list (list ascii) :=
  utf8 <$>
    [ [9]; [10]; [11]; [12]; [13]; [32];      (* TAB LF VT FF CR SP *)
      [194; 160];                             (* U+00A0 no-break space *)
      [225; 154; 128];                        (* U+1680 *)
      [226; 128; 128]; [226; 128; 129]; [226; 128; 130]; [226; 128; 131];
      [226; 128; 132]; [226; 128; 133]; [226; 128; 134]; [226; 128; 135];
      [226; 128; 136]; [226; 128; 137]; [226; 128; 138];
                                              (* U+2000 .. U+200A *)
      [226; 128; 168]; [226; 128; 169];       (* U+2028, U+2029 *)
      [226; 128; 175];                        (* U+202F *)
      [226; 129; 159];                        (* U+205F *)
      [227; 128; 128];                        (* U+3000 *)
      [239; 187; 191] ]%N.                    (* U+FEFF *)

Fixpoint startsWith (p l : list ascii) : bool :=
  match p, l with
  | [], _ => true
  | a :: p', b :: l' => Ascii.eqb a b && startsWith p' l'
  | _ :: _, [] => false
  end.

(** What follows the code point at the head of [l], when that is one of
    [table]. *)
Definition afterSpace (table : list (list ascii)) (l : list ascii)
  : option (list ascii) :=
  (fun p => drop (length p) l) <$> List.find (fun p => startsWith p l) table.

(** The code points of [table] at the head of [l] dropped, in at most [n]
    steps. *)
Fixpoint dropSpaces (table : list (list ascii)) (n : nat) (l : list ascii)
  : list ascii :=
  match n with
  | O => l
  | S n' =>
      match afterSpace table l with
      | Some rest => dropSpaces table n' rest
      | None => l
      end
  end.

(** Every step drops a byte at least, so the length of the list is enough
    steps.  The end of the list is the head of its mirror image. *)
Definition trimStartL (l : list ascii) : list ascii :=
  dropSpaces whiteSpace (length l) l.

Definition trimEndL (l : list ascii) : list ascii :=
  reverse (dropSpaces (reverse <$> whiteSpace) (length l) (reverse l)).

(** [String.prototype.trim]. *)
Definition trim (s : string) : string :=
  string_of_list_ascii (trimEndL (trimStartL (list_ascii_of_string s))).

(** U+00A0, the no-break space: one of the white spaces that are not ASCII. *)
Definition nbsp : string := string_of_list_ascii (utf8 [194; 160]%N).

(** An entry of [supportedAreas]; its other fields are constants
    ([mapId: null], [floorNumber: 0], [areaType: null],
    [landmarkInfo: null]). *)
Record SupportedArea := {
  areaId : Z;
  locationName : string
}.

(** [Map.prototype.set] and [Map.prototype.get] on the entries of a map in
    insertion order. *)
Fixpoint map_set {V} (entries : list (Z * V)) (k : Z) (v : V) : list (Z * V) :=
  match entries with
  | [] => [(k, v)]
  | (k', v') :: rest =>
      if k' =? k then (k, v) :: rest else (k', v') :: map_set rest k v
  end.

Fixpoint map_get {V} (entries : list (Z * V)) (k : Z) : option V :=
  match entries with
  | [] => None
  | (k', v') :: rest => if k' =? k then Some v' else map_get rest k
  end.

(** [`${n}`] for an integer. *)
Definition show_Z (n : Z) : string :=
  DecimalString.NilZero.string_of_int (Z.to_int n).

(** The callback of [validSegments.map((segment, index) => ...)], run over
    the segments in order, with the map [usedNames] and the vacuum's
    [areaToSegmentMap] it updates. *)
Fixpoint areasLoop (segments : list MapSegment) (index : Z)
    (usedNames : gmap string Z) (areaToSegmentMap : list (Z * SegmentInfo))
  : list SupportedArea * list (Z * SegmentInfo) :=
  match segments with
  | [] => ([], areaToSegmentMap)
  | segment :: rest =>
      let trimmed := trim (ms_name segment) in
      let locationName0 :=
        if String.eqb trimmed "" then ("Room " ++ show_Z (index + 1))%string
        else trimmed in
      let '(locationName, usedNames') :=
        match usedNames !! locationName0 with
        | Some n =>
            let count := n + 1 in
            ((locationName0 ++ " " ++ show_Z count)%string,
             <[locationName0 := count]> usedNames)
        | None => (locationName0, <[locationName0 := 1]> usedNames)
        end in
      let areaId := index + 1 in
      let areaToSegmentMap' :=
        map_set areaToSegmentMap areaId
                {| seg_id := ms_id segment; seg_name := locationName |} in
      let '(areas, final) :=
        areasLoop rest (index + 1) usedNames' areaToSegmentMap' in
      ({| areaId := areaId; locationName := locationName |} :: areas, final)
  end.

(** [segments.filter((segment) => segment.name &&
      segment.name.trim().length > 0)]. *)
Definition validSegments (segments : list MapSegment) : list MapSegment :=
  List.filter (fun segment => negb (String.eqb (trim (ms_name segment)) ""))
              segments.

(** "Fetch map segments (rooms/areas) if supported": [supportedAreas]
    ([None] is [undefined]) and the vacuum's [areaToSegmentMap] after it.
    The info line that lists the areas found is not part of the result. *)
Definition buildAreas (hasMapSegmentation : bool)
    (getMapSegments : option (list MapSegment))
    (areaToSegmentMap : list (Z * SegmentInfo))
  : option (list SupportedArea) * list (Z * SegmentInfo) :=
  if hasMapSegmentation then
    match getMapSegments with
    | Some ((_ :: _) as segments) =>
        let '(areas, final) :=
          areasLoop (validSegments segments) 0 ∅ areaToSegmentMap in
        (Some areas, final)
    | _ => (None, areaToSegmentMap)
    end
  else (None, areaToSegmentMap).

(** ** What the statements about the areas say of white space

    The following are not taken from the code: they say, in the words of
    ECMAScript, what a string made of white space is and what a string
    without white space at its ends is; the theorems relate [trim] and
    [validSegments] to them. *)

(** A sequence of white space code points. *)
Inductive BlankL : list ascii -> Prop :=
| BlankL_nil : BlankL []
| BlankL_cons (w l : list ascii) : w ∈ whiteSpace -> BlankL l -> BlankL (w ++ l).

Definition Blank (s : string) : Prop := BlankL (list_ascii_of_string s).

(** No white space at either end. *)
Definition TrimmedL (l : list ascii) : Prop :=
  forall w, w ∈ whiteSpace -> ~ w `prefix_of` l /\ ~ w `suffix_of` l.

Definition Trimmed (s : string) : Prop := TrimmedL (list_ascii_of_string s).

(** [core] is [raw] without the white space at its two ends. *)
Definition Stripped (raw core : string) : Prop :=
  exists pre post,
    list_ascii_of_string raw = pre ++ list_ascii_of_string core ++ post
    /\ BlankL pre /\ BlankL post /\ Trimmed core.

(** The rooms that have a name, in the order received. *)
Inductive NamedRooms : list MapSegment -> list MapSegment -> Prop :=
| NamedRooms_nil : NamedRooms [] []
| NamedRooms_blank (segment : MapSegment) (l named : list MapSegment) :
    Blank (ms_name segment) -> NamedRooms l named ->
    NamedRooms (segment :: l) named
| NamedRooms_named (segment : MapSegment) (l named : list MapSegment) :
    ~ Blank (ms_name segment) -> NamedRooms l named ->
    NamedRooms (segment :: l) (segment :: named).

(** The area named by a segment: the segment's name without the white
    space at its ends, or that name followed by a counter from 2 on. *)
Definition namedAfter (segment : MapSegment) (a : SupportedArea) : Prop :=
  exists core,
    Stripped (ms_name segment) core
    /\ (locationName a = core
        \/ exists count, 2 <= count
             /\ locationName a = (core ++ " " ++ show_Z count)%string).

(* ===================================================================== *)
(** * Command handlers (module.ts, setupCommandHandlersForVacuum)         *)
(* ===================================================================== *)

(** The requests a handler sends to the robot through the client; each
    client method catches its own failures and returns a boolean that the
    handlers ignore. *)
Inductive ClientCall : Type :=
| GetMapSegmentationProperties
| CleanSegments (segmentIds : list string) (iterations : Z) (customOrder : bool)
| StartCleaning
| StopCleaning
| SetOperationMode (preset : string)
| SetFanSpeed (preset : string)
| SetWaterUsage (preset : string).

Inductive HandlerEvent : Type :=
| HLogChangeToMode (newMode : Z)
| HLogStartRooms (roomNames : list string)
| HLogStartFull
| HLogStop
| HLogSetMode (mode fan water : string)
| HLogSelectAreas (newAreas : option (list Z))
| HLogSelected (roomNames : list string)
| HCall (call : ClientCall).

(** [vacuum.selectedSegmentIds] and [vacuum.selectedRoomNames]. *)
Record Selection := {
  selectedSegmentIds : list string;
  selectedRoomNames : list string
}.

Definition noSelection : Selection :=
  {| selectedSegmentIds := []; selectedRoomNames := [] |}.

(** What the [changeToMode] handler reads besides the request: the
    vacuum's capabilities, the configuration, and the robot's answer to
    [getMapSegmentationProperties] ([customOrderSupported]; [None] when the
    fetch failed or the field is missing). *)
Record HandlerEnv := {
  h_capabilities : list string;
  h_modeMapping : option ModeMappingConfig;
  h_intensityPresets : option IntensityPresets;
  h_customOrderSupported : option bool
}.

(** The [changeToMode] handler. *)
Definition changeToMode (henv : HandlerEnv) (newMode : Z) (sel : Selection)
  : Selection * list HandlerEvent :=
  let isRunMode := (1 <=? newMode) && (newMode <=? 3) in
  if isRunMode then
    if newMode =? 2 then
      match selectedSegmentIds sel with
      | _ :: _ =>
          (sel,
           [ HLogChangeToMode newMode;
             HLogStartRooms (selectedRoomNames sel);
             HCall GetMapSegmentationProperties;
             HCall (CleanSegments (selectedSegmentIds sel) 1
                      (nullish (h_customOrderSupported henv) false)) ])
      | [] =>
          (sel, [HLogChangeToMode newMode; HLogStartFull; HCall StartCleaning])
      end
    else if newMode =? 1 then
      (noSelection, [HLogChangeToMode newMode; HLogStop; HCall StopCleaning])
    else (sel, [HLogChangeToMode newMode])
  else
    let settings := getIntensitySettings (h_intensityPresets henv) newMode in
    let mode := getBaseModeFromNumber (h_modeMapping henv) newMode in
    if String.eqb mode "" then (sel, [HLogChangeToMode newMode])
    else
      (sel,
       [ HLogChangeToMode newMode;
         HLogSetMode mode (fan settings) (water settings);
         HCall (SetOperationMode mode) ]
       ++ (if negb (String.eqb (fan settings) "")
              && bool_decide ("FanSpeedControlCapability" ∈ h_capabilities henv)
           then [HCall (SetFanSpeed (fan settings))] else [])
       ++ (if negb (String.eqb (water settings) "")
              && bool_decide ("WaterUsageControlCapability" ∈ h_capabilities henv)
           then [HCall (SetWaterUsage (water settings))] else [])).

(** The [for (const areaId of request.newAreas)] loop of [selectAreas]. *)
Fixpoint selectLoop (areaToSegmentMap : list (Z * SegmentInfo))
    (newAreas : list Z) : list string * list string :=
  match newAreas with
  | [] => ([], [])
  | areaId :: rest =>
      let '(segmentIds, roomNames) := selectLoop areaToSegmentMap rest in
      match map_get areaToSegmentMap areaId with
      | Some segmentInfo =>
          (seg_id segmentInfo :: segmentIds, seg_name segmentInfo :: roomNames)
      | None => (segmentIds, roomNames)
      end
  end.

(** The [selectAreas] handler; [newAreas] is [None] when the request has
    none. *)
Definition selectAreas (areaToSegmentMap : list (Z * SegmentInfo))
    (newAreas : option (list Z)) (sel : Selection)
  : Selection * list HandlerEvent :=
  match newAreas with
  | None | Some [] => (noSelection, [HLogSelectAreas newAreas])
  | Some areas =>
      let '(segmentIds, roomNames) := selectLoop areaToSegmentMap areas in
      ({| selectedSegmentIds := segmentIds; selectedRoomNames := roomNames |},
       [HLogSelectAreas newAreas; HLogSelected roomNames])
  end.

(** The requests to the robot among the events of a handler. *)
Definition callsOf (evs : list HandlerEvent) : list ClientCall :=
  omap (fun e => match e with HCall call => Some call | _ => None end) evs.

Section RunModes.
(** [RvcRunMode.ModeTag.Idle], [.Cleaning] and [.Mapping], constants of the
    matter.js cluster definitions. *)
Variables (RunTag_Idle RunTag_Cleaning RunTag_Mapping : Z).

(** "Build run modes" of [createDeviceForVacuum]; an entry has the shape of
    a clean-mode entry: label, mode, mode tags. *)
Definition supportedRunModes (capabilities : list string) : list CleanMode :=
  [ {| label := "Idle"; mode := RvcRunModeValue.Idle;
       modeTags := [RunTag_Idle] |};
    {| label := "Cleaning"; mode := RvcRunModeValue.Cleaning;
       modeTags := [RunTag_Cleaning] |} ]
  ++ (if bool_decide ("MappingPassCapability" ∈ capabilities)
      then [ {| label := "Mapping"; mode := RvcRunModeValue.Mapping;
                modeTags := [RunTag_Mapping] |} ]
      else []).
End RunModes.

(* ===================================================================== *)
(** * Vocabulary for the statements about the poll cycle's sub-steps      *)
(* ===================================================================== *)

(** The Matter endpoints reject every write. *)
Definition sinkRejects (env : Env) : Prop :=
  forall wr, setAttribute_throws env wr = true.

(** The fields of the record that position tracking has no business with:
    all but [mapLayersCache], [mapCacheValidUntil] and [lastCurrentArea]. *)
Definition outsidePositionTracking (v : VacuumInstance) :=
  (id v, device v, areaToSegmentMap v, consumableMap v, lastConsumablesCheck v,
   lastBatteryLevel v, lastBatteryChargeState v, lastOperationalState v,
   lastRunMode v, initialStatePending v, lastSeen v, online v).

(** The fields that the consumable check has no business with: all but
    [consumableMap] and [lastConsumablesCheck]. *)
Definition outsideConsumables (v : VacuumInstance) :=
  (id v, device v, areaToSegmentMap v, mapLayersCache v, mapCacheValidUntil v,
   lastCurrentArea v, lastBatteryLevel v, lastBatteryChargeState v,
   lastOperationalState v, lastRunMode v, initialStatePending v, lastSeen v,
   online v).

(** A log line, or a write of [ServiceArea.currentArea] on the vacuum. *)
Definition positionEvent (e : Event) : Prop :=
  match e with
  | EvLog _ _ => True
  | EvSetAttribute wr =>
      wr_target wr = VacuumDevice /\ wr_cluster wr = "ServiceArea"
      /\ wr_attribute wr = "currentArea"
  | _ => False
  end.

(** A log line, or a write of [BooleanState.stateValue] on a contact
    sensor. *)
Definition consumableEvent (e : Event) : Prop :=
  match e with
  | EvLog _ _ => True
  | EvSetAttribute wr =>
      (exists sensorId, wr_target wr = ContactSensor sensorId)
      /\ wr_cluster wr = "BooleanState" /\ wr_attribute wr = "stateValue"
  | _ => False
  end.

(** The contact sensor of each tracked consumable. *)
Definition sensors (v : VacuumInstance) : gmap string (option string) :=
  endpoint <$> consumableMap v.

(** The contact sensors registered among the events of a run. *)
Definition registrations (evs : list Event) : list string :=
  omap (fun e => match e with
                 | EvRegisterSensor sensorId _ => Some sensorId
                 | _ => None
                 end) evs.

(** The id of the contact sensor of a consumable of the vacuum [vacuumId]. *)
Definition sensorIdOf (vacuumId : string) (consumable : ValetudoConsumable)
  : string :=
  sanitize (vacuumId ++ "-consumable-" ++ c_type consumable
            ++ "-" ++ c_subType consumable)%string.

(* ===================================================================== *)
(** * Clean modes offered (module.ts, createDeviceForVacuum)              *)
(* ===================================================================== *)

(** The log lines of "Build clean modes". *)
Inductive CatalogueLog : Type :=
| LogCategoryUsing (category source : string)
| LogCategoryUnsupported (category source : string).

Section Catalogue.
Variables (Tag_Auto Tag_Quick Tag_Quiet Tag_Min Tag_Max
           Tag_Vacuum Tag_Mop : Z).

(** "Build clean modes", up to the deduplication: the entries pushed to
    [supportedCleanModes] and the lines logged, from the vacuum's
    capabilities, the robot's answers to the three preset requests and the
    configured mode mapping.  The assignment to [vacuum.operationModes], a
    field nothing else reads, is left out. *)
Definition assembleCleanModes (capabilities : list string)
    (getFanSpeedPresets getWaterUsagePresets getOperationModePresets
       : option (list string))
    (cfg : option ModeMappingConfig)
  : list GeneratedMode * list CatalogueLog :=
  let fanSpeedPresets :=
    if bool_decide ("FanSpeedControlCapability" ∈ capabilities)
    then getFanSpeedPresets else None in
  let waterUsagePresets :=
    if bool_decide ("WaterUsageControlCapability" ∈ capabilities)
    then getWaterUsagePresets else None in
  if bool_decide ("OperationModeControlCapability" ∈ capabilities) then
    match getOperationModePresets with
    | Some ((_ :: _) as operationModes) =>
        let modeMapping := getModeMapping cfg in
        let vacuumSource := vacuumSource modeMapping in
        let '(modes1, log1) :=
          if (bool_decide (vacuumSource ∈ operationModes)
              || (String.eqb vacuumSource "vacuum"
                  && bool_decide ("vaccum" ∈ operationModes)))%bool
          then
            (createIntensityVariants Tag_Auto Tag_Quick Tag_Quiet Tag_Min Tag_Max
               vacuumSource RvcCleanModeValue.VacuumQuiet [Tag_Vacuum]
               fanSpeedPresets,
             if negb (String.eqb vacuumSource "vacuum")
             then [LogCategoryUsing "Vacuum" vacuumSource] else [])
          else
            ([],
             if negb (String.eqb vacuumSource "vacuum")
             then [LogCategoryUnsupported "Vacuum" vacuumSource] else []) in
        let mopSource := mopSource modeMapping in
        let '(modes2, log2) :=
          if bool_decide (mopSource ∈ operationModes)
          then
            (createMopVariants Tag_Auto Tag_Quick Tag_Quiet Tag_Min Tag_Max
               Tag_Mop fanSpeedPresets waterUsagePresets,
             if negb (String.eqb mopSource "mop")
             then [LogCategoryUsing "Mop" mopSource] else [])
          else
            ([],
             if negb (String.eqb mopSource "mop")
             then [LogCategoryUnsupported "Mop" mopSource] else []) in
        let vacuumMopSource := vacuumMopSource modeMapping in
        let '(modes3, log3) :=
          if bool_decide (vacuumMopSource ∈ operationModes)
          then
            (createIntensityVariants Tag_Auto Tag_Quick Tag_Quiet Tag_Min Tag_Max
               vacuumMopSource RvcCleanModeValue.VacuumMopQuiet
               [Tag_Mop; Tag_Vacuum] fanSpeedPresets,
             if negb (String.eqb vacuumMopSource "vacuum_and_mop")
             then [LogCategoryUsing "Vacuum & Mop" vacuumMopSource] else [])
          else
            ([],
             if negb (String.eqb vacuumMopSource "vacuum_and_mop")
             then [LogCategoryUnsupported "Vacuum & Mop" vacuumMopSource]
             else []) in
        (modes1 ++ modes2 ++ modes3, log1 ++ log2 ++ log3)
    | _ => ([], [])
    end
  else ([], []).
End Catalogue.

(* ===================================================================== *)
(** * Initial state (module.ts, setInitialVacuumState)                    *)
(* ===================================================================== *)

(** The log lines of [setInitialVacuumState]. *)
Inductive InitLog : Type :=
| InitFetchFailed
| InitBattery (level : Q) (batPercentRemaining batChargeState : Z)
| InitState (status : string) (operationalState : jsval) (runMode : Z)
| InitError (e : Exn).

Inductive InitEvent : Type :=
| IWrite (wr : Write)
| ILog (msg : InitLog).

(** "Set initial battery state": both attributes are written, then both
    last values are recorded; a rejected write throws. *)
Definition setInitialBattery (env : Env) (vacuum : VacuumInstance)
    (attributes : list StateAttribute)
  : Result unit * VacuumInstance * list InitEvent :=
  match findBattery attributes with
  | Some (level, flag) =>
      let batPercentRemaining := js_round (level * (2 # 1)) in
      let batChargeState := batChargeStateOf flag in
      let wr1 := {| wr_target := VacuumDevice; wr_cluster := "PowerSource";
                    wr_attribute := "batPercentRemaining";
                    wr_value := VNum batPercentRemaining |} in
      let wr2 := {| wr_target := VacuumDevice; wr_cluster := "PowerSource";
                    wr_attribute := "batChargeState";
                    wr_value := VNum batChargeState |} in
      if setAttribute_throws env wr1
      then (Throw (WriteRejected wr1), vacuum, [IWrite wr1])
      else if setAttribute_throws env wr2
      then (Throw (WriteRejected wr2), vacuum, [IWrite wr1; IWrite wr2])
      else
        (Ok tt,
         set_lastBatteryChargeState (Some batChargeState)
           (set_lastBatteryLevel (Some batPercentRemaining) vacuum),
         [ IWrite wr1; IWrite wr2;
           ILog (InitBattery level batPercentRemaining batChargeState) ])
  | None => (Ok tt, vacuum, [])
  end.

(** "Set initial operational state and run mode": each attribute is
    written and its last value recorded in turn. *)
Definition setInitialStatus (env : Env) (vacuum : VacuumInstance)
    (attributes : list StateAttribute)
  : Result unit * VacuumInstance * list InitEvent :=
  let statusAttr := findStatus attributes in
  let dockStatus := findDockStatus attributes in
  match statusAttr with
  | Some status =>
      let operationalState :=
        mapValetudoStatusToOperationalState status dockStatus in
      let wr1 := {| wr_target := VacuumDevice;
                    wr_cluster := "RvcOperationalState";
                    wr_attribute := "operationalState";
                    wr_value := VJs operationalState |} in
      if setAttribute_throws env wr1
      then (Throw (WriteRejected wr1), vacuum, [IWrite wr1])
      else
        let vacuum1 := set_lastOperationalState (Some operationalState) vacuum in
        let runMode := mapValetudoStatusToRunMode status in
        let wr2 := {| wr_target := VacuumDevice; wr_cluster := "RvcRunMode";
                      wr_attribute := "currentMode";
                      wr_value := VNum runMode |} in
        if setAttribute_throws env wr2
        then (Throw (WriteRejected wr2), vacuum1, [IWrite wr1; IWrite wr2])
        else
          (Ok tt, set_lastRunMode (Some runMode) vacuum1,
           [ IWrite wr1; IWrite wr2;
             ILog (InitState status operationalState runMode) ])
  | None => (Ok tt, vacuum, [])
  end.

(** [setInitialVacuumState]: the record afterwards and the events; the
    [catch] turns every exception into an error line. *)
Definition setInitialVacuumState (env : Env) (vacuum : VacuumInstance)
  : VacuumInstance * list InitEvent :=
  if negb (device vacuum) then (vacuum, [])
  else
    match getStateAttributes env with
    | None => (vacuum, [ILog InitFetchFailed])
    | Some attributes =>
        match setInitialBattery env vacuum attributes with
        | (Throw e, vacuum1, ev1) => (vacuum1, ev1 ++ [ILog (InitError e)])
        | (Ok _, vacuum1, ev1) =>
            match setInitialStatus env vacuum1 attributes with
            | (Throw e, vacuum2, ev2) =>
                (vacuum2, ev1 ++ ev2 ++ [ILog (InitError e)])
            | (Ok _, vacuum2, ev2) => (vacuum2, ev1 ++ ev2)
            end
        end
    end.

(** The publications of tracked attributes among the events of
    [setInitialVacuumState]. *)
Definition initPublications (evs : list InitEvent)
  : list (Tracked * AttrValue) :=
  omap (fun e => match e with
                 | IWrite wr => publicationOf (EvSetAttribute wr)
                 | ILog _ => None
                 end) evs.
(* ===================================================================== *)
(** * Properties of the enumeration mapper                                *)
(* ===================================================================== *)

Example opstate_docked_drying :
  mapValetudoStatusToOperationalState "docked" (Some "drying")
  = JNum OperationalStateValue.Docked.
Proof. vm_compute. reflexivity. Qed.

Example opstate_Cleaning_upper :
  mapValetudoStatusToOperationalState "CLEANING" None
  = JNum OperationalStateValue.Running.
Proof. vm_compute. reflexivity. Qed.

Example opstate_unknown :
  mapValetudoStatusToOperationalState "flying" None
  = JNum OperationalStateValue.Stopped.
Proof. vm_compute. reflexivity. Qed.

Example opstate_constructor :
  mapValetudoStatusToOperationalState "constructor" None
  = JProto "constructor".
Proof. vm_compute. reflexivity. Qed.


Lemma lower_ascii_idem (c : ascii) : lower_ascii (lower_ascii c) = lower_ascii c.
Proof.
  destruct c as [[] [] [] [] [] [] [] []]; vm_compute; reflexivity.
Qed.

Lemma toLowerCase_idem (s : string) : toLowerCase (toLowerCase s) = toLowerCase s.
Proof.
  induction s as [|c s IH]; simpl; [reflexivity|].
  now rewrite lower_ascii_idem, IH.
Qed.

(** Both mappers see the status only through its lower-case form. *)
Lemma operationalState_case_insensitive (status : string) (dock : option string) :
  mapValetudoStatusToOperationalState status dock
  = mapValetudoStatusToOperationalState (toLowerCase status) dock.
Proof.
  unfold mapValetudoStatusToOperationalState.
  now rewrite toLowerCase_idem.
Qed.

Lemma runMode_case_insensitive (status : string) :
  mapValetudoStatusToRunMode status
  = mapValetudoStatusToRunMode (toLowerCase status).
Proof.
  unfold mapValetudoStatusToRunMode. now rewrite toLowerCase_idem.
Qed.

(** Known statuses: the table value, unless the robot is parked and the dock
    is busy, which forces [Docked]. *)
Lemma operationalState_known (status : string) (dock : option string) :
  toLowerCase status ∈ known_statuses ->
  mapValetudoStatusToOperationalState status dock
  = if (parked (toLowerCase status) && dockActivity dock)%bool
    then JNum OperationalStateValue.Docked
    else JNum (tableValue (toLowerCase status)).
Proof.
  intros Hk. unfold mapValetudoStatusToOperationalState, dockActivity, parked.
  set (s := toLowerCase status) in *. clearbody s.
  unfold known_statuses in Hk.
  destruct (truthy_string dock) as [d|];
    [destruct (String.eqb (toLowerCase d) "emptying"),
              (String.eqb (toLowerCase d) "drying"),
              (String.eqb (toLowerCase d) "cleaning")|];
    repeat (apply elem_of_cons in Hk as [-> | Hk];
            [vm_compute; reflexivity|]);
    inversion Hk.
Qed.

(** Statuses outside the table that are not the name of an inherited member
    give the default. *)
Lemma operationalState_unknown (status : string) (dock : option string) :
  toLowerCase status ∉ known_statuses ->
  toLowerCase status ∉ Object_prototype_members ->
  mapValetudoStatusToOperationalState status dock
  = JNum OperationalStateValue.Stopped.
Proof.
  intros Hk Hp. unfold mapValetudoStatusToOperationalState.
  set (s := toLowerCase status) in *.
  assert (Hnone : statusMap !! s = None).
  { apply not_elem_of_list_to_map_1. exact Hk. }
  assert (Hbase : nullish (object_get statusMap s) (JNum OperationalStateValue.Stopped)
                  = JNum OperationalStateValue.Stopped).
  { unfold object_get. rewrite Hnone. now rewrite decide_False. }
  rewrite Hbase.
  destruct (truthy_string dock); [|reflexivity].
  assert (Hpark : (String.eqb s "docked" || String.eqb s "idle"
                  || String.eqb s "charging")%bool = false).
  { apply orb_false_iff; split; [apply orb_false_iff; split|];
      apply String.eqb_neq; intros ->; apply Hk;
      apply (bool_decide_unpack _); vm_compute; exact I. }
  rewrite Hpark. reflexivity.
Qed.

(** The run mode is [Cleaning] exactly for the status "cleaning" (in any
    case), [Idle] otherwise. *)
Lemma runMode_spec (status : string) :
  (mapValetudoStatusToRunMode status = RvcRunModeValue.Cleaning
   <-> toLowerCase status = "cleaning")
  /\ (toLowerCase status <> "cleaning"
      -> mapValetudoStatusToRunMode status = RvcRunModeValue.Idle).
Proof.
  unfold mapValetudoStatusToRunMode.
  destruct (String.eqb_spec (toLowerCase status) "cleaning") as [E|E].
  - split; [tauto | intros H; contradiction].
  - split; [split; [intros H; discriminate H | intros H; contradiction]
           | reflexivity].
Qed.

(** C2 -- the operational-state mapper at a status outside the known set
    that names a member inherited from [Object.prototype]: the lookup
    [statusMap[statusLower]] finds the inherited member, [??] keeps it, and
    the function returns it instead of the default [Stopped].  The status
    "constructor" is not in the known set, needs no dock status, and the
    result is not a number at all. *)
Theorem operationalState_inherited_member_not_default :
  ("constructor" ∉ known_statuses)
  /\ mapValetudoStatusToOperationalState "constructor" None
     = JProto "constructor"
  /\ mapValetudoStatusToOperationalState "constructor" None
     <> JNum OperationalStateValue.Stopped
  /\ mapValetudoStatusToOperationalState "__PROTO__" (Some "drying")
     = JProto "__proto__"
  /\ mapValetudoStatusToRunMode "constructor" = RvcRunModeValue.Idle.
Proof.
  split.
  { intros H. apply (bool_decide_pack _) in H. vm_compute in H. exact H. }
  repeat split; try (vm_compute; reflexivity).
  vm_compute. discriminate.
Qed.

(* ===================================================================== *)
(** * Region lookup                                                       *)
(* ===================================================================== *)

Section StableSortFacts.
Context {A : Type} (compareFn : A -> A -> spec_float).

Lemma sort_insert_elem (a x : A) (l : list A) :
  x ∈ sort_insert compareFn a l <-> x = a \/ x ∈ l.
Proof.
  induction l as [|b l IH]; simpl.
  - rewrite list_elem_of_singleton, elem_of_nil. tauto.
  - destruct (isPositive (compareFn a b)).
    + rewrite !elem_of_cons, IH. tauto.
    + rewrite !elem_of_cons. tauto.
Qed.

(** Sorting neither adds nor drops an element. *)
Lemma js_sort_elem (x : A) (l : list A) :
  x ∈ js_sort compareFn l <-> x ∈ l.
Proof.
  induction l as [|a l IH]; simpl; [tauto|].
  rewrite sort_insert_elem, elem_of_cons, IH. tauto.
Qed.

Lemma js_sort_head_is_Some (a : A) (l : list A) :
  is_Some (head (js_sort compareFn (a :: l))).
Proof.
  simpl. destruct (js_sort compareFn l) as [|b l']; simpl;
    [|destruct (isPositive (compareFn a b))]; eexists; reflexivity.
Qed.

(** Two elements: the second comes first only when the comparator, called
    on the first and the second, returns a positive number. *)
Lemma js_sort_pair (a b : A) :
  head (js_sort compareFn [a; b])
  = Some (if isPositive (compareFn a b) then b else a).
Proof. simpl. destruct (isPositive (compareFn a b)); reflexivity. Qed.
End StableSortFacts.

Lemma matchingSegments_filter (cache : CachedMapLayers) (x y : Z) :
  matchingSegments cache x y = List.filter (isMatch x y) (layers cache).
Proof.
  unfold matchingSegments, isMatch.
  induction (layers cache) as [|a l IH]; simpl; [reflexivity|].
  destruct (String.eqb (ml_type a) "segment"); simpl; [|exact IH].
  destruct (inBounds x y a); simpl; now rewrite IH.
Qed.

Lemma isMatch_spec (x y : Z) (layer : MapLayer) :
  isMatch x y layer = true <-> isSegment layer /\ containsPoint layer x y.
Proof.
  unfold isMatch, inBounds, isSegment, containsPoint.
  rewrite !andb_true_iff, String.eqb_eq, !Z.leb_le. tauto.
Qed.

Lemma findSegment_None (cache : CachedMapLayers) (x y : Z) :
  findSegmentAtPositionCached cache x y = None
  <-> List.filter (isMatch x y) (layers cache) = [].
Proof.
  unfold findSegmentAtPositionCached. rewrite matchingSegments_filter.
  destruct (List.filter (isMatch x y) (layers cache)) as [|a [|b l]].
  - tauto.
  - split; discriminate.
  - destruct (js_sort_head_is_Some (byDistance x y) a (b :: l)) as [r Hr].
    rewrite Hr. split; discriminate.
Qed.

(** What the lookup returns is one of the matching layers. *)
Lemma findSegment_Some (cache : CachedMapLayers) (x y : Z) (r : MapLayer) :
  findSegmentAtPositionCached cache x y = Some r ->
  r ∈ layers cache /\ isMatch x y r = true.
Proof.
  unfold findSegmentAtPositionCached. rewrite matchingSegments_filter.
  intros H.
  assert (Hin : r ∈ List.filter (isMatch x y) (layers cache)).
  { destruct (List.filter (isMatch x y) (layers cache)) as [|a [|b l]].
    - discriminate H.
    - injection H as ->. left.
    - apply (js_sort_elem (byDistance x y)).
      apply head_Some_elem_of. exact H. }
  apply list_elem_of_In, filter_In in Hin as [Hin Hm].
  split; [apply list_elem_of_In, Hin | exact Hm].
Qed.

(** The parts of the region lookup that do not depend on the distances:
    the lookup answers NotFound exactly when no layer of type 'segment' has
    a bounding box containing the point (edges inclusive); when exactly one
    segment layer contains the point, that layer is returned; whatever is
    returned is a segment layer of the cache that contains the point, so a
    layer of another type is never returned. *)
Lemma findSegmentAtPositionCached_matches (cache : CachedMapLayers) (x y : Z) :
  let found := findSegmentAtPositionCached cache x y in
  (found = None
   <-> forall l, l ∈ layers cache -> isSegment l -> ~ containsPoint l x y)
  /\ (forall l1 r l2,
        layers cache = l1 ++ r :: l2 ->
        isSegment r -> containsPoint r x y ->
        (forall m, m ∈ l1 ++ l2 -> isSegment m -> ~ containsPoint m x y) ->
        found = Some r)
  /\ (forall r, found = Some r ->
        r ∈ layers cache /\ isSegment r /\ containsPoint r x y).
Proof.
  intros found. subst found.
  assert (HNone : findSegmentAtPositionCached cache x y = None
     <-> forall l, l ∈ layers cache -> isSegment l -> ~ containsPoint l x y).
  { rewrite findSegment_None. split.
    - intros Hnil l Hl Hs Hc.
      assert (Hin : In l (List.filter (isMatch x y) (layers cache))).
      { apply filter_In. split; [apply list_elem_of_In, Hl|].
        apply isMatch_spec. split; assumption. }
      rewrite Hnil in Hin. exact Hin.
    - intros Hno.
      destruct (List.filter (isMatch x y) (layers cache)) as [|a l] eqn:E;
        [reflexivity|exfalso].
      assert (Hin : In a (List.filter (isMatch x y) (layers cache))).
      { rewrite E. left. reflexivity. }
      apply filter_In in Hin as [Hin Hm]. apply isMatch_spec in Hm as [Hs Hc].
      exact (Hno a (proj2 (list_elem_of_In _ _) Hin) Hs Hc). }
  split; [exact HNone|]. split.
  - intros l1 r l2 HL Hs Hc Hothers.
    destruct (findSegmentAtPositionCached cache x y) as [r'|] eqn:Hfound.
    + destruct (findSegment_Some _ _ _ _ Hfound) as [Hin Hr'].
      apply isMatch_spec in Hr' as [Hs' Hc'].
      rewrite HL in Hin.
      apply elem_of_app in Hin as [Hin|Hin].
      * exfalso. apply (Hothers r'); [apply elem_of_app; left; exact Hin|..];
          assumption.
      * apply elem_of_cons in Hin as [->|Hin]; [reflexivity|].
        exfalso. apply (Hothers r'); [apply elem_of_app; right; exact Hin|..];
          assumption.
    + exfalso. apply (proj1 HNone eq_refl r); [|assumption..].
      rewrite HL. apply elem_of_app. right. left.
  - intros r Hfound.
    destruct (findSegment_Some _ _ _ _ Hfound) as [Hin Hr].
    apply isMatch_spec in Hr as [Hs Hc]. auto.
Qed.


(** At the sizes of a real map the nearest midpoint wins: the overlapping
    rooms of the client's test suite. *)
Example rooms_overlap :
  let room_a := {| ml_type := "segment"; ml_segmentId := "room_a";
                   x_min := 0; x_max := 150; x_mid := 75;
                   y_min := 0; y_max := 100; y_mid := 50 |} in
  let room_b := {| ml_type := "segment"; ml_segmentId := "room_b";
                   x_min := 50; x_max := 200; x_mid := 125;
                   y_min := 0; y_max := 100; y_mid := 50 |} in
  let wall := {| ml_type := "wall"; ml_segmentId := "";
                 x_min := 0; x_max := 1000; x_mid := 500;
                 y_min := 0; y_max := 1000; y_mid := 500 |} in
  let cache := {| layers := [wall; room_a; room_b]; pixelSize := 5;
                  timestamp := 0; version := 1 |} in
  findSegmentAtPositionCached cache 70 50 = Some room_a
  /\ findSegmentAtPositionCached cache 130 50 = Some room_b
  /\ findSegmentAtPositionCached cache 100 50 = Some room_a
  /\ findSegmentAtPositionCached cache 999 999 = None.
Proof. vm_compute. repeat split. Qed.

(* ===================================================================== *)
(** * Clean-mode catalogue                                                *)
(* ===================================================================== *)

Section CleanModeFacts.
Variables (ModeTag_Vacuum ModeTag_Auto : Z).

(** An entry survives exactly when its label has not been seen and no
    earlier entry carries it. *)
Lemma deduplicate_elem (seen : gset string) (modes : list CleanMode)
    (m : CleanMode) :
  m ∈ deduplicate seen modes
  <-> exists l1 l2, modes = l1 ++ m :: l2
        /\ (label m ∉ seen)
        /\ (forall m', m' ∈ l1 -> label m' <> label m).
Proof.
  revert seen. induction modes as [|a modes IH]; intros seen; simpl.
  - split.
    + intros H. inversion H.
    + intros (l1 & l2 & H & _). destruct l1; discriminate H.
  - case_bool_decide as Ha.
    + rewrite IH. split.
      * intros (l1 & l2 & -> & Hs & Hl).
        exists (a :: l1), l2. split; [reflexivity|]. split; [exact Hs|].
        intros m' Hm'. apply elem_of_cons in Hm' as [->|Hm'].
        -- intros E. apply Hs. rewrite <- E. exact Ha.
        -- apply Hl, Hm'.
      * intros (l1 & l2 & H & Hs & Hl).
        destruct l1 as [|b l1]; simpl in H; injection H as -> ->.
        -- contradiction.
        -- exists l1, l2. split; [reflexivity|]. split; [exact Hs|].
           intros m' Hm'. apply Hl. right. exact Hm'.
    + rewrite elem_of_cons, IH. split.
      * intros [-> | (l1 & l2 & -> & Hs & Hl)].
        -- exists [], modes. split; [reflexivity|]. split; [exact Ha|].
           intros m' Hm'. inversion Hm'.
        -- exists (a :: l1), l2. split; [reflexivity|].
           split; [intros Hin; apply Hs, elem_of_union; right; exact Hin|].
           intros m' Hm'. apply elem_of_cons in Hm' as [->|Hm'].
           ++ intros E. apply Hs, elem_of_union. left.
              apply elem_of_singleton. symmetry. exact E.
           ++ apply Hl, Hm'.
      * intros (l1 & l2 & H & Hs & Hl).
        destruct l1 as [|b l1]; simpl in H; injection H as -> ->.
        -- left. reflexivity.
        -- right. exists l1, l2. split; [reflexivity|]. split.
           ++ assert (Hne : label b <> label m) by (apply Hl; left).
              intros Hin. apply elem_of_union in Hin as [Hin|Hin].
              ** apply elem_of_singleton in Hin. congruence.
              ** contradiction.
           ++ intros m' Hm'. apply Hl. right. exact Hm'.
Qed.

Lemma deduplicate_labels_fresh (seen : gset string) (modes : list CleanMode) :
  forall m, m ∈ deduplicate seen modes -> label m ∉ seen.
Proof.
  intros m Hm. apply deduplicate_elem in Hm as (_ & _ & _ & H & _). exact H.
Qed.

Lemma deduplicate_NoDup (seen : gset string) (modes : list CleanMode) :
  NoDup (label <$> deduplicate seen modes).
Proof.
  revert seen. induction modes as [|a modes IH]; intros seen; simpl.
  - constructor.
  - case_bool_decide as Ha; [apply IH|].
    rewrite fmap_cons. constructor; [|apply IH].
    intros Hin. apply list_elem_of_fmap in Hin as (m & E & Hm).
    apply deduplicate_labels_fresh in Hm. apply Hm, elem_of_union. left.
    apply elem_of_singleton. symmetry. exact E.
Qed.

(** Every generated label is still offered. *)
Lemma deduplicate_keeps_labels (seen : gset string) (modes : list CleanMode) :
  forall m, m ∈ modes -> label m ∉ seen ->
    label m ∈ (label <$> deduplicate seen modes).
Proof.
  revert seen. induction modes as [|a modes IH]; intros seen m Hm Hs.
  - inversion Hm.
  - simpl. apply elem_of_cons in Hm as [->|Hm].
    + rewrite bool_decide_eq_false_2 by exact Hs. rewrite fmap_cons. left.
    + case_bool_decide as Ha; [apply IH; assumption|].
      rewrite fmap_cons.
      destruct (decide (label m = label a)) as [E|E].
      * rewrite E. left.
      * right. apply IH; [exact Hm|].
        intros Hin. apply elem_of_union in Hin as [Hin|Hin].
        -- apply elem_of_singleton in Hin. contradiction.
        -- contradiction.
Qed.

Lemma deduplicate_nil_iff (modes : list CleanMode) :
  deduplicate ∅ modes = [] <-> modes = [].
Proof.
  split; [|intros ->; reflexivity].
  destruct modes as [|a modes]; [reflexivity|]. simpl.
  rewrite bool_decide_eq_false_2 by apply not_elem_of_empty. discriminate.
Qed.

(** C8 -- the clean-mode catalogue.  Whatever entries the three
    categories generated: the final catalogue is not empty and its labels
    are pairwise distinct; when no entry was generated it is exactly the
    one fallback entry (label 'Vacuum', code 66), and otherwise no
    fallback is added; an entry is in the catalogue exactly when it is the
    first generated entry with its label (first occurrence wins), so every
    generated label is still present once. *)
Theorem finalCleanModes_unique_labels (supportedCleanModes : list CleanMode) :
  let final := finalCleanModes ModeTag_Vacuum ModeTag_Auto supportedCleanModes in
  final <> []
  /\ NoDup (label <$> final)
  /\ (supportedCleanModes = [] ->
      final = [fallbackCleanMode ModeTag_Vacuum ModeTag_Auto]
      /\ label (fallbackCleanMode ModeTag_Vacuum ModeTag_Auto) = "Vacuum"
      /\ mode (fallbackCleanMode ModeTag_Vacuum ModeTag_Auto) = 66)
  /\ (supportedCleanModes <> [] ->
      (forall m, m ∈ final
         <-> exists l1 l2, supportedCleanModes = l1 ++ m :: l2
               /\ (forall m', m' ∈ l1 -> label m' <> label m))
      /\ (forall m, m ∈ supportedCleanModes -> label m ∈ (label <$> final))).
Proof.
  intros final. subst final. unfold finalCleanModes.
  destruct (deduplicate ∅ supportedCleanModes) as [|d ds] eqn:E.
  - apply (proj1 (deduplicate_nil_iff _)) in E. subst supportedCleanModes.
    split; [discriminate|]. split.
    + apply NoDup_singleton.
    + split; [intros _; repeat split | intros H; contradiction].
  - split; [discriminate|]. split.
    + rewrite <- E. apply deduplicate_NoDup.
    + split.
      * intros ->. discriminate E.
      * intros _. rewrite <- E. split.
        -- intros m. rewrite deduplicate_elem. split.
           ++ intros (l1 & l2 & H & _ & Hl). exists l1, l2. split; assumption.
           ++ intros (l1 & l2 & H & Hl). exists l1, l2.
              split; [exact H|]. split; [apply not_elem_of_empty | exact Hl].
        -- intros m Hm. apply deduplicate_keeps_labels; [exact Hm|].
           apply not_elem_of_empty.
Qed.
End CleanModeFacts.

(** Two categories configured on the same vendor mode generate the label
    twice; the first entry (code 66) is kept. *)
Example duplicate_label_first_wins :
  finalCleanModes 16385 0
    [ {| label := "Mop"; mode := 66; modeTags := [16385; 0] |};
      {| label := "Mop"; mode := 31; modeTags := [16386; 0] |};
      {| label := "Vacuum & Mop"; mode := 5; modeTags := [16386; 16385; 0] |} ]
  = [ {| label := "Mop"; mode := 66; modeTags := [16385; 0] |};
      {| label := "Vacuum & Mop"; mode := 5; modeTags := [16386; 16385; 0] |} ].
Proof. vm_compute. reflexivity. Qed.

(* ===================================================================== *)
(** * Reasoning about computations                                        *)
(* ===================================================================== *)

Lemma bind_run {A B} (m : M A) (k : A -> M B) env w :
  bind m k env w
  = match m env w with
    | (Ok a, w1, ev1) =>
        (result (k a env w1), world (k a env w1), ev1 ++ events (k a env w1))
    | (Throw e, w1, ev1) => (Throw e, w1, ev1)
    end.
Proof.
  unfold bind, result, world, events.
  destruct (m env w) as [[[a|e] w1] ev1]; [|reflexivity].
  destruct (k a env w1) as [[r w2] ev2]. reflexivity.
Qed.

Lemma try_catch_run {A} (body : M A) (handler : Exn -> M A) env w :
  try_catch body handler env w
  = match body env w with
    | (Ok a, w1, ev1) => (Ok a, w1, ev1)
    | (Throw e, w1, ev1) =>
        (result (handler e env w1), world (handler e env w1),
         ev1 ++ events (handler e env w1))
    end.
Proof.
  unfold try_catch, result, world, events.
  destruct (body env w) as [[[a|e] w1] ev1]; [reflexivity|].
  destruct (handler e env w1) as [[r w2] ev2]. reflexivity.
Qed.

Section Respects.
Context (R : VacuumInstance -> VacuumInstance -> Prop) (P : Event -> Prop).
Hypothesis R_refl : forall v, R v v.
Hypothesis R_trans : forall a b c, R a b -> R b c -> R a c.

Lemma respects_ret {A} (a : A) : respects R P (ret a).
Proof. intros env w. split; [apply R_refl | constructor]. Qed.

Lemma respects_throw {A} (e : Exn) : respects R P (@throw A e).
Proof. intros env w. split; [apply R_refl | constructor]. Qed.

Lemma respects_ask : respects R P ask.
Proof. intros env w. split; [apply R_refl | constructor]. Qed.

Lemma respects_get_vac : respects R P get_vac.
Proof. intros env w. split; [apply R_refl | constructor]. Qed.

Lemma respects_dateNow : respects R P dateNow.
Proof. intros env w. split; [apply R_refl | constructor]. Qed.

Lemma respects_log lvl msg : P (EvLog lvl msg) -> respects R P (log lvl msg).
Proof. intros HP env w. split; [apply R_refl | repeat constructor; exact HP]. Qed.

Lemma respects_sleep ms : P (EvDelay ms) -> respects R P (sleep ms).
Proof. intros HP env w. split; [apply R_refl | repeat constructor; exact HP]. Qed.

Lemma respects_setAttribute target cluster attribute value :
  P (EvSetAttribute {| wr_target := target; wr_cluster := cluster;
                       wr_attribute := attribute; wr_value := value |}) ->
  respects R P (setAttribute target cluster attribute value).
Proof. intros HP env w. split; [apply R_refl | repeat constructor; exact HP]. Qed.

Lemma respects_registerDevice sensorId stateValue :
  P (EvRegisterSensor sensorId stateValue) ->
  respects R P (registerDevice sensorId stateValue).
Proof. intros HP env w. split; [apply R_refl | repeat constructor; exact HP]. Qed.

Lemma respects_modify_vac f :
  (forall v, R v (f v)) -> respects R P (modify_vac f).
Proof. intros HR env w. split; [apply HR | constructor]. Qed.

Lemma respects_bind {A B} (m : M A) (k : A -> M B) :
  respects R P m -> (forall a, respects R P (k a)) -> respects R P (bind m k).
Proof.
  intros Hm Hk env w. rewrite bind_run.
  destruct (Hm env w) as [HR HP]. unfold world, events in HR, HP.
  destruct (m env w) as [[[a|e] w1] ev1]; simpl in *; [|split; assumption].
  destruct (Hk a env w1) as [HR' HP'].
  split; [eapply R_trans; eassumption | apply Forall_app; split; assumption].
Qed.

Lemma respects_try_catch {A} (body : M A) (handler : Exn -> M A) :
  respects R P body -> (forall e, respects R P (handler e)) ->
  respects R P (try_catch body handler).
Proof.
  intros Hm Hk env w. rewrite try_catch_run.
  destruct (Hm env w) as [HR HP]. unfold world, events in HR, HP.
  destruct (body env w) as [[[a|e] w1] ev1]; simpl in *; [split; assumption|].
  destruct (Hk e env w1) as [HR' HP'].
  split; [eapply R_trans; eassumption | apply Forall_app; split; assumption].
Qed.

Lemma respects_forEach {A} (l : list A) (body : A -> M unit) :
  (forall a, respects R P (body a)) -> respects R P (forEach l body).
Proof.
  intros Hb. induction l as [|a l IH]; simpl.
  - apply respects_ret.
  - apply respects_bind; [apply Hb | intros _; exact IH].
Qed.
End Respects.

Lemma no_throw_bind {A B} (m : M A) (k : A -> M B) :
  no_throw m -> (forall a, no_throw (k a)) -> no_throw (bind m k).
Proof.
  intros Hm Hk env w. rewrite bind_run.
  destruct (Hm env w) as [a Ha]. unfold result in Ha.
  destruct (m env w) as [[r w1] ev1]; simpl in Ha; subst r.
  destruct (Hk a env w1) as [b Hb]. exists b. exact Hb.
Qed.

Lemma no_throw_try_catch {A} (body : M A) (handler : Exn -> M A) :
  (forall e, no_throw (handler e)) -> no_throw (try_catch body handler).
Proof.
  intros Hh env w. rewrite try_catch_run.
  destruct (body env w) as [[[a|e] w1] ev1].
  - exists a. reflexivity.
  - destruct (Hh e env w1) as [b Hb]. exists b. exact Hb.
Qed.

Lemma no_throw_ret {A} (a : A) : no_throw (ret a).
Proof. intros env w. exists a. reflexivity. Qed.

Lemma no_throw_log lvl msg : no_throw (log lvl msg).
Proof. intros env w. exists tt. reflexivity. Qed.

Lemma no_throw_sleep ms : no_throw (sleep ms).
Proof. intros env w. exists tt. reflexivity. Qed.

Lemma no_throw_modify_vac f : no_throw (modify_vac f).
Proof. intros env w. exists tt. reflexivity. Qed.

Lemma no_throw_get_vac : no_throw get_vac.
Proof. intros env w. eexists. reflexivity. Qed.

Lemma no_throw_ask : no_throw ask.
Proof. intros env w. eexists. reflexivity. Qed.

Lemma no_throw_dateNow : no_throw dateNow.
Proof. intros env w. eexists. reflexivity. Qed.

(** One step of a proof that a computation respects a frame: follow the
    structure of the code. *)
Ltac rel_side :=
  solve [intros; simpl in *; first [reflexivity | congruence | tauto | eauto]].

Ltac respects_step :=
  lazymatch goal with
  | |- respects _ _ (bind _ _) => apply respects_bind; [rel_side| |intros ?]
  | |- respects _ _ (try_catch _ _) =>
      apply respects_try_catch; [rel_side| |intros ?]
  | |- respects _ _ (forEach _ _) =>
      apply respects_forEach; [rel_side|rel_side|intros ?]
  | |- respects _ _ (ret _) => apply respects_ret; rel_side
  | |- respects _ _ (throw _) => apply respects_throw; rel_side
  | |- respects _ _ ask => apply respects_ask; rel_side
  | |- respects _ _ get_vac => apply respects_get_vac; rel_side
  | |- respects _ _ dateNow => apply respects_dateNow; rel_side
  | |- respects _ _ (log _ _) => apply respects_log; [rel_side|]
  | |- respects _ _ (sleep _) => apply respects_sleep; [rel_side|]
  | |- respects _ _ (setAttribute _ _ _ _) =>
      apply respects_setAttribute; [rel_side|]
  | |- respects _ _ (registerDevice _ _) =>
      apply respects_registerDevice; [rel_side|]
  | |- respects _ _ (modify_vac _) => apply respects_modify_vac; intros ?
  | |- respects _ _ (if ?b then _ else _) => destruct b
  | |- respects _ _ (match ?x with _ => _ end) => destruct x
  | |- respects _ _ (let _ := _ in _) => cbv zeta
  end.

Ltac no_throw_step :=
  lazymatch goal with
  | |- no_throw (bind _ _) => apply no_throw_bind; [|intros ?]
  | |- no_throw (try_catch _ _) => apply no_throw_try_catch; intros ?
  | |- no_throw (ret _) => apply no_throw_ret
  | |- no_throw ask => apply no_throw_ask
  | |- no_throw get_vac => apply no_throw_get_vac
  | |- no_throw dateNow => apply no_throw_dateNow
  | |- no_throw (log _ _) => apply no_throw_log
  | |- no_throw (sleep _) => apply no_throw_sleep
  | |- no_throw (modify_vac _) => apply no_throw_modify_vac
  | |- no_throw (if ?b then _ else _) => destruct b
  | |- no_throw (match ?x with _ => _ end) => destruct x
  | |- no_throw (let _ := _ in _) => cbv zeta
  end.

(** The sub-steps after the primary pass leave the tracked fields alone and
    publish none of the tracked attributes. *)
Lemma positionTracking_frame :
  respects (fun v v' => trackedFields v' = trackedFields v) notPublication
           positionTracking.
Proof.
  unfold positionTracking, positionTrackingBody, refreshMapCacheForVacuum,
    client_findSegmentAtPositionCached.
  repeat (respects_step; try reflexivity; try congruence).
Qed.

Lemma updateConsumableStatesForVacuum_frame :
  respects (fun v v' => trackedFields v' = trackedFields v) notPublication
           updateConsumableStatesForVacuum.
Proof.
  unfold updateConsumableStatesForVacuum, checkConsumablesBody, checkConsumable.
  repeat (respects_step; try reflexivity; try congruence).
Qed.

Lemma updateConsumablesIfTracked_frame :
  respects (fun v v' => trackedFields v' = trackedFields v) notPublication
           updateConsumablesIfTracked.
Proof.
  unfold updateConsumablesIfTracked.
  repeat first
    [ apply updateConsumableStatesForVacuum_frame
    | respects_step; try reflexivity; try congruence ].
Qed.

Lemma afterPrimaryPass_frame :
  respects (fun v v' => trackedFields v' = trackedFields v) notPublication
           afterPrimaryPass.
Proof.
  unfold afterPrimaryPass.
  repeat first
    [ apply positionTracking_frame
    | apply updateConsumablesIfTracked_frame
    | respects_step; try reflexivity; try congruence ].
Qed.

Lemma positionTracking_no_throw : no_throw positionTracking.
Proof. unfold positionTracking. repeat no_throw_step. Qed.

Lemma updateConsumableStatesForVacuum_no_throw :
  no_throw updateConsumableStatesForVacuum.
Proof. unfold updateConsumableStatesForVacuum. repeat no_throw_step. Qed.

Lemma updateConsumablesIfTracked_no_throw : no_throw updateConsumablesIfTracked.
Proof.
  unfold updateConsumablesIfTracked.
  repeat first [ apply updateConsumableStatesForVacuum_no_throw | no_throw_step ].
Qed.

Lemma afterPrimaryPass_no_throw : no_throw afterPrimaryPass.
Proof.
  unfold afterPrimaryPass.
  repeat first
    [ apply positionTracking_no_throw
    | apply updateConsumablesIfTracked_no_throw
    | no_throw_step ].
Qed.

Lemma publications_app (e1 e2 : list Event) :
  publications (e1 ++ e2) = publications e1 ++ publications e2.
Proof. unfold publications. apply omap_app. Qed.

Lemma publications_none (evs : list Event) :
  Forall notPublication evs -> publications evs = [].
Proof.
  induction 1 as [|e evs He _ IH]; [reflexivity|].
  unfold publications in *. simpl. unfold notPublication in He.
  rewrite He. exact IH.
Qed.

Lemma changed_false {A} `{EqDecision A} (last : option A) (x : A) :
  changed last x = false <-> last = Some x.
Proof.
  unfold changed. rewrite negb_false_iff. apply bool_decide_eq_true.
Qed.

Lemma changed_fmap {A B} `{EqDecision A} `{EqDecision B} (f : A -> B)
    (last : option A) (x : A) :
  (forall a b, f a = f b -> a = b) ->
  negb (bool_decide (f <$> last = Some (f x))) = changed last x.
Proof.
  intros Hinj. unfold changed. f_equal. apply bool_decide_ext.
  destruct last as [a|]; simpl; split; intros H; try discriminate H.
  - injection H as H. apply Hinj in H. now subst.
  - injection H as ->. reflexivity.
Qed.

Ltac run_block Hsink Hpending E1 E2 :=
  unfold bind, ret, get_vac, modify_vac, log, sleep, setAttribute,
    result, world, events;
  repeat (progress
    (cbn -[js_round changed mapValetudoStatusToOperationalState
           mapValetudoStatusToRunMode batChargeStateOf];
     rewrite ?Hsink, ?Hpending, ?E1, ?E2)).

(** The battery block when the endpoints accept every write. *)
Lemma updateBatteryState_run (env : Env) (w : World)
    (attributes : list StateAttribute) :
  sinkAccepts env ->
  let o := updateBatteryState attributes env w in
  let force := initialStatePending (vac w) in
  result o = Ok tt
  /\ publications (events o)
     = duePublication force (vac w) attributes BatteryLevel
       ++ duePublication force (vac w) attributes BatteryChargeState
  /\ initialStatePending (vac (world o)) = initialStatePending (vac w)
  /\ device (vac (world o)) = device (vac w)
  /\ lastOperationalState (vac (world o)) = lastOperationalState (vac w)
  /\ lastRunMode (vac (world o)) = lastRunMode (vac w)
  /\ (forall t, t = BatteryLevel \/ t = BatteryChargeState ->
        lastPublished t (vac (world o))
        = match computed t attributes with
          | Some x => Some x
          | None => lastPublished t (vac w)
          end).
Proof.
  intros Hsink.
  unfold duePublication, computed, lastPublished, updateBatteryState.
  destruct w as [v c].
  destruct (findBattery attributes) as [[level flag]|];
    destruct (initialStatePending v) eqn:Hpending.
  all: cbn [vac].
  all: rewrite ?(changed_fmap VNum) by (intros ? ? [=]; assumption).
  all: try (destruct (changed (lastBatteryLevel v) _) eqn:E1;
            destruct (changed (lastBatteryChargeState v) _) eqn:E2;
            run_block Hsink Hpending E1 E2).
  all: repeat split; try reflexivity.
  all: try (intros t [-> | ->]; try reflexivity).
  all: try (apply changed_false in E1; rewrite E1; reflexivity).
  all: try (apply changed_false in E2; rewrite E2; reflexivity).
Qed.

(** The status block when the endpoints accept every write. *)
Lemma updateStatusState_run (env : Env) (w : World)
    (attributes : list StateAttribute) :
  sinkAccepts env ->
  let o := updateStatusState attributes env w in
  let force := initialStatePending (vac w) in
  result o = Ok tt
  /\ publications (events o)
     = duePublication force (vac w) attributes OperationalState
       ++ duePublication force (vac w) attributes RunMode
  /\ initialStatePending (vac (world o)) = initialStatePending (vac w)
  /\ device (vac (world o)) = device (vac w)
  /\ lastBatteryLevel (vac (world o)) = lastBatteryLevel (vac w)
  /\ lastBatteryChargeState (vac (world o)) = lastBatteryChargeState (vac w)
  /\ (forall t, t = OperationalState \/ t = RunMode ->
        lastPublished t (vac (world o))
        = match computed t attributes with
          | Some x => Some x
          | None => lastPublished t (vac w)
          end).
Proof.
  intros Hsink.
  unfold duePublication, computed, lastPublished, updateStatusState.
  destruct w as [v c].
  destruct (findStatus attributes) as [status|];
    destruct (initialStatePending v) eqn:Hpending.
  all: cbn [vac].
  all: cbv zeta.
  all: rewrite ?(changed_fmap VNum), ?(changed_fmap VJs)
         by (intros ? ? [=]; assumption).
  all: try (destruct (changed (lastOperationalState v) _) eqn:E1;
            destruct (changed (lastRunMode v) _) eqn:E2;
            run_block Hsink Hpending E1 E2).
  all: repeat split; try reflexivity.
  all: try (intros t [-> | ->]; try reflexivity).
  all: try (apply changed_false in E1; rewrite E1; reflexivity).
  all: try (apply changed_false in E2; rewrite E2; reflexivity).
Qed.

Lemma lastPublished_ext (v v' : VacuumInstance) :
  lastBatteryLevel v' = lastBatteryLevel v ->
  lastBatteryChargeState v' = lastBatteryChargeState v ->
  lastOperationalState v' = lastOperationalState v ->
  lastRunMode v' = lastRunMode v ->
  forall t, lastPublished t v' = lastPublished t v.
Proof. intros H1 H2 H3 H4 []; simpl; congruence. Qed.

Lemma duePublication_ext (force : bool) (v v' : VacuumInstance)
    (attributes : list StateAttribute) (t : Tracked) :
  lastPublished t v' = lastPublished t v ->
  duePublication force v' attributes t = duePublication force v attributes t.
Proof. intros H. unfold duePublication. now rewrite H. Qed.

Lemma bind_sleep {B} (ms : Z) (k : unit -> M B) env w :
  bind (sleep ms) k env w
  = let o := k tt env {| vac := vac w; clock := clock w + ms |} in
    (result o, world o, EvDelay ms :: events o).
Proof. rewrite bind_run. reflexivity. Qed.

(** The primary pass when the endpoints accept every write: it does not
    throw, publishes what is due, leaves the flag cleared and the
    last-published values equal to the computed ones. *)
Lemma primaryPass_run (env : Env) (w : World) (attributes : list StateAttribute) :
  sinkAccepts env ->
  let o := primaryPass attributes env w in
  result o = Ok tt
  /\ publications (events o)
     = duePublications (initialStatePending (vac w)) (vac w) attributes
  /\ initialStatePending (vac (world o)) = false
  /\ device (vac (world o)) = device (vac w)
  /\ (forall t, lastPublished t (vac (world o))
                = match computed t attributes with
                  | Some x => Some x
                  | None => lastPublished t (vac w)
                  end).
Proof.
  intros Hsink. unfold primaryPass.
  pose proof (updateBatteryState_run env w attributes Hsink)
    as (Hr1 & Hp1 & Hf1 & Hd1 & Ho1 & Hm1 & Hl1).
  rewrite bind_run.
  destruct (updateBatteryState attributes env w) as [[r1 w1] ev1].
  unfold result, world, events in Hr1, Hp1, Hf1, Hd1, Ho1, Hm1, Hl1.
  simpl in Hr1, Hp1, Hf1, Hd1, Ho1, Hm1, Hl1. subst r1.
  rewrite bind_sleep.
  set (w2 := {| vac := vac w1; clock := clock w1 + 200 |}). cbv zeta.
  pose proof (updateStatusState_run env w2 attributes Hsink)
    as (Hr2 & Hp2 & Hf2 & Hd2 & Hb2 & Hc2 & Hl2).
  rewrite bind_run.
  destruct (updateStatusState attributes env w2) as [[r2 w3] ev2].
  unfold result, world, events in Hr2, Hp2, Hf2, Hd2, Hb2, Hc2, Hl2.
  simpl in Hr2, Hp2, Hf2, Hd2, Hb2, Hc2, Hl2. subst r2.
  assert (Hclear :
    result (clearInitialStatePending env w3) = Ok tt
    /\ events (clearInitialStatePending env w3)
       = (if initialStatePending (vac w3)
          then [EvLog LDebug MsgInitialStateSet] else [])
    /\ (vac (world (clearInitialStatePending env w3))
        = set_initialStatePending false (vac w3)
        \/ (initialStatePending (vac w3) = false
            /\ vac (world (clearInitialStatePending env w3)) = vac w3))).
  { unfold clearInitialStatePending, bind, get_vac, modify_vac, log, ret,
      result, world, events.
    destruct w3 as [v3 c3]. simpl.
    destruct (initialStatePending v3) eqn:E; simpl; rewrite ?E; simpl; tauto. }
  destruct (clearInitialStatePending env w3) as [[r4 w4] ev4].
  unfold result, world, events in Hclear. simpl in Hclear.
  destruct Hclear as (-> & -> & Hv4).
  unfold result, world, events. cbn [fst snd].
  assert (Hlast4 : forall t, lastPublished t (vac w4) = lastPublished t (vac w3)).
  { destruct Hv4 as [-> | [_ ->]]; intros []; reflexivity. }
  assert (Hdev4 : device (vac w4) = device (vac w3)).
  { destruct Hv4 as [-> | [_ ->]]; reflexivity. }
  assert (Hflag4 : initialStatePending (vac w4) = false).
  { destruct Hv4 as [-> | [E ->]]; [reflexivity | exact E]. }
  split; [reflexivity|]. split.
  - rewrite publications_app. change (EvDelay 200 :: ?l) with ([EvDelay 200] ++ l).
    rewrite !publications_app, Hp1, Hp2. subst w2. cbn [vac] in *.
    change (publications [EvDelay 200]) with (@nil (Tracked * AttrValue)).
    cbn [app].
    rewrite Hf1.
    rewrite (duePublication_ext _ (vac w) (vac w1) _ OperationalState)
      by (simpl; now rewrite Ho1).
    rewrite (duePublication_ext _ (vac w) (vac w1) _ RunMode)
      by (simpl; now rewrite Hm1).
    unfold duePublications, allTracked. simpl flat_map.
    rewrite app_nil_r.
    assert (Hnil : publications
                     (if initialStatePending (vac w3)
                      then [EvLog LDebug MsgInitialStateSet] else []) = []).
    { destruct (initialStatePending (vac w3)); reflexivity. }
    rewrite Hnil. rewrite app_nil_r, <- !app_assoc. reflexivity.
  - split; [exact Hflag4|]. split.
    + rewrite Hdev4, Hd2. subst w2. simpl. exact Hd1.
    + intros t. rewrite Hlast4. subst w2. cbn [vac] in *.
      destruct t.
      * transitivity (lastPublished BatteryLevel (vac w1));
          [simpl; now rewrite Hb2 | apply Hl1; now left].
      * transitivity (lastPublished BatteryChargeState (vac w1));
          [simpl; now rewrite Hc2 | apply Hl1; now right].
      * rewrite Hl2 by now left.
        destruct (computed OperationalState attributes); [reflexivity|].
        simpl. now rewrite Ho1.
      * rewrite Hl2 by now right.
        destruct (computed RunMode attributes); [reflexivity|].
        simpl. now rewrite Hm1.
Qed.

Lemma bind_ask {B} (k : Env -> M B) env w : bind ask k env w = k env env w.
Proof.
  rewrite bind_run. unfold ask, result, world, events.
  destruct (k env env w) as [[r w1] ev]. reflexivity.
Qed.

Lemma bind_get_vac {B} (k : VacuumInstance -> M B) env w :
  bind get_vac k env w = k (vac w) env w.
Proof.
  rewrite bind_run. unfold get_vac, result, world, events.
  destruct (k (vac w) env w) as [[r w1] ev]. reflexivity.
Qed.

Lemma bind_dateNow {B} (k : Z -> M B) env w :
  bind dateNow k env w = k (clock w) env w.
Proof.
  rewrite bind_run. unfold dateNow, result, world, events.
  destruct (k (clock w) env w) as [[r w1] ev]. reflexivity.
Qed.

(** What follows the primary pass always runs to its end: the position and
    consumable sub-steps return normally and the record is then stamped
    [lastSeen] and [online]. *)
Lemma afterPrimaryPass_run (env : Env) (w : World) :
  let o1 := positionTracking env {| vac := vac w; clock := clock w + 500 |} in
  let o2 := updateConsumablesIfTracked env (world o1) in
  afterPrimaryPass env w
  = (Ok tt,
     {| vac := set_online true
                 (set_lastSeen (clock (world o2)) (vac (world o2)));
        clock := clock (world o2) |},
     EvDelay 500 :: events o1 ++ events o2).
Proof.
  cbv zeta. unfold afterPrimaryPass.
  rewrite bind_sleep. cbv zeta.
  set (w0 := {| vac := vac w; clock := clock w + 500 |}).
  rewrite bind_run.
  destruct (positionTracking_no_throw env w0) as [[] H1].
  destruct (positionTracking env w0) as [[r1 w1] ev1].
  change (r1 = Ok tt) in H1. subst r1.
  change (world (Ok tt, w1, ev1)) with w1.
  change (events (Ok tt, w1, ev1)) with ev1.
  rewrite bind_run.
  destruct (updateConsumablesIfTracked_no_throw env w1) as [[] H2].
  destruct (updateConsumablesIfTracked env w1) as [[r2 w2] ev2].
  change (r2 = Ok tt) in H2. subst r2.
  change (world (Ok tt, w2, ev2)) with w2.
  change (events (Ok tt, w2, ev2)) with ev2.
  rewrite bind_dateNow.
  unfold bind, modify_vac, result, world, events. cbn.
  rewrite !app_nil_r. reflexivity.
Qed.

(** A cycle whose fetch succeeds and whose writes are accepted. *)
Lemma updateVacuumState_run (env : Env) (w : World)
    (attributes : list StateAttribute) :
  device (vac w) = true ->
  getStateAttributes env = Some attributes ->
  sinkAccepts env ->
  let o := updateVacuumState env w in
  result o = Ok tt
  /\ publications (events o)
     = duePublications (initialStatePending (vac w)) (vac w) attributes
  /\ initialStatePending (vac (world o)) = false
  /\ device (vac (world o)) = true
  /\ online (vac (world o)) = true
  /\ (forall t, lastPublished t (vac (world o))
                = match computed t attributes with
                  | Some x => Some x
                  | None => lastPublished t (vac w)
                  end).
Proof.
  intros Hdev Hattrs Hsink. cbv zeta.
  unfold updateVacuumState. rewrite bind_ask, bind_get_vac, Hdev. cbn [negb].
  rewrite try_catch_run, Hattrs, bind_run.
  pose proof (primaryPass_run env w attributes Hsink) as (Hr & Hp & Hf & Hd & Hl).
  destruct (primaryPass attributes env w) as [[r1 w1] ev1].
  unfold result, world, events in Hr, Hp, Hf, Hd, Hl. simpl in Hr, Hp, Hf, Hd, Hl.
  subst r1.
  pose proof (afterPrimaryPass_frame env w1) as [Hframe Hev].
  rewrite afterPrimaryPass_run in *. 
  unfold result, world, events in *. cbn [fst snd] in *.
  unfold trackedFields in Hframe. cbn in Hframe.
  injection Hframe as Hd' Hf' Hb' Hc' Ho' Hm'.
  split; [reflexivity|]. split.
  - rewrite publications_app, Hp, (publications_none _ Hev). apply app_nil_r.
  - split; [cbn; congruence|]. split; [cbn; congruence|].
    split; [reflexivity|].
    intros t. rewrite <- Hl.
    apply lastPublished_ext; cbn; assumption.
Qed.

(* ===================================================================== *)
(** * The poll cycle: change gating and the initial state                 *)
(* ===================================================================== *)




Lemma duePublications_forced (v : VacuumInstance)
    (attributes : list StateAttribute) :
  duePublications true v attributes = allComputed attributes.
Proof.
  unfold duePublications, allComputed, duePublication.
  apply flat_map_ext. intros t.
  destruct (computed t attributes); reflexivity.
Qed.






Lemma respects_weaken (R R' : VacuumInstance -> VacuumInstance -> Prop)
    (P P' : Event -> Prop) {A} (m : M A) :
  (forall v v', R v v' -> R' v v') -> (forall e, P e -> P' e) ->
  respects R P m -> respects R' P' m.
Proof.
  intros HR HP Hm env w. destruct (Hm env w) as [H1 H2]. split.
  - apply HR, H1.
  - eapply Forall_impl; [exact H2 | exact HP].
Qed.

Lemma afterPrimaryPass_flag :
  respects (fun v v' => initialStatePending v = false
                        -> initialStatePending v' = false)
           (fun _ => True) afterPrimaryPass.
Proof.
  eapply respects_weaken; [| |apply afterPrimaryPass_frame].
  - unfold trackedFields. intros v v' [=]. congruence.
  - intros; exact I.
Qed.

(** The cycle only ever clears the flag. *)
Lemma updateVacuumState_flag (env : Env) (w : World) :
  initialStatePending (vac w) = false ->
  initialStatePending (vac (world (updateVacuumState env w))) = false.
Proof.
  revert env w.
  cut (respects (fun v v' => initialStatePending v = false
                             -> initialStatePending v' = false)
                (fun _ => True) updateVacuumState).
  { intros H env w. apply H. }
  unfold updateVacuumState, primaryPass, updateBatteryState,
    updateStatusState, clearInitialStatePending.
  repeat first
    [ apply afterPrimaryPass_flag
    | respects_step; try exact I;
      try (intros; simpl; first [reflexivity | assumption]) ].
Qed.

Lemma pollTick_flag (env : Env) (w : World) :
  initialStatePending (vac w) = false ->
  initialStatePending (vac (world (pollTick env w))) = false.
Proof.
  intros H. unfold pollTick. rewrite try_catch_run.
  pose proof (updateVacuumState_flag env w H) as H'.
  destruct (updateVacuumState env w) as [[[a|e] w1] ev1]; [exact H'|].
  exact H'.
Qed.

Lemma pollTicks_flag (ticks : list (Env * Z)) (v : VacuumInstance) :
  initialStatePending v = false ->
  initialStatePending (pollTicks ticks v).1 = false.
Proof.
  revert v. induction ticks as [|[env now] ticks IH]; intros v H; [exact H|].
  simpl.
  pose proof (pollTick_flag env {| vac := v; clock := now |} H) as H1.
  specialize (IH _ H1).
  destruct (pollTicks ticks _) as [v' evs]. exact IH.
Qed.

Lemma allComputed_fst (attributes : list StateAttribute) :
  is_Some (findBattery attributes) -> is_Some (findStatus attributes) ->
  (allComputed attributes).*1 = allTracked.
Proof.
  intros [[level flag] Hb] [status Hs].
  unfold allComputed, allTracked, computed. cbn [flat_map].
  rewrite Hb, Hs. reflexivity.
Qed.

(** C4, as amended -- the initial state.  In a cycle that starts with the
    pending-initial-state flag set, fetches a snapshot and whose writes the
    endpoints accept, every tracked attribute for which the snapshot holds a
    record (the battery record for level and charge state, the status record
    for operational state and run mode) is published once, whatever the
    stored last-published values are; with both records present these are
    all four, in order.  The cycle ends with the flag cleared, and no later
    tick of the poll timer sets it again. *)
Theorem initial_state_forced (env : Env) (w : World)
    (attributes : list StateAttribute) :
  device (vac w) = true ->
  initialStatePending (vac w) = true ->
  getStateAttributes env = Some attributes ->
  sinkAccepts env ->
  let o := updateVacuumState env w in
  result o = Ok tt
  /\ publications (events o) = allComputed attributes
  /\ (is_Some (findBattery attributes) -> is_Some (findStatus attributes) ->
      (publications (events o)).*1 = allTracked
      /\ allFourPublished (events o))
  /\ initialStatePending (vac (world o)) = false
  /\ (forall ticks,
        initialStatePending (pollTicks ticks (vac (world o))).1 = false).
Proof.
  intros Hdev Hflag Hattrs Hsink. cbv zeta.
  pose proof (updateVacuumState_run env w attributes Hdev Hattrs Hsink)
    as (Hr & Hp & Hf & _).
  rewrite Hflag, duePublications_forced in Hp.
  split; [exact Hr|]. split; [exact Hp|]. split.
  - intros Hb Hs. unfold allFourPublished. rewrite Hp.
    split; [apply allComputed_fst; assumption|].
    intros t. destruct Hb as [[level flag] Hb], Hs as [status Hs].
    unfold allComputed, allTracked, computed. cbn [flat_map].
    rewrite Hb, Hs. cbn [app].
    destruct t; eexists; [left | right; left | do 2 right; left
                          | do 3 right; left].
  - split; [exact Hf|]. intros ticks. apply pollTicks_flag, Hf.
Qed.

(** The theorem at a robot whose first snapshot repeats the values the
    record was initialised with: all four are published nevertheless. *)
Lemma initial_state_forced_witness :
  let env := sampleEnv (Some (dockedAt (80 # 1))) in
  let w := {| vac := sampleVacuum true (Some 160) (Some 1)
                       (Some (JNum 66)) (Some 1);
              clock := 10000 |} in
  device (vac w) = true
  /\ initialStatePending (vac w) = true
  /\ getStateAttributes env = Some (dockedAt (80 # 1))
  /\ sinkAccepts env
  /\ publications (events (updateVacuumState env w))
     = [(BatteryLevel, VNum 160); (BatteryChargeState, VNum 1);
        (OperationalState, VJs (JNum 66)); (RunMode, VNum 1)].
Proof.
  intros env w.
  split; [reflexivity|]. split; [reflexivity|]. split; [reflexivity|].
  split; [intros wr; reflexivity|].
  destruct (initial_state_forced env w (dockedAt (80 # 1)) eq_refl eq_refl
              eq_refl (fun wr => eq_refl)) as (_ & H & _).
  rewrite H. vm_compute. reflexivity.
Defined.

(** C4, as stated, fails -- a first successful cycle on a snapshot without
    a battery record: the cycle completes, the flag is cleared, the device
    is online, and neither the battery level nor the charge state has been
    published. *)
Lemma first_cycle_without_battery_record :
  let env := sampleEnv (Some [StatusStateAttribute "docked"]) in
  let w := {| vac := sampleVacuum true None None None None;
              clock := 10000 |} in
  let o := updateVacuumState env w in
  initialStatePending (vac w) = true
  /\ result o = Ok tt
  /\ initialStatePending (vac (world o)) = false
  /\ online (vac (world o)) = true
  /\ publications (events o)
     = [(OperationalState, VJs (JNum 66)); (RunMode, VNum 1)]
  /\ ~ allFourPublished (events o).
Proof.
  cbv zeta.
  assert (Hp : publications
                 (events (updateVacuumState
                            (sampleEnv (Some [StatusStateAttribute "docked"]))
                            {| vac := sampleVacuum true None None None None;
                               clock := 10000 |}))
               = [(OperationalState, VJs (JNum 66)); (RunMode, VNum 1)]).
  { vm_compute. reflexivity. }
  repeat split; try (vm_compute; reflexivity).
  intros H. destruct (H BatteryLevel) as [x Hx]. rewrite Hp in Hx.
  apply list_elem_of_In in Hx. simpl in Hx.
  destruct Hx as [[=]|[[=]|[]]].
Qed.

(* ===================================================================== *)
(** * The poll cycle: a failed fetch                                      *)
(* ===================================================================== *)

Lemma updateVacuumState_fetch_failed (env : Env) (w : World) :
  getStateAttributes env = None ->
  updateVacuumState env w
  = (Ok tt, w, if device (vac w) then [EvLog LWarn MsgFetchFailed] else []).
Proof.
  intros Hnone. unfold updateVacuumState.
  rewrite bind_ask, bind_get_vac.
  destruct (device (vac w)); cbn [negb]; [|reflexivity].
  rewrite try_catch_run, Hnone. reflexivity.
Qed.

(** C10 -- a failed fetch leaves the record alone.  When the attribute
    fetch yields nothing the cycle returns normally, the whole world (every
    field of the device record: the last-published values, the current
    region, the flag, the map cache, the consumable entries) is exactly as
    before, and the only event is the warning: nothing is published.  So a
    pending initial state is still pending, and the next cycle that fetches
    a snapshot publishes everything the snapshot lets it compute. *)
Theorem fetch_failure_changes_nothing (env : Env) (w : World) :
  getStateAttributes env = None ->
  let o := updateVacuumState env w in
  result o = Ok tt
  /\ world o = w
  /\ events o = (if device (vac w) then [EvLog LWarn MsgFetchFailed] else [])
  /\ (forall wr, EvSetAttribute wr ∉ events o)
  /\ (forall env2 attributes2,
        device (vac w) = true ->
        initialStatePending (vac w) = true ->
        getStateAttributes env2 = Some attributes2 ->
        sinkAccepts env2 ->
        publications (events (updateVacuumState env2 (world o)))
        = allComputed attributes2).
Proof.
  intros Hnone. cbv zeta.
  pose proof (updateVacuumState_fetch_failed env w Hnone) as E.
  assert (Hw : world (updateVacuumState env w) = w) by (now rewrite E).
  split; [now rewrite E|]. split; [exact Hw|]. split; [now rewrite E|]. split.
  - intros wr Hin. rewrite E in Hin. unfold events in Hin. cbn [snd] in Hin.
    destruct (device (vac w)).
    + apply list_elem_of_singleton in Hin. discriminate Hin.
    + inversion Hin.
  - intros env2 attributes2 Hdev Hflag Hattrs2 Hsink2. rewrite Hw.
    pose proof (updateVacuumState_run env2 w attributes2 Hdev Hattrs2 Hsink2)
      as (_ & Hp & _).
    rewrite Hp, Hflag. apply duePublications_forced.
Qed.

Lemma fetch_failure_changes_nothing_witness :
  let env := sampleEnv None in
  let w := {| vac := sampleVacuum true (Some 160) (Some 1)
                       (Some (JNum 66)) (Some 1);
              clock := 10000 |} in
  getStateAttributes env = None
  /\ world (updateVacuumState env w) = w.
Proof.
  intros env w. split; [reflexivity|].
  exact (proj1 (proj2 (fetch_failure_changes_nothing env w eq_refl))).
Defined.

(** C5 -- a failed fetch on an online device: the cycle logs the warning
    and returns; [online] is still [true].  The device is not marked
    offline: only the [catch] of the cycle does that, and the client turns
    a failed fetch into [null], not into an exception. *)
Theorem failed_fetch_not_marked_offline :
  let env := sampleEnv None in
  let w := {| vac := sampleVacuum false (Some 160) (Some 1)
                       (Some (JNum 66)) (Some 1);
              clock := 60000 |} in
  let o := updateVacuumState env w in
  online (vac w) = true
  /\ getStateAttributes env = None
  /\ result o = Ok tt
  /\ events o = [EvLog LWarn MsgFetchFailed]
  /\ online (vac (world o)) = true.
Proof. vm_compute. repeat split. Qed.

(** The sibling path: an exception in the cycle reaches its [catch], which
    logs at error level and marks the device offline. *)
Example rejected_write_marks_offline :
  let w := {| vac := sampleVacuum true None None None None; clock := 10000 |} in
  let o := updateVacuumState (rejectingEnv (Some (dockedAt (80 # 1)))) w in
  result o = Ok tt
  /\ online (vac (world o)) = false
  /\ initialStatePending (vac (world o)) = true
  /\ last (events o)
     = Some (EvLog LError
               (MsgUpdateError
                  (WriteRejected
                     {| wr_target := VacuumDevice; wr_cluster := "PowerSource";
                        wr_attribute := "batPercentRemaining";
                        wr_value := VNum 160 |}))).
Proof. vm_compute. repeat split. Qed.

(** The timer does not look at the outcome of a tick: after a failed fetch
    the next tick fetches again, and publishes. *)
Example next_tick_retries :
  let v := sampleVacuum true None None None None in
  let ticks := [ (sampleEnv None, 30000);
                 (sampleEnv (Some (dockedAt (80 # 1))), 60000) ] in
  publications (pollTicks ticks v).2
  = [ (BatteryLevel, VNum 160); (BatteryChargeState, VNum 1);
      (OperationalState, VJs (JNum 66)); (RunMode, VNum 1) ]
  /\ head (pollTicks ticks v).2 = Some (EvLog LWarn MsgFetchFailed).
Proof. vm_compute. split; reflexivity. Qed.

(* ===================================================================== *)
(** * The poll cycle: fail-soft sub-steps                                 *)
(* ===================================================================== *)

Lemma positionTracking_online :
  respects (fun v v' => online v' = online v) (fun _ => True) positionTracking.
Proof.
  unfold positionTracking, positionTrackingBody, refreshMapCacheForVacuum,
    client_findSegmentAtPositionCached.
  repeat (respects_step; try exact I; try reflexivity).
Qed.

Lemma updateConsumableStatesForVacuum_online :
  respects (fun v v' => online v' = online v) (fun _ => True)
           updateConsumableStatesForVacuum.
Proof.
  unfold updateConsumableStatesForVacuum, checkConsumablesBody, checkConsumable.
  repeat (respects_step; try exact I; try reflexivity).
Qed.

Lemma positionTracking_caught (env : Env) (w : World) (e : Exn) :
  positionTrackingEnabled env (vac w) = true ->
  result (positionTrackingBody env w) = Throw e ->
  positionTracking env w
  = (Ok tt, world (positionTrackingBody env w),
     events (positionTrackingBody env w)
     ++ [EvLog LDebug (MsgPositionTrackingError e)]).
Proof.
  intros Hen Hthrow. unfold positionTracking.
  rewrite bind_ask, bind_get_vac, Hen, try_catch_run.
  destruct (positionTrackingBody env w) as [[r w1] ev1].
  change (r = Throw e) in Hthrow. subst r. reflexivity.
Qed.

Lemma bind_modify_vac {B} (f : VacuumInstance -> VacuumInstance)
    (k : unit -> M B) env w :
  bind (modify_vac f) k env w
  = k tt env {| vac := f (vac w); clock := clock w |}.
Proof.
  rewrite bind_run. unfold modify_vac, result, world, events.
  destruct (k tt env _) as [[r w1] ev]. reflexivity.
Qed.

Lemma updateConsumableStatesForVacuum_caught (env : Env) (w : World) (e : Exn) :
  let w' := {| vac := set_lastConsumablesCheck (clock w) (vac w);
               clock := clock w |} in
  let body :=
    checkConsumablesBody
      (nullish (consumables_maxLifetimes (config env)) defaultMaxLifetimes)
      (or_default (consumables_warningThreshold (config env)) (10 # 1)) in
  CONSUMABLES_CHECK_INTERVAL <= clock w - lastConsumablesCheck (vac w) ->
  result (body env w') = Throw e ->
  updateConsumableStatesForVacuum env w
  = (Ok tt, world (body env w'),
     events (body env w') ++ [EvLog LDebug (MsgConsumablesError e)]).
Proof.
  intros w' body Hdue Hthrow. unfold updateConsumableStatesForVacuum.
  rewrite bind_ask, bind_dateNow, bind_get_vac.
  destruct (Z.ltb_spec (clock w - lastConsumablesCheck (vac w))
                       CONSUMABLES_CHECK_INTERVAL) as [Hlt|_]; [lia|].
  rewrite bind_modify_vac. fold w'. cbv zeta.
  rewrite try_catch_run. fold body.
  destruct (body env w') as [[r w1] ev1].
  change (r = Throw e) in Hthrow. subst r.
  reflexivity.
Qed.

(** C9 -- the position-tracking and consumable sub-steps are fail-soft.
    Whatever the robot and the endpoints answer: each sub-step returns
    normally and leaves [online] as it was; when the body of its [try]
    throws, the sub-step's events are those of the body followed by one
    debug-level log line carrying the exception; and a cycle whose primary
    pass returned normally runs both sub-steps, returns normally and ends
    with the device marked online, whatever happened inside them. *)
Theorem substeps_fail_soft (env : Env) :
  (forall w,
     result (positionTracking env w) = Ok tt
     /\ online (vac (world (positionTracking env w))) = online (vac w)
     /\ (forall e,
           positionTrackingEnabled env (vac w) = true ->
           result (positionTrackingBody env w) = Throw e ->
           events (positionTracking env w)
           = events (positionTrackingBody env w)
             ++ [EvLog LDebug (MsgPositionTrackingError e)]))
  /\ (forall w,
        let w' := {| vac := set_lastConsumablesCheck (clock w) (vac w);
                     clock := clock w |} in
        let body :=
          checkConsumablesBody
            (nullish (consumables_maxLifetimes (config env)) defaultMaxLifetimes)
            (or_default (consumables_warningThreshold (config env)) (10 # 1)) in
        result (updateConsumableStatesForVacuum env w) = Ok tt
        /\ online (vac (world (updateConsumableStatesForVacuum env w)))
           = online (vac w)
        /\ (forall e,
              CONSUMABLES_CHECK_INTERVAL
                <= clock w - lastConsumablesCheck (vac w) ->
              result (body env w') = Throw e ->
              events (updateConsumableStatesForVacuum env w)
              = events (body env w')
                ++ [EvLog LDebug (MsgConsumablesError e)]))
  /\ (forall w attributes,
        device (vac w) = true ->
        getStateAttributes env = Some attributes ->
        result (primaryPass attributes env w) = Ok tt ->
        let w1 := world (primaryPass attributes env w) in
        let o1 := positionTracking env
                    {| vac := vac w1; clock := clock w1 + 500 |} in
        let o2 := updateConsumablesIfTracked env (world o1) in
        let o := updateVacuumState env w in
        result o = Ok tt
        /\ online (vac (world o)) = true
        /\ events o
           = events (primaryPass attributes env w)
             ++ EvDelay 500 :: events o1 ++ events o2).
Proof.
  split; [|split].
  - intros w. split; [|split].
    + destruct (positionTracking_no_throw env w) as [[] H]. exact H.
    + apply positionTracking_online.
    + intros e Hen Hthrow.
      now rewrite (positionTracking_caught env w e Hen Hthrow).
  - intros w w' body. split; [|split].
    + destruct (updateConsumableStatesForVacuum_no_throw env w) as [[] H].
      exact H.
    + apply updateConsumableStatesForVacuum_online.
    + intros e Hdue Hthrow.
      now rewrite (updateConsumableStatesForVacuum_caught env w e Hdue Hthrow).
  - intros w attributes Hdev Hattrs Hprimary. cbv zeta.
    unfold updateVacuumState.
    rewrite bind_ask, bind_get_vac, Hdev. cbn [negb].
    rewrite try_catch_run, Hattrs, bind_run.
    destruct (primaryPass attributes env w) as [[r1 w1] ev1].
    change (r1 = Ok tt) in Hprimary. subst r1.
    rewrite afterPrimaryPass_run.
    change (world (Ok tt, w1, ev1)) with w1.
    change (events (Ok tt, w1, ev1)) with ev1.
    repeat split.
Qed.

(** The theorem at a robot whose map payload and consumable payload are
    both malformed: the two exceptions are logged at debug level and the
    cycle ends online. *)
Lemma substeps_fail_soft_witness :
  let w := {| vac := trackedVacuum; clock := 600000 |} in
  let o := updateVacuumState faultyEnv w in
  device (vac w) = true
  /\ getStateAttributes faultyEnv = Some (dockedAt (80 # 1))
  /\ result (primaryPass (dockedAt (80 # 1)) faultyEnv w) = Ok tt
  /\ result o = Ok tt
  /\ online (vac (world o)) = true
  /\ events o
     = [ EvDelay 200; EvDelay 500;
         EvLog LDebug
           (MsgPositionTrackingError (TypeError "mapData.metaData is undefined"));
         EvLog LDebug
           (MsgConsumablesError (TypeError "consumable.remaining is undefined")) ].
Proof.
  intros w o.
  assert (Hp : result (primaryPass (dockedAt (80 # 1)) faultyEnv w) = Ok tt)
    by (vm_compute; reflexivity).
  split; [reflexivity|]. split; [reflexivity|]. split; [exact Hp|].
  destruct (substeps_fail_soft faultyEnv) as (_ & _ & H).
  destruct (H w (dockedAt (80 # 1)) eq_refl eq_refl Hp) as (Hr & Hon & Hev).
  split; [exact Hr|]. split; [exact Hon|].
  subst o. rewrite Hev. vm_compute. reflexivity.
Defined.

(* ===================================================================== *)
(** * Consumable tracker                                                  *)
(* ===================================================================== *)

Example lifePercent_200_of_18000 :
  lifePercentOf (200 # 1) (18000 # 1) = 1 /\ atMost 1 (10 # 1) = true.
Proof. vm_compute. split; reflexivity. Qed.

Example maxLifetime_mainBrush :
  getMaxLifetime (mainBrush (200 # 1)) defaultMaxLifetimes = Some (18000 # 1)%Q
  /\ getConsumableName (mainBrush (200 # 1)) = "Main Brush".
Proof. vm_compute. split; reflexivity. Qed.

(** The events of one check of a tracked consumable: the log line when the
    stored state is undefined or differs, then the sensor write when the
    entry has a sensor. *)
Lemma checkConsumable_events (env : Env) (w : World)
    (maxLifetimes : gmap string Q) (warningThreshold : Q)
    (c : ValetudoConsumable) (entry : ConsumableEntry) (maxLifetime : Q) :
  consumableMap (vac w) !! getConsumableName c = Some entry ->
  getMaxLifetime c maxLifetimes = Some maxLifetime ->
  let lifePercent := lifePercentOf (remainingValue c) maxLifetime in
  let needsReplacement := atMost lifePercent warningThreshold in
  let o := checkConsumable maxLifetimes warningThreshold c env w in
  events o
  = (if changed (lastState entry) needsReplacement
     then [EvLog LInfo (MsgConsumable (getConsumableName c) (remainingValue c)
                                      lifePercent needsReplacement)]
     else [])
    ++ match endpoint entry with
       | Some sensorId => [sensorWrite sensorId needsReplacement]
       | None => []
       end
  /\ lastState <$> (consumableMap (vac (world o)) !! getConsumableName c)
     = Some (Some needsReplacement).
Proof.
  intros Hentry Hmax. cbv zeta. unfold checkConsumable.
  rewrite bind_get_vac, Hentry, Hmax.
  unfold bind, ret, modify_vac, log, setAttribute, result, world, events.
  cbn -[lifePercentOf atMost changed getConsumableName].
  destruct (changed (lastState entry) _) eqn:Hch;
    destruct (endpoint entry) as [sensorId|];
    cbn -[lifePercentOf atMost changed getConsumableName];
    try destruct (setAttribute_throws env _);
    cbn -[lifePercentOf atMost changed getConsumableName];
    rewrite ?lookup_insert_eq; cbn;
    (split; [reflexivity|]);
    try reflexivity;
    apply changed_false in Hch; rewrite Hch; reflexivity.
Qed.

(** [Math.round]: the integer within a half of the argument, halves up. *)
Lemma js_round_spec (q : Q) :
  (inject_Z (js_round q) - (1 # 2) <= q)%Q
  /\ (q < inject_Z (js_round q) + (1 # 2))%Q.
Proof.
  unfold js_round.
  pose proof (Qfloor_le (q + (1 # 2))) as Hle.
  pose proof (Qlt_floor (q + (1 # 2))) as Hlt.
  rewrite inject_Z_plus in Hlt.
  change (inject_Z 1) with 1%Q in Hlt.
  generalize dependent (inject_Z (Qfloor (q + (1 # 2)))). intros n Hle Hlt.
  split; lra.
Qed.

Lemma atMost_spec (lifePercent : Z) (warningThreshold : Q) :
  atMost lifePercent warningThreshold = true
  <-> (inject_Z lifePercent <= warningThreshold)%Q.
Proof. unfold atMost. apply Qle_bool_iff. Qed.

(** The threshold of the two paths: [??] keeps a configured zero, [||]
    replaces it by the default. *)
Lemma threshold_defaults (t : Q) :
  nullish (@None Q) (10 # 1)%Q = (10 # 1)%Q
  /\ nullish (Some t) (10 # 1)%Q = t
  /\ or_default None (10 # 1) = (10 # 1)%Q
  /\ (~ (t == 0)%Q -> or_default (Some t) (10 # 1) = t)
  /\ ((t == 0)%Q -> or_default (Some t) (10 # 1) = (10 # 1)%Q).
Proof.
  repeat split.
  - intros Hne. unfold or_default.
    destruct (Qeq_bool t 0) eqn:E; [|reflexivity].
    apply Qeq_bool_eq in E. contradiction.
  - intros He. unfold or_default. now rewrite (Qeq_eq_bool _ _ He).
Qed.

(** C6, as amended -- the consumable signal.  In a check of a tracked
    consumable, the needs-replacement log line is emitted if and only if
    the stored last state is undefined or differs from the computed value;
    when they are equal the check logs nothing.  The contact sensor is a
    different matter: when the entry has one, its state attribute is written
    on every check, transition or not; when it has none, nothing is written.
    After the check the stored state is the computed value.  With 200 of
    18000 minutes left and the 10 percent threshold, three checks on
    unchanged input log on the first check only for an entry without sensor;
    an entry with a sensor, whose state was stored at setup, logs on none of
    them and writes the attribute on all three. *)
Theorem consumable_log_edge_triggered (env : Env) (w : World)
    (maxLifetimes : gmap string Q) (warningThreshold : Q)
    (c : ValetudoConsumable) (entry : ConsumableEntry) (maxLifetime : Q) :
  consumableMap (vac w) !! getConsumableName c = Some entry ->
  getMaxLifetime c maxLifetimes = Some maxLifetime ->
  let needsReplacement :=
    atMost (lifePercentOf (remainingValue c) maxLifetime) warningThreshold in
  let o := checkConsumable maxLifetimes warningThreshold c env w in
  ((exists msg, EvLog LInfo msg ∈ events o)
   <-> lastState entry <> Some needsReplacement)
  /\ (lastState entry = Some needsReplacement ->
      forall lvl msg, EvLog lvl msg ∉ events o)
  /\ (forall sensorId, endpoint entry = Some sensorId ->
        sensorWrite sensorId needsReplacement ∈ events o)
  /\ (endpoint entry = None -> forall wr, EvSetAttribute wr ∉ events o)
  /\ lastState <$> (consumableMap (vac (world o)) !! getConsumableName c)
     = Some (Some needsReplacement)
  /\ threeChecks (consumableEnv false None [mainBrush (200 # 1)])
     = ([EvLog LInfo (MsgConsumable "Main Brush" (200 # 1) 1 true)], [], [])
  /\ threeChecks (consumableEnv true None [mainBrush (200 # 1)])
     = ([sensorWrite "robot-consumable-brush-main" true],
        [sensorWrite "robot-consumable-brush-main" true],
        [sensorWrite "robot-consumable-brush-main" true]).
Proof.
  intros Hentry Hmax. cbv zeta.
  destruct (checkConsumable_events env w maxLifetimes warningThreshold c entry
              maxLifetime Hentry Hmax) as [Hev Hst].
  cbv zeta in Hev, Hst. rewrite Hev.
  set (needs := atMost _ warningThreshold) in *.
  split; [|split; [|split; [|split; [|split; [exact Hst|]]]]].
  - destruct (changed (lastState entry) needs) eqn:Hch.
    + split.
      * intros _ Heq. apply changed_false in Heq. congruence.
      * intros _. eexists. apply elem_of_app. left. left.
    + apply changed_false in Hch. split; [|congruence].
      intros [msg Hin]. exfalso. cbn [app] in Hin.
      destruct (endpoint entry); [|inversion Hin].
      apply list_elem_of_singleton in Hin. discriminate Hin.
  - intros Heq lvl msg Hin. apply changed_false in Heq. rewrite Heq in Hin.
    cbn [app] in Hin. destruct (endpoint entry); [|inversion Hin].
    apply list_elem_of_singleton in Hin. discriminate Hin.
  - intros sensorId ->. apply elem_of_app. right. left.
  - intros -> wr Hin. rewrite app_nil_r in Hin.
    destruct (changed (lastState entry) needs); [|inversion Hin].
    apply list_elem_of_singleton in Hin. discriminate Hin.
  - split; vm_compute; reflexivity.
Qed.

(** The theorem at the tracked main brush, whose state is still undefined:
    the first check logs. *)
Lemma consumable_log_edge_triggered_witness :
  let w := {| vac := trackedVacuum; clock := 300000 |} in
  let c := mainBrush (200 # 1) in
  let env := consumableEnv false None [c] in
  (exists entry,
     consumableMap (vac w) !! getConsumableName c = Some entry
     /\ lastState entry = None)
  /\ getMaxLifetime c defaultMaxLifetimes = Some (18000 # 1)%Q
  /\ exists msg,
       EvLog LInfo msg
       ∈ events (checkConsumable defaultMaxLifetimes (10 # 1) c env w).
Proof.
  intros w c env.
  assert (Hentry : consumableMap (vac w) !! getConsumableName c
                   = Some {| endpoint := None; consumable := c;
                             lastState := None |})
    by (vm_compute; reflexivity).
  assert (Hmax : getMaxLifetime c defaultMaxLifetimes = Some (18000 # 1)%Q)
    by (vm_compute; reflexivity).
  split; [eexists; split; [exact Hentry | reflexivity]|].
  split; [exact Hmax|].
  destruct (consumable_log_edge_triggered env w defaultMaxLifetimes (10 # 1)
              c _ _ Hentry Hmax) as [H _].
  apply H. discriminate.
Defined.

(** C6, as stated, fails -- a consumable exposed as a contact sensor, 200
    of 18000 minutes left, threshold 10: setup stores needs-replacement =
    true, every later check computes the same value, and every one of three
    checks writes the sensor attribute all the same. *)
Lemma sensor_written_without_transition :
  let env := consumableEnv true None [mainBrush (200 # 1)] in
  let s := setupConsumablesForVacuum
             env {| vac := sampleVacuum false None None None None;
                    clock := 0 |} in
  lastState <$> (consumableMap (vac (world s)) !! "Main Brush")
  = Some (Some true)
  /\ atMost (lifePercentOf (200 # 1) (18000 # 1)) (10 # 1) = true
  /\ threeChecks env
     = ([sensorWrite "robot-consumable-brush-main" true],
        [sensorWrite "robot-consumable-brush-main" true],
        [sensorWrite "robot-consumable-brush-main" true]).
Proof. vm_compute. repeat split. Qed.

(** C7 -- a warning threshold configured as 0, main brush at 900 of 18000
    minutes: the life percentage is 5, which is above the threshold.  Setup
    reads the threshold with [??] and registers the sensor as closed (fine);
    the periodic check reads it with [||], takes 10 instead of the
    configured 0, and reports needs-replacement. *)
Theorem zero_threshold_replaced_in_periodic_check :
  let env := consumableEnv true (Some 0%Q) [mainBrush (900 # 1)] in
  let s := setupConsumablesForVacuum
             env {| vac := sampleVacuum false None None None None;
                    clock := 0 |} in
  lifePercentOf (900 # 1) (18000 # 1) = 5
  /\ atMost 5 0 = false
  /\ events s
     = [ EvLog LInfo (MsgFoundConsumables 1);
         EvLog LInfo (MsgConsumableSetup "Main Brush" (900 # 1) 5);
         EvRegisterSensor "robot-consumable-brush-main" true;
         EvLog LInfo (MsgContactSensor "robot-consumable-brush-main" false) ]
  /\ (threeChecks env).1.1
     = [ EvLog LInfo (MsgConsumable "Main Brush" (900 # 1) 5 true);
         sensorWrite "robot-consumable-brush-main" true ].
Proof. vm_compute. repeat split. Qed.

(* ===================================================================== *)
(** * Poll timer set-up                                                   *)
(* ===================================================================== *)

(** X1 -- the poll period.  Whatever is configured, the period lies between
    5000 and 60000 ms; a missing or zero setting gives 30000; a setting
    inside the range is taken as it is, one below is raised to 5000 and one
    above is lowered to 60000. *)
Theorem baseInterval_clamped (pollingInterval : option Z) :
  5000 <= baseInterval pollingInterval <= 60000
  /\ baseInterval None = 30000
  /\ baseInterval (Some 0) = 30000
  /\ (forall n, 5000 <= n <= 60000 -> baseInterval (Some n) = n)
  /\ (forall n, n < 5000 -> n <> 0 -> baseInterval (Some n) = 5000)
  /\ (forall n, 60000 < n -> baseInterval (Some n) = 60000).
Proof.
  unfold baseInterval, or_defaultZ.
  split; [lia|]. split; [reflexivity|]. split; [reflexivity|].
  split; [|split]; intros n; intros;
    destruct (Z.eqb_spec n 0); lia.
Qed.






(* ===================================================================== *)
(** * Numeric ranges                                                      *)
(* ===================================================================== *)

Lemma inject_Z_le_half (n k : Z) :
  (inject_Z n - (1 # 2) <= inject_Z k)%Q -> n <= k.
Proof.
  unfold Qle, Qminus, Qplus, Qopp, inject_Z. simpl. lia.
Qed.

Lemma inject_Z_lt_half (n k : Z) :
  (inject_Z k < inject_Z n + (1 # 2))%Q -> k <= n.
Proof.
  unfold Qlt, Qplus, inject_Z. simpl. lia.
Qed.

(** [Math.round] of a value between two integers lies between them. *)
Lemma js_round_between (q : Q) (lo hi : Z) :
  (inject_Z lo <= q)%Q -> (q <= inject_Z hi)%Q -> lo <= js_round q <= hi.
Proof.
  intros Hlo Hhi. destruct (js_round_spec q) as [H1 H2]. split.
  - apply inject_Z_lt_half. eapply Qle_lt_trans; eassumption.
  - apply inject_Z_le_half. eapply Qle_trans; eassumption.
Qed.

Lemma js_round_mono (p q : Q) : (p <= q)%Q -> js_round p <= js_round q.
Proof.
  intros H. unfold js_round. apply Qfloor_resp_le.
  apply Qplus_le_l. exact H.
Qed.

(** X3 -- the battery values.  For a battery record whose level is between
    0 and 100 percent the published level is between 0 and 200 (half
    percents), and the published charge state is one of 0, 1, 2, 3
    whatever the flag is. *)
Theorem battery_values_in_range (attributes : list StateAttribute)
    (level : Q) (flag : string) :
  findBattery attributes = Some (level, flag) ->
  (0 <= level)%Q -> (level <= 100)%Q ->
  exists n c,
    computed BatteryLevel attributes = Some (VNum n) /\ 0 <= n <= 200
    /\ computed BatteryChargeState attributes = Some (VNum c) /\ 0 <= c <= 3.
Proof.
  intros Hb Hlo Hhi. unfold computed. rewrite Hb.
  exists (js_round (level * (2 # 1))), (batChargeStateOf flag).
  split; [reflexivity|]. split.
  - apply js_round_between.
    + change (inject_Z 0) with 0%Q. lra.
    + change (inject_Z 200) with 200%Q. lra.
  - split; [reflexivity|]. unfold batChargeStateOf.
    destruct (String.eqb flag "charging"); [lia|].
    destruct (String.eqb flag "charged"); [lia|].
    destruct (String.eqb flag "discharging" || String.eqb flag "none")%bool; lia.
Qed.

Lemma battery_values_in_range_witness :
  findBattery (dockedAt (995 # 10)) = Some ((995 # 10)%Q, "charging")
  /\ (0 <= 995 # 10)%Q /\ (995 # 10 <= 100)%Q
  /\ exists n c,
       computed BatteryLevel (dockedAt (995 # 10)) = Some (VNum n)
       /\ 0 <= n <= 200
       /\ computed BatteryChargeState (dockedAt (995 # 10)) = Some (VNum c)
       /\ 0 <= c <= 3.
Proof.
  split; [reflexivity|]. split; [discriminate|]. split; [discriminate|].
  apply (battery_values_in_range (dockedAt (995 # 10)) (995 # 10) "charging");
    [reflexivity | discriminate | discriminate].
Defined.

(** X4 -- the robot position in map pixels.  With a positive pixel size
    the index computed from a raw coordinate is the nearest pixel, halves
    rounded up: the coordinate lies within half a pixel of the index.  A
    zero pixel size gives no position at all. *)
Theorem js_round_quot_nearest (p s x : Z) :
  0 < s ->
  js_round_quot p s = Some x ->
  (2 * x - 1) * s <= 2 * p < (2 * x + 1) * s.
Proof.
  intros Hs. unfold js_round_quot.
  destruct (Z.eqb_spec s 0) as [->|_]; [lia|]. intros [= <-].
  set (q := (inject_Z p / inject_Z s)%Q).
  destruct (js_round_spec q) as [Hlo Hhi].
  assert (Hs0 : (0 < inject_Z s)%Q).
  { change 0%Q with (inject_Z 0). rewrite <- Zlt_Qlt. exact Hs. }
  assert (Hq : (q * inject_Z s == inject_Z p)%Q).
  { unfold q. rewrite Qmult_comm. apply Qmult_div_r.
    intros E. rewrite E in Hs0. discriminate Hs0. }
  generalize dependent (js_round q). intros x Hlo Hhi.
  apply (Qmult_le_compat_r _ _ (inject_Z s)) in Hlo; [|apply Qlt_le_weak, Hs0].
  apply (Qmult_lt_compat_r _ _ (inject_Z s) Hs0) in Hhi.
  rewrite Hq in Hlo, Hhi. clear Hq q Hs0.
  unfold Qle, Qlt, Qminus, Qplus, Qopp, Qmult, inject_Z in Hlo, Hhi.
  simpl in Hlo, Hhi. lia.
Qed.

Lemma js_round_quot_nearest_witness :
  0 < 5 /\ js_round_quot 352 5 = Some 70
  /\ (2 * 70 - 1) * 5 <= 2 * 352 < (2 * 70 + 1) * 5.
Proof.
  split; [lia|]. split; [reflexivity|].
  apply (js_round_quot_nearest 352 5 70); [lia | reflexivity].
Defined.

(* ===================================================================== *)
(** * Consumable arithmetic                                               *)
(* ===================================================================== *)

Lemma or_default_nonzero (n : option Q) (d : Q) :
  ~ (d == 0)%Q -> ~ (or_default n d == 0)%Q.
Proof.
  intros Hd. unfold or_default. destruct n as [q|]; [|exact Hd].
  destruct (Qeq_bool q 0) eqn:E; [exact Hd|].
  intros H. apply Qeq_eq_bool in H. congruence.
Qed.

(** X5 -- the maximum lifetime.  [getMaxLifetime] fails exactly when the
    payload has no [remaining]; otherwise its result is never zero, whatever
    lifetimes are configured (a configured zero is replaced by 10000), so
    the life percentage never divides by zero; and a remaining value between
    0 and 100 of a percentage-style consumable is taken on the scale 100. *)
Theorem getMaxLifetime_nonzero (c : ValetudoConsumable)
    (maxLifetimes : gmap string Q) :
  (getMaxLifetime c maxLifetimes = None <-> c_remaining c = None)
  /\ (forall m, getMaxLifetime c maxLifetimes = Some m -> ~ (m == 0)%Q)
  /\ (forall r,
        c_remaining c = Some r ->
        (0 <= rem_value r)%Q -> (rem_value r <= 100)%Q ->
        c_type c = "consumable" \/ includes "detergent" (c_subType c) = true
          \/ includes "dock" (c_subType c) = true ->
        getMaxLifetime c maxLifetimes = Some (100 # 1)%Q).
Proof.
  unfold getMaxLifetime. split; [|split].
  - destruct (c_remaining c) as [r|]; [|tauto].
    split; [|discriminate].
    repeat match goal with
           | |- context [if ?b then _ else _] => destruct b
           end; discriminate.
  - intros m. destruct (c_remaining c) as [r|]; [|discriminate].
    repeat match goal with
           | |- context [if ?b then _ else _] => destruct b
           end; intros [= <-]; try discriminate;
      apply or_default_nonzero; discriminate.
  - intros r -> Hlo Hhi Hpct.
    apply Qle_bool_iff in Hlo, Hhi. rewrite Hlo, Hhi. simpl.
    destruct Hpct as [-> | [-> | ->]]; simpl;
      rewrite ?orb_true_r; reflexivity.
Qed.

(** X6 -- the life percentage.  For a positive maximum lifetime the
    percentage grows with the remaining value, is between 0 and 100 when
    the remaining value is between 0 and the maximum, and on the scale 100
    it is the remaining value itself when that is a whole number. *)
Theorem lifePercentOf_range (maxLifetime : Q) :
  (0 < maxLifetime)%Q ->
  (forall r1 r2, (r1 <= r2)%Q ->
     lifePercentOf r1 maxLifetime <= lifePercentOf r2 maxLifetime)
  /\ (forall r, (0 <= r)%Q -> (r <= maxLifetime)%Q ->
        0 <= lifePercentOf r maxLifetime <= 100)
  /\ (forall r warningThreshold,
        (0 <= r)%Q -> (r <= maxLifetime)%Q -> (100 <= warningThreshold)%Q ->
        atMost (lifePercentOf r maxLifetime) warningThreshold = true)
  /\ (forall n : Z, lifePercentOf (inject_Z n) (100 # 1) = n).
Proof.
  intros Hm.
  assert (Hinv : (0 < / maxLifetime)%Q) by (apply Qinv_lt_0_compat, Hm).
  assert (Hmono : forall r1 r2, (r1 <= r2)%Q ->
            (r1 / maxLifetime * (100 # 1) <= r2 / maxLifetime * (100 # 1))%Q).
  { intros r1 r2 H. apply Qmult_le_compat_r; [|discriminate].
    unfold Qdiv. apply Qmult_le_compat_r; [exact H | apply Qlt_le_weak, Hinv]. }
  assert (Hrange : forall r, (0 <= r)%Q -> (r <= maxLifetime)%Q ->
            0 <= lifePercentOf r maxLifetime <= 100).
  { intros r Hlo Hhi. unfold lifePercentOf. apply js_round_between.
    - change (inject_Z 0) with 0%Q.
      apply Qle_trans with (y := (0 / maxLifetime * (100 # 1))%Q);
        [|apply Hmono, Hlo].
      unfold Qdiv. rewrite !Qmult_0_l. apply Qle_refl.
    - change (inject_Z 100) with (100 # 1)%Q.
      apply Qle_trans with (y := (maxLifetime / maxLifetime * (100 # 1))%Q);
        [apply Hmono, Hhi|].
      unfold Qdiv. rewrite Qmult_inv_r, Qmult_1_l; [apply Qle_refl|].
      intros E. rewrite E in Hm. discriminate Hm. }
  split; [|split; [exact Hrange|split]].
  - intros r1 r2 H. unfold lifePercentOf. apply js_round_mono, Hmono, H.
  - intros r t Hlo Hhi Ht. apply atMost_spec.
    destruct (Hrange r Hlo Hhi) as [_ H100].
    apply Qle_trans with (y := 100%Q); [|exact Ht].
    change 100%Q with (inject_Z 100). rewrite <- Zle_Qle. exact H100.
  - intros n. unfold lifePercentOf, js_round.
    assert (E : (inject_Z n / (100 # 1) * (100 # 1) + (1 # 2)
                 == inject_Z n + (1 # 2))%Q) by (field).
    rewrite E.
    unfold Qfloor, Qplus, inject_Z. simpl.
    symmetry. apply Z.div_unique with (r := 1); lia.
Qed.

Lemma lifePercentOf_range_witness :
  (0 < 18000 # 1)%Q
  /\ 0 <= lifePercentOf (200 # 1) (18000 # 1) <= 100.
Proof.
  split; [reflexivity|].
  destruct (lifePercentOf_range (18000 # 1) eq_refl) as (_ & H & _).
  apply H; discriminate.
Defined.

(* ===================================================================== *)
(** * Clean-mode generation                                               *)
(* ===================================================================== *)

Section GeneratorFacts.
Variables (Tag_Auto Tag_Quick Tag_Quiet Tag_Min Tag_Max
           Tag_Vacuum Tag_Mop : Z).

Local Abbreviation intensity_get' :=
  (intensity_get Tag_Auto Tag_Quick Tag_Quiet Tag_Min Tag_Max).
Local Abbreviation intensityLoop' :=
  (intensityLoop Tag_Auto Tag_Quick Tag_Quiet Tag_Min Tag_Max).
Local Abbreviation createIntensityVariants' :=
  (createIntensityVariants Tag_Auto Tag_Quick Tag_Quiet Tag_Min Tag_Max).
Local Abbreviation mopConfigs' := (mopConfigs Tag_Auto Tag_Quick Tag_Quiet Tag_Max).
Local Abbreviation mopLoop' := (mopLoop Tag_Mop).
Local Abbreviation createMopVariants' :=
  (createMopVariants Tag_Auto Tag_Quick Tag_Quiet Tag_Min Tag_Max Tag_Mop).

(** The offsets of the intensity table are 0 to 4; only an inherited member
    has none. *)
Lemma intensity_get_offset (p : string) (i : Intensity) :
  intensity_get' p = Some i ->
  match i_offset i with
  | Some o => 0 <= o <= 4
  | None => p ∈ Object_prototype_members
  end.
Proof.
  unfold intensity_get.
  destruct (intensityMap _ _ _ _ _ !! p) as [i'|] eqn:E.
  - intros [= <-]. apply elem_of_list_to_map_2 in E.
    repeat (apply elem_of_cons in E as [[= _ ->]|E]; [simpl; lia|]).
    inversion E.
  - case_decide as Hp; [|discriminate]. intros [= <-]. exact Hp.
Qed.

Lemma intensityLoop_inv (lbl : string) (base : Z) (tags : list Z)
    (presets : list string) (used : list (option Z))
    (modes : list GeneratedMode) :
  loopInv base used modes ->
  exists used', loopInv base used' (intensityLoop' lbl base tags presets used modes).
Proof.
  revert used modes. induction presets as [|p presets IH]; intros used modes Hinv.
  - exists used. exact Hinv.
  - simpl. destruct (intensity_get' (toLowerCase p)) as [i|] eqn:Hi;
      [|apply IH, Hinv].
    case_bool_decide as Hused; [apply IH, Hinv|].
    apply IH. destruct Hinv as [Hnd Hall]. split.
    + rewrite fmap_app. apply NoDup_app. split; [exact Hnd|]. split.
      * intros c Hc Hc'. simpl in Hc'. apply list_elem_of_singleton in Hc'.
        apply list_elem_of_fmap in Hc as (m & -> & Hm).
        destruct (Hall m Hm) as (o & Ho & Hmo & _).
        rewrite Hmo in Hc'. apply Hused.
        destruct o as [z|], (i_offset i) as [z'|]; simpl in Hc';
          try discriminate Hc'; [|exact Ho].
        injection Hc' as Hc'. replace z' with z by lia. exact Ho.
      * simpl. apply NoDup_singleton.
    + intros m Hm. apply elem_of_app in Hm as [Hm|Hm].
      * destruct (Hall m Hm) as (o & Ho & H). exists o.
        split; [right; exact Ho | exact H].
      * apply list_elem_of_singleton in Hm. subst m. exists (i_offset i).
        split; [left|]. split; [reflexivity|].
        pose proof (intensity_get_offset _ _ Hi) as Ho.
        destruct (i_offset i); [exact Ho | exact I].
Qed.

Lemma intensityLoop_numeric (lbl : string) (base : Z) (tags : list Z)
    (presets : list string) (used : list (option Z))
    (modes : list GeneratedMode) :
  (forall p, p ∈ presets -> toLowerCase p ∉ Object_prototype_members) ->
  (forall m, m ∈ modes -> is_Some (g_mode m)) ->
  forall m, m ∈ intensityLoop' lbl base tags presets used modes ->
            is_Some (g_mode m).
Proof.
  revert used modes. induction presets as [|p presets IH];
    intros used modes Hp Hmodes; [exact Hmodes|].
  simpl.
  assert (Hrest : forall q, q ∈ presets -> toLowerCase q ∉ Object_prototype_members)
    by (intros q Hq; apply Hp; right; exact Hq).
  destruct (intensity_get' (toLowerCase p)) as [i|] eqn:Hi;
    [|apply IH; assumption].
  case_bool_decide; [apply IH; assumption|].
  apply IH; [exact Hrest|].
  intros m Hm. apply elem_of_app in Hm as [Hm|Hm]; [apply Hmodes, Hm|].
  apply list_elem_of_singleton in Hm. subst m. simpl.
  pose proof (intensity_get_offset _ _ Hi) as Ho.
  destruct (i_offset i); [eexists; reflexivity|].
  exfalso. apply (Hp p); [left | exact Ho].
Qed.

Lemma createIntensityVariants_band (baseMode : string) (base : Z)
    (tags : list Z) (fanSpeedPresets : option (list string)) :
  let modes := createIntensityVariants' baseMode base tags fanSpeedPresets in
  modes <> []
  /\ NoDup (g_mode <$> modes)
  /\ (forall m c, m ∈ modes -> g_mode m = Some c -> base <= c <= base + 4).
Proof.
  cbv zeta. unfold createIntensityVariants.
  set (auto := autoMode Tag_Auto (modeLabelOf baseMode) base tags).
  assert (Hauto : [auto] <> [] /\ NoDup (g_mode <$> [auto])
                  /\ (forall m c, m ∈ [auto] -> g_mode m = Some c ->
                                  base <= c <= base + 4)).
  { split; [discriminate|]. split; [apply NoDup_singleton|].
    intros m c Hm. apply list_elem_of_singleton in Hm. subst m.
    intros [= <-]. lia. }
  destruct fanSpeedPresets as [[|p ps]|]; try exact Hauto.
  destruct (intensityLoop_inv (modeLabelOf baseMode) base tags (p :: ps) [] [])
    as (used & Hnd & Hall).
  { split; [constructor|]. intros m Hm. inversion Hm. }
  destruct (intensityLoop' _ base tags (p :: ps) [] []) as [|m0 ms] eqn:E;
    [exact Hauto|].
  split; [discriminate|]. split; [exact Hnd|].
  intros m c Hm Hc. destruct (Hall m Hm) as (o & _ & Hmo & Ho).
  rewrite Hmo in Hc. destruct o as [z|]; [|discriminate Hc].
  injection Hc as <-. lia.
Qed.

(** X7 -- the variants of one category.  [createIntensityVariants] never
    returns an empty list; without presets (none fetched, or an empty list)
    it returns the single entry at the base code tagged Auto; the codes of
    its entries are pairwise distinct, and every numeric code lies in the
    five-code band that starts at the base code.  A code is numeric unless
    the lower-cased preset names a member inherited from [Object.prototype]
    (then the sum is NaN). *)
Theorem createIntensityVariants_codes (baseMode : string) (base : Z)
    (tags : list Z) (fanSpeedPresets : option (list string)) :
  let modes := createIntensityVariants' baseMode base tags fanSpeedPresets in
  modes <> []
  /\ NoDup (g_mode <$> modes)
  /\ (forall m c, m ∈ modes -> g_mode m = Some c -> base <= c <= base + 4)
  /\ (fanSpeedPresets = None \/ fanSpeedPresets = Some [] ->
      modes = [autoMode Tag_Auto (modeLabelOf baseMode) base tags])
  /\ ((forall ps p, fanSpeedPresets = Some ps -> p ∈ ps ->
                    toLowerCase p ∉ Object_prototype_members) ->
      forall m, m ∈ modes -> is_Some (g_mode m)).
Proof.
  cbv zeta.
  destruct (createIntensityVariants_band baseMode base tags fanSpeedPresets)
    as (B1 & B2 & B3).
  split; [exact B1|]. split; [exact B2|]. split; [exact B3|].
  clear B1 B2 B3. unfold createIntensityVariants.
  set (auto := autoMode Tag_Auto (modeLabelOf baseMode) base tags).
  assert (A4 : forall m, m ∈ [auto] -> is_Some (g_mode m)).
  { intros m Hm. apply list_elem_of_singleton in Hm. subst m.
    eexists; reflexivity. }
  destruct fanSpeedPresets as [[|p ps]|];
    try (split; [intros _; reflexivity | intros _; exact A4]).
  destruct (intensityLoop' _ base tags (p :: ps) [] []) as [|m0 ms] eqn:E.
  - split; [intros [H|H]; discriminate H | intros _; exact A4].
  - split; [intros [H|H]; discriminate H|].
    intros Hp m Hm. rewrite <- E in Hm.
    eapply intensityLoop_numeric;
      [|intros m' Hm'; destruct (not_elem_of_nil _ Hm')|exact Hm].
    intros q Hq. apply (Hp (p :: ps)); [reflexivity | exact Hq].
Qed.

Lemma mopLoop_elem (fan water : list string) (configs : list MopConfig)
    (usedLabels : list string) (modes : list GeneratedMode) (m : GeneratedMode) :
  m ∈ mopLoop' fan water configs usedLabels modes ->
  m ∈ modes
  \/ exists config, config ∈ configs
       /\ mc_fanPreset config ∈ fan /\ mc_waterPreset config ∈ water
       /\ g_mode m = Some (mc_mode config) /\ g_label m = mc_label config.
Proof.
  revert usedLabels modes.
  induction configs as [|config configs IH]; intros usedLabels modes Hm;
    [left; exact Hm|].
  simpl in Hm.
  destruct (bool_decide (mc_fanPreset config ∈ fan)) eqn:Hf;
    destruct (bool_decide (mc_waterPreset config ∈ water)) eqn:Hw;
    destruct (bool_decide (mc_label config ∈ usedLabels)) eqn:Hl;
    simpl in Hm;
    try (destruct (IH _ _ Hm) as [H|(c & Hc & H)];
         [left; exact H | right; exists c; split; [right; exact Hc | exact H]]).
  destruct (IH _ _ Hm) as [H|(c & Hc & H)].
  - apply elem_of_app in H as [H|H]; [left; exact H|].
    apply list_elem_of_singleton in H. subst m.
    right. exists config. split; [left|].
    apply bool_decide_eq_true in Hf, Hw. repeat split; assumption.
  - right. exists c. split; [right; exact Hc | exact H].
Qed.

Lemma mopLoop_nonempty (fan water : list string) (configs : list MopConfig)
    (usedLabels : list string) (modes : list GeneratedMode) :
  modes <> [] -> mopLoop' fan water configs usedLabels modes <> [].
Proof.
  revert usedLabels modes. induction configs as [|c configs IH];
    intros usedLabels modes Hne; [exact Hne|].
  simpl. destruct (_ && _ && _)%bool; [|apply IH, Hne].
  apply IH. destruct modes; discriminate.
Qed.

Lemma mopLoop_some (fan water : list string) (configs : list MopConfig)
    (usedLabels : list string) (modes : list GeneratedMode) :
  (usedLabels <> [] -> modes <> []) ->
  (exists config, config ∈ configs
     /\ mc_fanPreset config ∈ fan /\ mc_waterPreset config ∈ water) ->
  mopLoop' fan water configs usedLabels modes <> [].
Proof.
  revert usedLabels modes. induction configs as [|c configs IH];
    intros usedLabels modes Hused (config & Hc & Hf & Hw);
    [destruct (not_elem_of_nil _ Hc)|].
  cbn [mopLoop].
  destruct (bool_decide (mc_fanPreset c ∈ fan)
            && bool_decide (mc_waterPreset c ∈ water)
            && negb (bool_decide (mc_label c ∈ usedLabels)))%bool eqn:Hcond.
  - apply mopLoop_nonempty. destruct modes; discriminate.
  - apply elem_of_cons in Hc as [->|Hc].
    + apply mopLoop_nonempty, Hused.
      rewrite (bool_decide_eq_true_2 _ Hf), (bool_decide_eq_true_2 _ Hw) in Hcond.
      cbn in Hcond. apply negb_false_iff, bool_decide_eq_true_1 in Hcond.
      intros ->. destruct (not_elem_of_nil _ Hcond).
    + apply IH; [exact Hused|]. exists config. auto.
Qed.

(** X8 -- the mop variants.  [createMopVariants] never returns an empty
    list, whichever of the two preset lists the robot offers.  When one of
    the lists is missing the result is that of [createIntensityVariants]
    for the category mop (base code 31).  When the robot offers both lists
    and at least one of the four fixed combinations is available in them,
    every entry has a code between 31 and 34, and decoding that code with
    [getIntensitySettings] (no configured overrides) gives a fan preset and
    a water preset that are both in the lists the robot offered. *)
Theorem createMopVariants_round_trip
    (fanSpeedPresets waterUsagePresets : option (list string)) :
  let modes := createMopVariants' fanSpeedPresets waterUsagePresets in
  modes <> []
  /\ (fanSpeedPresets = None \/ waterUsagePresets = None ->
      modes = createIntensityVariants' "mop" RvcCleanModeValue.MopMin
                [Tag_Mop] fanSpeedPresets)
  /\ (forall fanPresets waterPresets,
        fanSpeedPresets = Some fanPresets ->
        waterUsagePresets = Some waterPresets ->
        (exists config, config ∈ mopConfigs'
           /\ mc_fanPreset config ∈ fanPresets
           /\ mc_waterPreset config ∈ waterPresets) ->
        forall m, m ∈ modes ->
          exists code, g_mode m = Some code
            /\ 31 <= code <= 34
            /\ fan (getIntensitySettings None code) ∈ fanPresets
            /\ water (getIntensitySettings None code) ∈ waterPresets).
Proof.
  cbv zeta. unfold createMopVariants.
  pose proof (proj1 (createIntensityVariants_band "mop" RvcCleanModeValue.MopMin
                       [Tag_Mop] fanSpeedPresets)) as Hfallback.
  cbv zeta in Hfallback.
  destruct fanSpeedPresets as [fan0|];
    [|split; [exact Hfallback|]; split; [reflexivity | discriminate]].
  destruct waterUsagePresets as [water0|];
    [|split; [exact Hfallback|]; split; [reflexivity | discriminate]].
  destruct (mopLoop' fan0 water0 mopConfigs' [] []) as [|m0 ms] eqn:E.
  - split; [exact Hfallback|]. split; [intros [H|H]; discriminate H|].
    intros fanPresets waterPresets [= <-] [= <-] Hcfg. exfalso. revert E.
    apply mopLoop_some; [congruence | exact Hcfg].
  - split; [discriminate|]. split; [intros [H|H]; discriminate H|].
    intros fanPresets waterPresets [= <-] [= <-] _ m Hm. rewrite <- E in Hm.
    apply mopLoop_elem in Hm as [Hm|(config & Hc & Hf & Hw & Hmode & _)];
      [inversion Hm|].
    exists (mc_mode config). split; [exact Hmode|].
    unfold mopConfigs in Hc.
    repeat (apply elem_of_cons in Hc as [->|Hc];
            [split; [vm_compute; split; discriminate|];
             split; [exact Hf | exact Hw]|]).
    destruct (not_elem_of_nil _ Hc).
Qed.

Lemma createMopVariants_band (fanSpeedPresets waterUsagePresets : option (list string))
    (m : GeneratedMode) (c : Z) :
  m ∈ createMopVariants' fanSpeedPresets waterUsagePresets ->
  g_mode m = Some c -> 31 <= c <= 35.
Proof.
  unfold createMopVariants. intros Hm Hc.
  assert (Hfallback :
    m ∈ createIntensityVariants' "mop" RvcCleanModeValue.MopMin [Tag_Mop]
          fanSpeedPresets -> 31 <= c <= 35).
  { intros H.
    destruct (createIntensityVariants_band "mop" RvcCleanModeValue.MopMin
                [Tag_Mop] fanSpeedPresets) as (_ & _ & Hband).
    specialize (Hband m c H Hc). unfold RvcCleanModeValue.MopMin in Hband. lia. }
  destruct fanSpeedPresets as [fanPresets|]; [|exact (Hfallback Hm)].
  destruct waterUsagePresets as [waterPresets|]; [|exact (Hfallback Hm)].
  destruct (mopLoop' fanPresets waterPresets mopConfigs' [] []) as [|m0 ms] eqn:E;
    [exact (Hfallback Hm)|].
  rewrite <- E in Hm.
  apply mopLoop_elem in Hm as [Hm|(config & Hcfg & _ & _ & Hmode & _)];
    [destruct (not_elem_of_nil _ Hm)|].
  rewrite Hmode in Hc. injection Hc as <-. unfold mopConfigs in Hcfg.
  repeat (apply elem_of_cons in Hcfg as [->|Hcfg];
          [vm_compute; split; discriminate|]).
  destruct (not_elem_of_nil _ Hcfg).
Qed.

(** X9 -- from a code back to its category.  Every numeric code that the
    vacuum category generates (base 66) is decoded by
    [getBaseModeFromNumber] to the vendor mode configured for vacuum, every
    code of the vacuum-and-mop category (base 5) to the mode configured for
    vacuum and mop, and every code of the mop category to the mode
    configured for mop; the decoded mode is never the empty string, so the
    [changeToMode] handler always sends it. *)
Theorem generated_codes_decode_to_category (cfg : option ModeMappingConfig)
    (baseMode : string) (tags : list Z)
    (fanSpeedPresets waterUsagePresets : option (list string))
    (m : GeneratedMode) (c : Z) :
  g_mode m = Some c ->
  (m ∈ createIntensityVariants' baseMode RvcCleanModeValue.VacuumQuiet tags
         fanSpeedPresets ->
   getBaseModeFromNumber cfg c = vacuumSource (getModeMapping cfg))
  /\ (m ∈ createIntensityVariants' baseMode RvcCleanModeValue.VacuumMopQuiet
            tags fanSpeedPresets ->
      getBaseModeFromNumber cfg c = vacuumMopSource (getModeMapping cfg))
  /\ (m ∈ createMopVariants' fanSpeedPresets waterUsagePresets ->
      getBaseModeFromNumber cfg c = mopSource (getModeMapping cfg))
  /\ vacuumSource (getModeMapping cfg) <> ""
  /\ vacuumMopSource (getModeMapping cfg) <> ""
  /\ mopSource (getModeMapping cfg) <> "".
Proof.
  intros Hc.
  assert (Hband : forall base, m ∈ createIntensityVariants' baseMode base tags
                                     fanSpeedPresets -> base <= c <= base + 4).
  { intros base Hm.
    destruct (createIntensityVariants_band baseMode base tags fanSpeedPresets)
      as (_ & _ & H).
    exact (H m c Hm Hc). }
  split; [|split; [|split]].
  - intros Hm. apply Hband in Hm. unfold RvcCleanModeValue.VacuumQuiet in Hm.
    unfold getBaseModeFromNumber.
    destruct (Z.leb_spec 66 c), (Z.leb_spec c 70); try lia. reflexivity.
  - intros Hm. apply Hband in Hm. unfold RvcCleanModeValue.VacuumMopQuiet in Hm.
    unfold getBaseModeFromNumber.
    destruct (Z.leb_spec 66 c), (Z.leb_spec c 70), (Z.leb_spec 31 c),
      (Z.leb_spec c 42), (Z.leb_spec 5 c), (Z.leb_spec c 9); try lia;
      reflexivity.
  - intros Hm. pose proof (createMopVariants_band _ _ _ _ Hm Hc) as H.
    unfold getBaseModeFromNumber.
    destruct (Z.leb_spec 66 c), (Z.leb_spec c 70), (Z.leb_spec 31 c),
      (Z.leb_spec c 42); try lia; reflexivity.
  - unfold getModeMapping. cbn.
    repeat split;
      match goal with
      | |- or_string ?s _ <> _ => destruct s as [[|? ?]|]; discriminate
      end.
Qed.

(** Where the entries of the preset loop come from. *)
Lemma intensityLoop_elem (lbl : string) (base : Z) (tags : list Z)
    (presets : list string) (used : list (option Z))
    (modes : list GeneratedMode) (m : GeneratedMode) :
  m ∈ intensityLoop' lbl base tags presets used modes ->
  m ∈ modes
  \/ exists preset i,
       preset ∈ presets
       /\ intensity_get' (toLowerCase preset) = Some i
       /\ g_label m = (lbl ++ " (" ++ show_label (i_label i) ++ ")")%string
       /\ g_mode m = (fun o => base + o) <$> i_offset i
       /\ g_modeTags m = (Some <$> tags) ++ [i_tag i].
Proof.
  revert used modes. induction presets as [|p presets IH]; intros used modes Hm;
    [left; exact Hm|].
  assert (Hrest : forall used' modes',
            m ∈ intensityLoop' lbl base tags presets used' modes' ->
            m ∈ modes'
            \/ exists preset i,
                 preset ∈ p :: presets
                 /\ intensity_get' (toLowerCase preset) = Some i
                 /\ g_label m = (lbl ++ " (" ++ show_label (i_label i) ++ ")")%string
                 /\ g_mode m = (fun o => base + o) <$> i_offset i
                 /\ g_modeTags m = (Some <$> tags) ++ [i_tag i]).
  { intros used' modes' H.
    destruct (IH _ _ H) as [H'|(q & i & Hq & H')]; [left; exact H'|].
    right. exists q, i. split; [right; exact Hq | exact H']. }
  simpl in Hm.
  destruct (intensity_get' (toLowerCase p)) as [i|] eqn:Hi;
    [|exact (Hrest _ _ Hm)].
  case_bool_decide as Hused; [exact (Hrest _ _ Hm)|].
  destruct (Hrest _ _ Hm) as [H|H]; [|right; exact H].
  apply elem_of_app in H as [H|H]; [left; exact H|].
  apply list_elem_of_singleton in H. subst m. right. exists p, i.
  split; [left|]. split; [exact Hi|]. repeat split.
Qed.

Lemma intensityLoop_mono (lbl : string) (base : Z) (tags : list Z)
    (presets : list string) (used : list (option Z))
    (modes : list GeneratedMode) (m : GeneratedMode) :
  m ∈ modes -> m ∈ intensityLoop' lbl base tags presets used modes.
Proof.
  revert used modes. induction presets as [|p presets IH]; intros used modes Hm;
    [exact Hm|].
  simpl. destruct (intensity_get' (toLowerCase p)) as [i|]; [|apply IH, Hm].
  case_bool_decide; apply IH; [exact Hm|].
  apply elem_of_app. left. exact Hm.
Qed.

(** In the intensity table the offset determines the tag. *)
Lemma intensity_get_tag (p q : string) (i j : Intensity) :
  intensity_get' p = Some i -> intensity_get' q = Some j ->
  i_offset i = i_offset j -> i_tag i = i_tag j.
Proof.
  assert (H : forall s k, intensity_get' s = Some k ->
            (i_offset k, i_tag k)
            ∈ [ (Some 4, Some Tag_Min); (Some 2, Some Tag_Quiet);
                (Some 0, Some Tag_Auto); (Some 1, Some Tag_Quick);
                (Some 3, Some Tag_Max); (None, None) ]).
  { intros s k. unfold intensity_get.
    destruct (intensityMap _ _ _ _ _ !! s) as [k'|] eqn:E.
    - intros [= <-]. apply elem_of_list_to_map_2 in E.
      repeat (apply elem_of_cons in E as [[= _ ->]|E];
              [apply list_elem_of_In; simpl; auto 10|]).
      inversion E.
    - case_decide; [|discriminate]. intros [= <-].
      apply list_elem_of_In; simpl; auto 10. }
  intros Hi Hj Ho. apply H in Hi, Hj. rewrite Ho in Hi.
  revert Hi Hj. generalize (i_offset j) (i_tag i) (i_tag j). intros o a b Hi Hj.
  repeat (apply elem_of_cons in Hi as [[= -> ->]|Hi];
          [repeat (apply elem_of_cons in Hj as [Hj|Hj]; [congruence|]);
           destruct (not_elem_of_nil _ Hj)|]).
  destruct (not_elem_of_nil _ Hi).
Qed.

(** Every preset of the table has an entry at its code, tagged as the
    preset: its own, or the one of an earlier preset with the same offset. *)
Lemma intensityLoop_covers (lbl : string) (base : Z) (tags : list Z)
    (presets : list string) :
  forall (used : list (option Z)) (modes : list GeneratedMode),
    (forall o, o ∈ used ->
       exists m p i, m ∈ modes /\ intensity_get' p = Some i /\ i_offset i = o
         /\ g_mode m = (fun x => base + x) <$> o
         /\ g_modeTags m = (Some <$> tags) ++ [i_tag i]) ->
    forall preset i,
      preset ∈ presets -> intensity_get' (toLowerCase preset) = Some i ->
      exists m, m ∈ intensityLoop' lbl base tags presets used modes
        /\ g_mode m = (fun x => base + x) <$> i_offset i
        /\ g_modeTags m = (Some <$> tags) ++ [i_tag i].
Proof.
  induction presets as [|p presets IH]; intros used modes Hinv preset i Hin Hi;
    [destruct (not_elem_of_nil _ Hin)|].
  simpl. apply elem_of_cons in Hin as [->|Hin].
  - rewrite Hi. case_bool_decide as Hused.
    + destruct (Hinv _ Hused) as (m & q & j & Hm & Hj & Ho & Hmode & Htags).
      exists m. split; [apply intensityLoop_mono, Hm|]. split; [exact Hmode|].
      rewrite Htags. f_equal. f_equal. eapply intensity_get_tag; eauto.
    + eexists. split; [apply intensityLoop_mono, elem_of_app; right; left|].
      split; reflexivity.
  - destruct (intensity_get' (toLowerCase p)) as [j|] eqn:Hj;
      [|eapply IH; eauto].
    case_bool_decide as Hused; [eapply IH; eauto|].
    eapply IH; [|exact Hin|exact Hi].
    intros o Ho. apply elem_of_cons in Ho as [->|Ho].
    + eexists _, (toLowerCase p), j.
      split; [apply elem_of_app; right; left|].
      split; [exact Hj|]. repeat split.
    + destruct (Hinv o Ho) as (m & q & k & Hm & H).
      exists m, q, k. split; [apply elem_of_app; left; exact Hm | exact H].
Qed.

(** X11 -- generation and decoding disagree in the five-code bands of the
    categories vacuum (base 66) and vacuum-and-mop (base 5).  Every entry
    that [createIntensityVariants] returns for a list of fan presets is the
    single fallback entry at the base code, or was pushed by the loop for
    one of the presets, with the code base + offset and the tag of that
    preset in the intensity table.  Conversely every preset of the list
    that the table knows has an entry with its code base + offset and its
    tag; and [getIntensitySettings] (no overrides) decodes that code to the
    same fan preset only for the preset "max": the code of "medium" (tagged
    Auto) decodes to "low", the one of "low" to "high", the one of "high"
    to "medium", the one of "off" and "min" to "turbo", the one of "turbo"
    to "max". *)
Theorem intensity_codes_decode_to_other_presets
    (baseMode : string) (base : Z) (tags : list Z) (presets : list string) :
  base = RvcCleanModeValue.VacuumQuiet
  \/ base = RvcCleanModeValue.VacuumMopQuiet ->
  let modes := createIntensityVariants' baseMode base tags (Some presets) in
  (forall m, m ∈ modes ->
     m = autoMode Tag_Auto (modeLabelOf baseMode) base tags
     \/ exists preset i,
          preset ∈ presets
          /\ intensity_get' (toLowerCase preset) = Some i
          /\ g_label m = (modeLabelOf baseMode ++ " ("
                          ++ show_label (i_label i) ++ ")")%string
          /\ g_mode m = (fun o => base + o) <$> i_offset i
          /\ g_modeTags m = (Some <$> tags) ++ [i_tag i])
  /\ (forall preset i offset,
        preset ∈ presets ->
        intensityMap Tag_Auto Tag_Quick Tag_Quiet Tag_Min Tag_Max
          !! toLowerCase preset = Some i ->
        i_offset i = Some offset ->
        let decoded := fan (getIntensitySettings None (base + offset)) in
        (exists m, m ∈ modes /\ g_mode m = Some (base + offset)
                   /\ g_modeTags m = (Some <$> tags) ++ [i_tag i])
        /\ (decoded = toLowerCase preset <-> toLowerCase preset = "max")
        /\ (toLowerCase preset = "medium" -> decoded = "low")
        /\ (toLowerCase preset = "low" -> decoded = "high")
        /\ (toLowerCase preset = "high" -> decoded = "medium")
        /\ (toLowerCase preset = "off" \/ toLowerCase preset = "min" ->
            decoded = "turbo")
        /\ (toLowerCase preset = "turbo" -> decoded = "max")).
Proof.
  intros Hbase. cbv zeta. unfold createIntensityVariants. split.
  - intros m Hm.
    destruct presets as [|p ps];
      [left; apply list_elem_of_singleton, Hm|].
    destruct (intensityLoop' _ base tags (p :: ps) [] []) as [|m0 ms] eqn:E;
      [left; apply list_elem_of_singleton, Hm|].
    rewrite <- E in Hm.
    apply intensityLoop_elem in Hm as [Hm|Hm];
      [destruct (not_elem_of_nil _ Hm) | right; exact Hm].
  - intros preset i offset Hin Hi Ho. split.
    + assert (Hget : intensity_get' (toLowerCase preset) = Some i)
        by (unfold intensity_get; rewrite Hi; reflexivity).
      destruct (intensityLoop_covers (modeLabelOf baseMode) base tags presets
                  [] [] ltac:(intros o H; destruct (not_elem_of_nil _ H))
                  preset i Hin Hget) as (m & Hm & Hmode & Htags).
      rewrite Ho in Hmode.
      destruct presets as [|p ps]; [destruct (not_elem_of_nil _ Hin)|].
      destruct (intensityLoop' _ base tags (p :: ps) [] []) as [|m0 ms] eqn:E;
        [destruct (not_elem_of_nil _ Hm)|].
      exists m. split; [exact Hm|]. split; [exact Hmode | exact Htags].
    + apply elem_of_list_to_map_2 in Hi.
      repeat (apply elem_of_cons in Hi as [[= E ->]|Hi];
              [injection Ho as <-; rewrite E;
               destruct Hbase as [->| ->]; vm_compute;
               repeat split; try reflexivity; try discriminate;
               try (intros [H|H]; discriminate H);
               intros _; reflexivity|]).
      destruct (not_elem_of_nil _ Hi).
Qed.

End GeneratorFacts.

Lemma createMopVariants_round_trip_witness :
  createMopVariants 0 1 2 6 7 16386 None (Some ["low"; "medium"]) <> []
  /\ (exists config, config ∈ mopConfigs 0 1 2 7
        /\ mc_fanPreset config ∈ ["low"; "medium"; "high"]
        /\ mc_waterPreset config ∈ ["low"; "medium"])
  /\ forall m,
       m ∈ createMopVariants 0 1 2 6 7 16386 (Some ["low"; "medium"; "high"])
                             (Some ["low"; "medium"]) ->
       exists code, g_mode m = Some code /\ 31 <= code <= 34
         /\ fan (getIntensitySettings None code) ∈ ["low"; "medium"; "high"]
         /\ water (getIntensitySettings None code) ∈ ["low"; "medium"].
Proof.
  assert (H : exists config, config ∈ mopConfigs 0 1 2 7
                /\ mc_fanPreset config ∈ ["low"; "medium"; "high"]
                /\ mc_waterPreset config ∈ ["low"; "medium"]).
  { eexists. split; [left|]. split; [right; left | right; left]. }
  split; [|split; [exact H|]].
  - exact (proj1 (createMopVariants_round_trip 0 1 2 6 7 16386
                    None (Some ["low"; "medium"]))).
  - exact (proj2 (proj2 (createMopVariants_round_trip 0 1 2 6 7 16386
                           (Some ["low"; "medium"; "high"])
                           (Some ["low"; "medium"])))
             _ _ eq_refl eq_refl H).
Defined.

Lemma generated_codes_decode_to_category_witness :
  let m := {| g_label := "Vacuum (Max)"; g_mode := Some 69;
              g_modeTags := [Some 16385; Some 7] |} in
  g_mode m = Some 69
  /\ m ∈ createIntensityVariants 0 1 2 6 7 "vacuum"
          RvcCleanModeValue.VacuumQuiet [16385] (Some ["low"; "MAX"])
  /\ getBaseModeFromNumber None 69 = "vacuum".
Proof.
  intros m.
  assert (Hm : m ∈ createIntensityVariants 0 1 2 6 7 "vacuum"
                     RvcCleanModeValue.VacuumQuiet [16385]
                     (Some ["low"; "MAX"])).
  { vm_compute. right. left. }
  split; [reflexivity|]. split; [exact Hm|].
  exact (proj1 (generated_codes_decode_to_category 0 1 2 6 7 16386 None
                  "vacuum" [16385] (Some ["low"; "MAX"]) None m 69 eq_refl) Hm).
Defined.

Lemma intensity_codes_decode_to_other_presets_witness :
  (RvcCleanModeValue.VacuumQuiet = RvcCleanModeValue.VacuumQuiet
   \/ RvcCleanModeValue.VacuumQuiet = RvcCleanModeValue.VacuumMopQuiet)
  /\ "Medium" ∈ ["max"; "Medium"]
  /\ intensityMap 0 1 2 6 7 !! toLowerCase "Medium"
     = Some (own_intensity 0 "Auto" 0)
  /\ (exists m,
        m ∈ createIntensityVariants 0 1 2 6 7 "vacuum"
              RvcCleanModeValue.VacuumQuiet [16385] (Some ["max"; "Medium"])
        /\ g_mode m = Some (RvcCleanModeValue.VacuumQuiet + 0)
        /\ g_modeTags m = [Some 16385; Some 0])
  /\ fan (getIntensitySettings None (RvcCleanModeValue.VacuumQuiet + 0)) = "low".
Proof.
  assert (H1 : RvcCleanModeValue.VacuumQuiet = RvcCleanModeValue.VacuumQuiet
               \/ RvcCleanModeValue.VacuumQuiet = RvcCleanModeValue.VacuumMopQuiet)
    by (left; reflexivity).
  assert (H2 : "Medium" ∈ ["max"; "Medium"]) by (right; left).
  assert (H3 : intensityMap 0 1 2 6 7 !! toLowerCase "Medium"
               = Some (own_intensity 0 "Auto" 0))
    by (vm_compute; reflexivity).
  split; [exact H1|]. split; [exact H2|]. split; [exact H3|].
  destruct (proj2 (intensity_codes_decode_to_other_presets 0 1 2 6 7
                     "vacuum" RvcCleanModeValue.VacuumQuiet [16385]
                     ["max"; "Medium"] H1)
              "Medium" _ 0 H2 H3 eq_refl) as (Hm & _ & Hdec & _).
  split; [exact Hm | exact (Hdec eq_refl)].
Defined.


Lemma getIntensitySettings_nonempty (cfg : option IntensityPresets) (mode : Z) :
  fan (getIntensitySettings cfg mode) <> ""
  /\ water (getIntensitySettings cfg mode) <> "".
Proof.
  assert (Hne : forall s d, d <> "" -> or_string s d <> "").
  { intros [[|? ?]|] d Hd; simpl; [exact Hd | discriminate | exact Hd]. }
  assert (Hwith : forall m : IntensityKey * string * string,
            m.1.2 <> "" -> m.2 <> "" ->
            fan (let '(k, f, w) := m in
                 {| fan := or_string (overrideOf cfg k ≫= po_fanSpeed) f;
                    water := or_string (overrideOf cfg k ≫= po_waterUsage) w |})
            <> ""
            /\ water (let '(k, f, w) := m in
                 {| fan := or_string (overrideOf cfg k ≫= po_fanSpeed) f;
                    water := or_string (overrideOf cfg k ≫= po_waterUsage) w |})
            <> "").
  { intros [[k f] w] Hf Hw. simpl in *. split; apply Hne; assumption. }
  assert (Hoff : forall o, (offsetMap o).1.2 <> "" /\ (offsetMap o).2 <> "").
  { intros o. unfold offsetMap.
    repeat match goal with
           | |- context [if ?b then _ else _] => destruct b
           end; split; discriminate. }
  assert (Hmop : forall o, (mopModeMap o).1.2 <> "" /\ (mopModeMap o).2 <> "").
  { intros o. unfold mopModeMap.
    repeat match goal with
           | |- context [if ?b then _ else _] => destruct b
           end; split; discriminate. }
  unfold getIntensitySettings.
  destruct (_ && _)%bool; [apply Hwith; apply Hoff|].
  destruct (_ && _)%bool; [apply Hwith; apply Hmop|].
  destruct (_ && _)%bool; [apply Hwith; apply Hoff|].
  split; discriminate.
Qed.

Lemma getBaseModeFromNumber_band (cfg : option ModeMappingConfig) (mode : Z) :
  if bool_decide (5 <= mode <= 9 \/ 31 <= mode <= 42 \/ 66 <= mode <= 70)
  then getBaseModeFromNumber cfg mode <> ""
  else getBaseModeFromNumber cfg mode = "".
Proof.
  assert (Hne : forall s d, d <> "" -> or_string s d <> "").
  { intros [[|? ?]|] d Hd; simpl; [exact Hd | discriminate | exact Hd]. }
  unfold getBaseModeFromNumber, getModeMapping.
  cbn [vacuumSource mopSource vacuumMopSource].
  case_bool_decide as Hband;
    destruct (Z.leb_spec 66 mode), (Z.leb_spec mode 70), (Z.leb_spec 31 mode),
      (Z.leb_spec mode 42), (Z.leb_spec 5 mode), (Z.leb_spec mode 9);
    cbn [andb]; try lia; try reflexivity; apply Hne; discriminate.
Qed.

(** X10 -- the presets of a clean mode.  Whatever overrides are
    configured, [getIntensitySettings] returns a fan preset and a water
    preset that are not empty; a mode in none of the three intensity bands
    (66-70, 31-34, 5-9) gets medium and medium, whatever the overrides --
    this includes the mop codes 35 to 42; and a non-empty override of the
    band's intensity replaces the default. *)
Theorem getIntensitySettings_defaults (cfg : option IntensityPresets) (mode : Z) :
  fan (getIntensitySettings cfg mode) <> ""
  /\ water (getIntensitySettings cfg mode) <> ""
  /\ (~ (66 <= mode <= 70) -> ~ (31 <= mode <= 34) -> ~ (5 <= mode <= 9) ->
      getIntensitySettings cfg mode = {| fan := "medium"; water := "medium" |})
  /\ (forall presets o f,
        cfg = Some presets -> ip_max presets = Some o ->
        po_fanSpeed o = Some f -> f <> "" ->
        fan (getIntensitySettings cfg 69) = f
        /\ fan (getIntensitySettings cfg 34) = f
        /\ fan (getIntensitySettings cfg 8) = f).
Proof.
  pose proof (getIntensitySettings_nonempty cfg mode) as Hall.
  split; [apply Hall|]. split; [apply Hall|]. split.
  - intros H1 H2 H3. unfold getIntensitySettings.
    unfold RvcCleanModeValue.VacuumQuiet, RvcCleanModeValue.VacuumTurbo,
      RvcCleanModeValue.MopMin, RvcCleanModeValue.MopHigh,
      RvcCleanModeValue.VacuumMopQuiet, RvcCleanModeValue.VacuumMopTurbo.
    destruct (Z.leb_spec 66 mode), (Z.leb_spec mode 70), (Z.leb_spec 31 mode),
      (Z.leb_spec mode 34), (Z.leb_spec 5 mode), (Z.leb_spec mode 9);
      try lia; reflexivity.
  - intros presets o f -> Ho Hf Hfne.
    assert (E : forall d, or_string (ip_max presets ≫= po_fanSpeed) d = f).
    { intros d. rewrite Ho. cbn. rewrite Hf.
      destruct f; [contradiction|reflexivity]. }
    split; [exact (E "max")|]. split; [exact (E "max") | exact (E "max")].
Qed.



(* ===================================================================== *)
(** * White space                                                         *)
(* ===================================================================== *)

Lemma startsWith_spec (p l : list ascii) :
  startsWith p l = true <-> p `prefix_of` l.
Proof.
  revert l. induction p as [|a p IH]; intros l; simpl.
  - split; [intros _; apply prefix_nil | reflexivity].
  - destruct l as [|b l].
    + split; [discriminate | intros H; destruct (prefix_nil_not _ _ H)].
    + rewrite andb_true_iff, IH. split.
      * intros [E H]. apply Ascii.eqb_eq in E. subst b. now apply prefix_cons.
      * intros H. split.
        -- apply Ascii.eqb_eq. exact (prefix_cons_inv_1 _ _ _ _ H).
        -- exact (prefix_cons_inv_2 _ _ _ _ H).
Qed.

Lemma afterSpace_Some (table : list (list ascii)) (l rest : list ascii) :
  afterSpace table l = Some rest -> exists w, w ∈ table /\ l = w ++ rest.
Proof.
  unfold afterSpace.
  destruct (List.find (fun p => startsWith p l) table) as [w|] eqn:E;
    [|discriminate].
  intros [= <-]. apply List.find_some in E as [Hin Hw].
  apply startsWith_spec in Hw as [k ->].
  exists w. split; [apply list_elem_of_In, Hin|].
  now rewrite drop_app_length.
Qed.

Lemma afterSpace_None (table : list (list ascii)) (l : list ascii) :
  afterSpace table l = None <-> forall w, w ∈ table -> ~ w `prefix_of` l.
Proof.
  unfold afterSpace. split.
  - destruct (List.find (fun p => startsWith p l) table) as [w|] eqn:E;
      [discriminate|].
    intros _ w Hw Hp. apply startsWith_spec in Hp.
    pose proof (List.find_none _ _ E w (proj1 (list_elem_of_In _ _) Hw)) as H.
    cbv beta in H. congruence.
  - intros Hno.
    destruct (List.find (fun p => startsWith p l) table) as [w|] eqn:E;
      [|reflexivity].
    apply List.find_some in E as [Hin Hw]. apply startsWith_spec in Hw.
    destruct (Hno w (proj2 (list_elem_of_In _ _) Hin) Hw).
Qed.

(** A concatenation of code points of a table. *)
Lemma dropSpaces_spec (table : list (list ascii)) (n : nat) (l : list ascii) :
  (forall w, w ∈ table -> w <> []) ->
  (length l <= n)%nat ->
  exists ws,
    Forall (fun w => w ∈ table) ws
    /\ l = concat ws ++ dropSpaces table n l
    /\ afterSpace table (dropSpaces table n l) = None.
Proof.
  intros Hne. revert l. induction n as [|n IH]; intros l Hlen.
  - destruct l; [|simpl in Hlen; lia].
    exists []. split; [constructor|]. split; [reflexivity|].
    apply afterSpace_None. intros w Hw Hp.
    apply prefix_nil_inv in Hp. exact (Hne w Hw Hp).
  - simpl. destruct (afterSpace table l) as [rest|] eqn:E.
    + destruct (afterSpace_Some _ _ _ E) as (w & Hw & ->).
      destruct (IH rest) as (ws & Hws & Hrest & Hnone).
      { specialize (Hne w Hw). rewrite length_app in Hlen.
        destruct w; [congruence|]. simpl in Hlen. lia. }
      exists (w :: ws). split; [constructor; assumption|].
      split; [|exact Hnone].
      simpl. rewrite <- app_assoc. f_equal. exact Hrest.
    + exists []. split; [constructor|]. split; [reflexivity | exact E].
Qed.

Lemma BlankL_app (l1 l2 : list ascii) : BlankL l1 -> BlankL l2 -> BlankL (l1 ++ l2).
Proof.
  induction 1 as [|w l Hw _ IH]; intros H2; [exact H2|].
  rewrite <- app_assoc. constructor; auto.
Qed.

Lemma BlankL_concat (ws : list (list ascii)) :
  Forall (fun w => w ∈ whiteSpace) ws -> BlankL (concat ws).
Proof.
  induction 1 as [|w ws Hw _ IH]; simpl; [constructor|].
  constructor; assumption.
Qed.

(** The mirror image of a sequence of mirrored code points. *)
Lemma BlankL_reverse (ws : list (list ascii)) :
  Forall (fun w => w ∈ reverse <$> whiteSpace) ws ->
  BlankL (reverse (concat ws)).
Proof.
  induction 1 as [|w ws Hw _ IH]; simpl; [constructor|].
  rewrite reverse_app. apply BlankL_app; [exact IH|].
  apply list_elem_of_fmap in Hw as (w0 & -> & Hw0).
  rewrite reverse_involutive.
  rewrite <- (app_nil_r w0). constructor; [exact Hw0 | constructor].
Qed.

Lemma whiteSpace_nonempty (w : list ascii) : w ∈ whiteSpace -> w <> [].
Proof.
  intros Hw. unfold whiteSpace in Hw. cbn in Hw.
  repeat (apply elem_of_cons in Hw as [->|Hw]; [discriminate|]).
  destruct (not_elem_of_nil _ Hw).
Qed.

Lemma mirrored_nonempty (w : list ascii) :
  w ∈ reverse <$> whiteSpace -> w <> [].
Proof.
  intros Hw. apply list_elem_of_fmap in Hw as (w0 & -> & Hw0).
  intros E. apply (whiteSpace_nonempty w0 Hw0).
  rewrite <- (reverse_involutive w0), E. reflexivity.
Qed.

(** The encodings are prefix-free: at the head of a list that starts with
    one of them, it is that one which is found. *)
Lemma afterSpace_exact (w l : list ascii) :
  w ∈ whiteSpace -> afterSpace whiteSpace (w ++ l) = Some l.
Proof.
  intros Hw. unfold whiteSpace in Hw. cbn in Hw.
  repeat (apply elem_of_cons in Hw as [->|Hw]; [reflexivity|]).
  destruct (not_elem_of_nil _ Hw).
Qed.

Lemma trimStartL_spec (l : list ascii) :
  exists pre,
    l = pre ++ trimStartL l /\ BlankL pre
    /\ forall w, w ∈ whiteSpace -> ~ w `prefix_of` trimStartL l.
Proof.
  unfold trimStartL.
  destruct (dropSpaces_spec whiteSpace (length l) l whiteSpace_nonempty
              (le_n _)) as (ws & Hws & Hl & Hnone).
  exists (concat ws). split; [exact Hl|]. split; [apply BlankL_concat, Hws|].
  apply afterSpace_None, Hnone.
Qed.

Lemma trimEndL_spec (l : list ascii) :
  exists post,
    l = trimEndL l ++ post /\ BlankL post
    /\ forall w, w ∈ whiteSpace -> ~ w `suffix_of` trimEndL l.
Proof.
  unfold trimEndL.
  destruct (dropSpaces_spec (reverse <$> whiteSpace) (length l) (reverse l)
              mirrored_nonempty) as (ws & Hws & Hl & Hnone).
  { rewrite length_reverse. lia. }
  set (d := dropSpaces (reverse <$> whiteSpace) (length l) (reverse l)) in *.
  exists (reverse (concat ws)). split; [|split].
  - rewrite <- reverse_app, <- Hl, reverse_involutive. reflexivity.
  - apply BlankL_reverse, Hws.
  - intros w Hw Hs. apply suffix_prefix_reverse in Hs.
    rewrite reverse_involutive in Hs.
    apply (proj1 (afterSpace_None _ _) Hnone (reverse w)); [|exact Hs].
    apply list_elem_of_fmap. exists w. split; [reflexivity | exact Hw].
Qed.

Lemma bytes_trim (s : string) :
  list_ascii_of_string (trim s)
  = trimEndL (trimStartL (list_ascii_of_string s)).
Proof. unfold trim. apply list_ascii_of_string_of_list_ascii. Qed.

(** [trim] strips exactly the white space at the two ends. *)
Lemma trim_Stripped (s : string) : Stripped s (trim s).
Proof.
  destruct (trimStartL_spec (list_ascii_of_string s)) as (pre & Hs & Hpre & Hp).
  destruct (trimEndL_spec (trimStartL (list_ascii_of_string s)))
    as (post & Ht & Hpost & Hsuf).
  exists pre, post. unfold Trimmed. rewrite bytes_trim.
  split; [rewrite <- Ht; exact Hs|]. split; [exact Hpre|]. split; [exact Hpost|].
  intros w Hw. split; [|apply Hsuf, Hw].
  intros Hpref. apply (Hp w Hw). rewrite Ht. apply prefix_app_r, Hpref.
Qed.

Lemma dropSpaces_blank (l : list ascii) :
  BlankL l -> forall n, (length l <= n)%nat -> dropSpaces whiteSpace n l = [].
Proof.
  induction 1 as [|w l Hw _ IH]; intros n Hlen; [destruct n; reflexivity|].
  pose proof (whiteSpace_nonempty w Hw) as Hne.
  rewrite length_app in Hlen.
  destruct n as [|n]; [destruct w; [congruence | simpl in Hlen; lia]|].
  simpl. rewrite afterSpace_exact by exact Hw. apply IH.
  destruct w; [congruence | simpl in Hlen; lia].
Qed.

(** [trim] leaves nothing exactly of the strings made of white space. *)
Lemma trim_blank (s : string) : trim s = "" <-> Blank s.
Proof.
  unfold Blank. split.
  - intros E. destruct (trim_Stripped s) as (pre & post & Hs & Hpre & Hpost & _).
    rewrite E in Hs. simpl in Hs. rewrite Hs. apply BlankL_app; assumption.
  - intros Hb. unfold trim, trimStartL.
    rewrite (dropSpaces_blank _ Hb) by lia. reflexivity.
Qed.

(** A string without white space at its ends is left as it is. *)
Lemma Trimmed_trim (s : string) : Trimmed s -> trim s = s.
Proof.
  unfold Trimmed. intros Ht.
  rewrite <- (string_of_list_ascii_of_string s) at 2.
  unfold trim. f_equal.
  set (l := list_ascii_of_string s) in *.
  assert (Hstart : trimStartL l = l).
  { unfold trimStartL. destruct (length l); [reflexivity|]. simpl.
    assert (E : afterSpace whiteSpace l = None)
      by (apply afterSpace_None; intros w Hw; apply Ht, Hw).
    now rewrite E. }
  rewrite Hstart. unfold trimEndL.
  assert (E : afterSpace (reverse <$> whiteSpace) (reverse l) = None).
  { apply afterSpace_None. intros w Hw Hp.
    apply list_elem_of_fmap in Hw as (w0 & -> & Hw0).
    apply suffix_prefix_reverse in Hp. exact (proj2 (Ht w0 Hw0) Hp). }
  destruct (length l); cbn [dropSpaces]; [|rewrite E]; apply reverse_involutive.
Qed.

Lemma bytes_append (s1 s2 : string) :
  list_ascii_of_string (s1 ++ s2)
  = list_ascii_of_string s1 ++ list_ascii_of_string s2.
Proof.
  induction s1 as [|c s1 IH]; [reflexivity|].
  change (String c s1 ++ s2)%string with (String c (s1 ++ s2)).
  simpl. now rewrite IH.
Qed.

(** A counter appended to a name without white space at its ends leaves
    none at the ends. *)
Lemma Trimmed_counter (name : string) :
  Trimmed name -> name <> "" -> Trimmed (name ++ " 2").
Proof.
  unfold Trimmed. intros Ht Hne w Hw. rewrite bytes_append.
  assert (Hl : list_ascii_of_string name <> []).
  { intros E. apply Hne. rewrite <- (string_of_list_ascii_of_string name), E.
    reflexivity. }
  set (l := list_ascii_of_string name) in *. clearbody l.
  destruct (Ht w Hw) as [Hp _]. clear Ht.
  change (list_ascii_of_string " 2") with [" "%char; "2"%char].
  unfold whiteSpace in Hw. cbn in Hw.
  split.
  - intros [k Hk]. apply Hp. clear Hp.
    repeat (apply elem_of_cons in Hw as [->|Hw];
            [destruct l as [|n1 [|n2 [|n3 l3]]]; [congruence|..];
             simpl in Hk; injection Hk; intros; subst;
             try discriminate; eexists; reflexivity|]).
    destruct (not_elem_of_nil _ Hw).
  - intros Hs. clear Hp. apply suffix_prefix_reverse in Hs.
    rewrite reverse_app in Hs. destruct Hs as [k Hk].
    repeat (apply elem_of_cons in Hw as [->|Hw]; [discriminate Hk|]).
    destruct (not_elem_of_nil _ Hw).
Qed.

Lemma Blank_empty_core (raw : string) :
  Stripped raw "" -> Blank raw.
Proof.
  intros (pre & post & Hs & Hpre & Hpost & _). unfold Blank.
  rewrite Hs. simpl. apply BlankL_app; assumption.
Qed.

(** [validSegments] keeps the rooms that have a name. *)
Lemma NamedRooms_validSegments (segments named : list MapSegment) :
  NamedRooms segments named -> validSegments segments = named.
Proof.
  unfold validSegments.
  induction 1 as [|segment l named Hb _ IH|segment l named Hb _ IH]; simpl.
  - reflexivity.
  - apply trim_blank in Hb. rewrite Hb. simpl. exact IH.
  - destruct (String.eqb_spec (trim (ms_name segment)) "") as [E|_].
    + destruct (Hb (proj1 (trim_blank _) E)).
    + simpl. now rewrite IH.
Qed.

Lemma validSegments_NamedRooms (segments : list MapSegment) :
  NamedRooms segments (validSegments segments).
Proof.
  unfold validSegments. induction segments as [|segment l IH]; simpl.
  - constructor.
  - destruct (String.eqb_spec (trim (ms_name segment)) "") as [E|E]; simpl.
    + apply NamedRooms_blank; [apply trim_blank, E | exact IH].
    + apply NamedRooms_named; [|exact IH].
      intros Hb. apply E, trim_blank, Hb.
Qed.

Lemma Trimmed_fixed (s : string) : trim s = s -> Trimmed s.
Proof.
  intros E. destruct (trim_Stripped s) as (_ & _ & _ & _ & _ & H).
  now rewrite E in H.
Qed.

(** The bytes at which an encoding of the table starts. *)
Lemma BlankL_head (b : ascii) (l : list ascii) :
  BlankL (b :: l) ->
  b ∈ utf8 [9; 10; 11; 12; 13; 32; 194; 225; 226; 227; 239]%N.
Proof.
  intros H. inversion H as [|w l0 Hw Hl0 E].
  unfold whiteSpace in Hw. cbn in Hw.
  repeat (apply elem_of_cons in Hw as [->|Hw];
          [simpl in E; injection E as <- _;
           apply list_elem_of_In; vm_compute; auto 20|]).
  destruct (not_elem_of_nil _ Hw).
Qed.

(** No encoding starts inside a text and ends in the white space after it:
    the second and third bytes of an encoding start none. *)
Lemma whiteSpace_straddle (w c post : list ascii) :
  w ∈ whiteSpace -> c <> [] -> BlankL post ->
  w `prefix_of` c ++ post -> w `prefix_of` c.
Proof.
  intros Hw Hc Hpost [k Hk].
  unfold whiteSpace in Hw. cbn in Hw.
  repeat (apply elem_of_cons in Hw as [->|Hw];
          [destruct c as [|c1 [|c2 [|c3 c']]]; [congruence|..];
           simplify_eq/=;
           first [ eexists; reflexivity
                 | apply BlankL_head in Hpost; cbn in Hpost;
                   repeat (apply elem_of_cons in Hpost as [Hpost|Hpost];
                           [discriminate Hpost|]);
                   destruct (not_elem_of_nil _ Hpost) ]|]).
  destruct (not_elem_of_nil _ Hw).
Qed.

Lemma dropSpaces_strip (table ws : list (list ascii)) (rest : list ascii) :
  (forall w l, w ∈ table -> afterSpace table (w ++ l) = Some l) ->
  (forall w, w ∈ table -> w <> []) ->
  Forall (fun w => w ∈ table) ws ->
  afterSpace table rest = None ->
  forall n, (length (concat ws ++ rest) <= n)%nat ->
            dropSpaces table n (concat ws ++ rest) = rest.
Proof.
  intros Hexact Hne Hws Hrest.
  induction Hws as [|w ws Hw _ IH]; intros n Hlen.
  - simpl. destruct n; simpl; [reflexivity|]. now rewrite Hrest.
  - pose proof (Hne w Hw) as Hw0.
    simpl in *. rewrite <- app_assoc in *. rewrite length_app in Hlen.
    destruct n as [|n]; [destruct w; [congruence | simpl in Hlen; lia]|].
    simpl. rewrite Hexact by exact Hw. apply IH.
    destruct w; [congruence | simpl in Hlen; lia].
Qed.

Lemma BlankL_concat_inv (l : list ascii) :
  BlankL l -> exists ws, Forall (fun w => w ∈ whiteSpace) ws /\ l = concat ws.
Proof.
  induction 1 as [|w l Hw _ (ws & Hws & ->)].
  - exists []. split; [constructor | reflexivity].
  - exists (w :: ws). split; [constructor; assumption | reflexivity].
Qed.

Lemma BlankL_mirror (l : list ascii) :
  BlankL l ->
  exists ws, Forall (fun w => w ∈ reverse <$> whiteSpace) ws
             /\ reverse l = concat ws.
Proof.
  induction 1 as [|w l Hw _ (ws & Hws & E)].
  - exists []. split; [constructor | reflexivity].
  - exists (ws ++ [reverse w]). split.
    + apply Forall_app. split; [exact Hws|]. constructor; [|constructor].
      apply list_elem_of_fmap. exists w. split; [reflexivity | exact Hw].
    + rewrite reverse_app, concat_app, E. simpl. now rewrite app_nil_r.
Qed.

Lemma afterSpace_exact_mirrored (w l : list ascii) :
  w ∈ reverse <$> whiteSpace ->
  afterSpace (reverse <$> whiteSpace) (w ++ l) = Some l.
Proof.
  intros Hw. apply list_elem_of_fmap in Hw as (w0 & -> & Hw0).
  unfold whiteSpace in Hw0. cbn in Hw0.
  repeat (apply elem_of_cons in Hw0 as [->|Hw0]; [reflexivity|]).
  destruct (not_elem_of_nil _ Hw0).
Qed.

(** [Stripped] leaves no choice: the core of a string is what [trim]
    returns for it. *)
Lemma Stripped_trim (raw core : string) : Stripped raw core -> trim raw = core.
Proof.
  intros (pre & post & Hraw & Hpre & Hpost & Hcore).
  rewrite <- (string_of_list_ascii_of_string core). unfold trim. f_equal.
  rewrite Hraw. unfold Trimmed in Hcore.
  set (c := list_ascii_of_string core) in *. clearbody c.
  destruct (decide (c = [])) as [->|Hc].
  - simpl. unfold trimStartL.
    rewrite (dropSpaces_blank _ (BlankL_app _ _ Hpre Hpost)) by lia.
    reflexivity.
  - assert (Hstart : trimStartL (pre ++ c ++ post) = c ++ post).
    { destruct (BlankL_concat_inv pre Hpre) as (ws & Hws & ->).
      unfold trimStartL.
      apply dropSpaces_strip;
        [intros; now apply afterSpace_exact | apply whiteSpace_nonempty
        | exact Hws | | lia].
      apply afterSpace_None. intros w Hw Hp.
      apply (proj1 (Hcore w Hw)). eapply whiteSpace_straddle; eauto. }
    rewrite Hstart. unfold trimEndL. rewrite reverse_app.
    destruct (BlankL_mirror post Hpost) as (ws & Hws & Hrev).
    rewrite Hrev.
    rewrite dropSpaces_strip;
      [apply reverse_involutive
      | intros; now apply afterSpace_exact_mirrored | apply mirrored_nonempty
      | exact Hws | | ].
    + apply afterSpace_None. intros w Hw Hp.
      apply list_elem_of_fmap in Hw as (w0 & -> & Hw0).
      apply suffix_prefix_reverse in Hp. exact (proj2 (Hcore w0 Hw0) Hp).
    + rewrite <- Hrev, !length_app, !length_reverse. lia.
Qed.

(* ===================================================================== *)
(** * Service areas                                                       *)
(* ===================================================================== *)

Lemma map_set_fresh {V} (m : list (Z * V)) k v :
  (forall k' v', (k', v') ∈ m -> k' <> k) ->
  map_set m k v = m ++ [(k, v)].
Proof.
  induction m as [|[k' v'] m IH]; intros Hfresh; cbn; [reflexivity|].
  destruct (Z.eqb_spec k' k) as [->|_].
  - exfalso. apply (Hfresh k v'); [left|reflexivity].
  - rewrite IH; [reflexivity|].
    intros k'' v'' Hin. apply (Hfresh k'' v''). now right.
Qed.

Lemma seqZ_succ_length {A} m (x : A) (l : list A) :
  seqZ m (Z.of_nat (length (x :: l)))
  = m :: seqZ (m + 1) (Z.of_nat (length l)).
Proof.
  rewrite seqZ_cons by (cbn [length]; lia).
  do 2 f_equal. cbn [length]. lia.
Qed.

Lemma areasLoop_shape segments :
  forall index usedNames m0,
    (forall k v, (k, v) ∈ m0 -> k <= index) ->
    exists new,
      (areasLoop segments index usedNames m0).2 = m0 ++ new
      /\ new.*1 = seqZ (index + 1) (Z.of_nat (length segments))
      /\ areaId <$> (areasLoop segments index usedNames m0).1
         = seqZ (index + 1) (Z.of_nat (length segments))
      /\ seg_id <$> new.*2 = ms_id <$> segments
      /\ seg_name <$> new.*2
         = locationName <$> (areasLoop segments index usedNames m0).1.
Proof.
  induction segments as [|segment rest IH]; intros index usedNames m0 Hkeys.
  - exists []. cbn. rewrite app_nil_r. auto.
  - cbn [areasLoop].
    set (name0 := if String.eqb _ _ then _ else _).
    destruct (usedNames !! name0) as [n|];
      rewrite map_set_fresh
        by (intros k' v' Hin; specialize (Hkeys _ _ Hin); lia);
      match goal with
      | |- context [areasLoop rest ?i ?u ?m] =>
          destruct (IH i u m) as (new & Hm & Hk & Ha & Hi & Hn);
          [ intros k v [Hin|Hin]%elem_of_app;
            [ specialize (Hkeys _ _ Hin); lia
            | apply list_elem_of_singleton in Hin; injection Hin as -> _; lia ]
          | destruct (areasLoop rest i u m) as [areas final] eqn:E ]
      end;
      cbn [fst snd] in *; subst final;
      eexists (_ :: new); rewrite <- app_assoc; cbn [app];
      (split; [reflexivity|]);
      rewrite seqZ_succ_length; cbn [fmap list_fmap fst snd areaId locationName
                                       seg_id seg_name];
      rewrite ?Hk, ?Ha, ?Hi, ?Hn;
      change (list_fmap _ _ ?f ?l) with (f <$> l) in *;
      rewrite ?Hk, ?Ha, ?Hi, ?Hn; auto.
Qed.

Lemma map_get_lookup {V} (m : list (Z * V)) (i : nat) k v :
  NoDup m.*1 -> m !! i = Some (k, v) -> map_get m k = Some v.
Proof.
  revert i. induction m as [|[k' v'] m IH]; intros i Hnd Hi; [discriminate|].
  cbn in *. apply NoDup_cons in Hnd as [Hnotin Hnd].
  destruct i as [|i]; cbn in Hi.
  - injection Hi as -> ->. now rewrite Z.eqb_refl.
  - destruct (Z.eqb_spec k' k) as [->|_]; [|eauto].
    exfalso. apply Hnotin.
    apply (list_elem_of_fmap_2 fst m (k, v)).
    eapply list_elem_of_lookup_2; eauto.
Qed.

Lemma findAreaId_lookup (m : list (Z * SegmentInfo)) (i : nat) k info :
  NoDup (seg_id <$> m.*2) -> m !! i = Some (k, info) ->
  findAreaId m (seg_id info) = Some k.
Proof.
  revert i. induction m as [|[k' v'] m IH]; intros i Hnd Hi; [discriminate|].
  cbn in *. apply NoDup_cons in Hnd as [Hnotin Hnd].
  destruct i as [|i]; cbn in Hi.
  - injection Hi as -> ->. now rewrite String.eqb_refl.
  - destruct (String.eqb_spec (seg_id v') (seg_id info)) as [Heq|_]; [|eauto].
    exfalso. apply Hnotin. rewrite Heq.
    apply (list_elem_of_fmap_2 seg_id (m.*2) info).
    apply (list_elem_of_fmap_2 snd m (k, info)).
    eapply list_elem_of_lookup_2; eauto.
Qed.

Lemma areaName_lookup (m : list (Z * SegmentInfo)) (i : nat) k info :
  NoDup m.*1 -> m !! i = Some (k, info) -> seg_name info <> "" ->
  areaName m k = seg_name info.
Proof.
  revert i. induction m as [|[k' v'] m IH]; intros i Hnd Hi Hne; [discriminate|].
  cbn in *. apply NoDup_cons in Hnd as [Hnotin Hnd].
  destruct i as [|i]; cbn in Hi.
  - injection Hi as -> ->. rewrite Z.eqb_refl.
    destruct (String.eqb_spec (seg_name info) ""); congruence.
  - destruct (Z.eqb_spec k' k) as [->|_]; [|eauto].
    exfalso. apply Hnotin.
    apply (list_elem_of_fmap_2 fst m (k, info)).
    eapply list_elem_of_lookup_2; eauto.
Qed.

Lemma validSegments_named segments :
  Forall (fun segment => trim (ms_name segment) <> "") (validSegments segments).
Proof.
  unfold validSegments. apply List.Forall_forall. intros segment Hin.
  apply List.filter_In in Hin as [_ Hne].
  destruct (String.eqb_spec (trim (ms_name segment)) ""); [discriminate|assumption].
Qed.

Lemma areasLoop_names segments :
  forall index usedNames m0,
    (forall s n, usedNames !! s = Some n -> 1 <= n) ->
    Forall (fun segment => trim (ms_name segment) <> "") segments ->
    Forall2 namedAfter segments (areasLoop segments index usedNames m0).1.
Proof.
  induction segments as [|segment rest IH]; intros index usedNames m0 Hused Hnamed.
  - constructor.
  - apply Forall_cons in Hnamed as [Hne Hnamed].
    cbn [areasLoop].
    destruct (String.eqb_spec (trim (ms_name segment)) "") as [|_]; [contradiction|].
    destruct (usedNames !! trim (ms_name segment)) as [n|] eqn:Hn;
      match goal with
      | |- context [areasLoop rest ?i ?u ?m] =>
          assert (Hrest : Forall2 namedAfter rest (areasLoop rest i u m).1)
            by (apply IH; [|assumption];
                intros s k [[_ <-]|[_ Hs]]%lookup_insert_Some;
                [ try (specialize (Hused _ _ Hn)); lia | eauto ]);
          destruct (areasLoop rest i u m) as [areas final]
      end;
      cbn [fst] in *; constructor; try assumption;
      exists (trim (ms_name segment)); (split; [apply trim_Stripped|]).
    + right. exists (n + 1). split; [|reflexivity].
      specialize (Hused _ _ Hn). lia.
    + now left.
Qed.

Lemma namedAfter_nonempty segment a :
  ~ Blank (ms_name segment) -> namedAfter segment a -> locationName a <> "".
Proof.
  intros Hnb (core & Hs & [->|(count & _ & ->)]).
  - intros ->. apply Hnb, Blank_empty_core, Hs.
  - destruct core; discriminate.
Qed.

(** X12 -- [createDeviceForVacuum], the areas of a robot that reports rooms,
    for a new vacuum (its [areaToSegmentMap] is empty).  The rooms whose
    name is made of white space only (of any of the white-space characters
    of the language, not only the ASCII ones) or is empty are left out; the
    others, [named], become the areas 1, 2, ..., n in the order received,
    and afterwards [areaToSegmentMap] has exactly these ids as keys and
    takes each area id back to the room's segment id and to the name
    published for the area. *)
Theorem buildAreas_catalogue (segments named : list MapSegment) :
  segments <> [] ->
  NamedRooms segments named ->
  exists areas final,
    buildAreas true (Some segments) [] = (Some areas, final)
    /\ areaId <$> areas = seqZ 1 (Z.of_nat (length named))
    /\ final.*1 = areaId <$> areas
    /\ forall (k : nat) a,
         areas !! k = Some a ->
         exists segment,
           named !! k = Some segment
           /\ areaId a = Z.of_nat k + 1
           /\ map_get final (areaId a)
              = Some {| seg_id := ms_id segment; seg_name := locationName a |}.
Proof.
  intros Hne Hrooms. apply NamedRooms_validSegments in Hrooms. subst named.
  unfold buildAreas.
  destruct segments as [|s0 rest]; [congruence|].
  set (valid := validSegments (s0 :: rest)).
  destruct (areasLoop_shape valid 0 ∅ [])
    as (new & Hm & Hk & Ha & Hi & Hn); [intros k v Hin; inversion Hin|].
  destruct (areasLoop valid 0 ∅ []) as [areas final].
  cbn [fst snd app] in *. subst new.
  exists areas, final. split; [reflexivity|].
  split; [exact Ha|]. split; [congruence|].
  intros k a Hka.
  assert (Hid : areaId a = Z.of_nat k + 1).
  { assert (H : (areaId <$> areas) !! k = Some (areaId a))
      by (rewrite list_lookup_fmap, Hka; reflexivity).
    rewrite Ha in H. apply lookup_seqZ in H. lia. }
  assert (Hlen : length areas = length valid).
  { apply (f_equal length) in Ha.
    rewrite length_fmap, length_seqZ in Ha. lia. }
  destruct (lookup_lt_is_Some_2 valid k) as [segment Hseg].
  { rewrite <- Hlen. eapply lookup_lt_Some; eauto. }
  exists segment. split; [assumption|]. split; [assumption|].
  destruct (lookup_lt_is_Some_2 final k) as [[key info] Hfin].
  { apply (f_equal length) in Hk.
    rewrite length_fmap, length_seqZ in Hk.
    apply lookup_lt_Some in Hseg. lia. }
  assert (Hkey : key = areaId a).
  { assert (H : final.*1 !! k = Some key)
      by (rewrite list_lookup_fmap, Hfin; reflexivity).
    rewrite Hk in H. apply lookup_seqZ in H. lia. }
  assert (Hsid : seg_id info = ms_id segment).
  { assert (H : (seg_id <$> final.*2) !! k = Some (seg_id info))
      by (rewrite !list_lookup_fmap, Hfin; reflexivity).
    rewrite Hi, list_lookup_fmap, Hseg in H. cbn in H. congruence. }
  assert (Hsn : seg_name info = locationName a).
  { assert (H : (seg_name <$> final.*2) !! k = Some (seg_name info))
      by (rewrite !list_lookup_fmap, Hfin; reflexivity).
    rewrite Hn, list_lookup_fmap, Hka in H. cbn in H. congruence. }
  subst key. rewrite (map_get_lookup final k (areaId a) info).
  - destruct info; cbn in *; congruence.
  - rewrite Hk. apply NoDup_seqZ.
  - assumption.
Qed.

Lemma buildAreas_catalogue_witness :
  let kitchen := {| ms_id := "7"; ms_name := " Kitchen " |} in
  let blank := {| ms_id := "8"; ms_name := (nbsp ++ " ")%string |} in
  let bath := {| ms_id := "9"; ms_name := (nbsp ++ "Bath" ++ nbsp)%string |} in
  let segments := [kitchen; blank; bath] in
  let named := [kitchen; bath] in
  segments <> []
  /\ NamedRooms segments named
  /\ exists areas final,
       buildAreas true (Some segments) [] = (Some areas, final)
       /\ areaId <$> areas = seqZ 1 (Z.of_nat (length named))
       /\ final.*1 = areaId <$> areas
       /\ forall (k : nat) a,
            areas !! k = Some a ->
            exists segment,
              named !! k = Some segment
              /\ areaId a = Z.of_nat k + 1
              /\ map_get final (areaId a)
                 = Some {| seg_id := ms_id segment;
                           seg_name := locationName a |}.
Proof.
  intros kitchen blank bath segments named.
  assert (H1 : segments <> []) by discriminate.
  assert (H2 : NamedRooms segments named)
    by exact (validSegments_NamedRooms segments).
  split; [exact H1|]. split; [exact H2|].
  exact (buildAreas_catalogue segments named H1 H2).
Defined.

(** X13 -- [createDeviceForVacuum] with the position tracking of
    [updateVacuumState]: when the rooms that have a name, [named], have
    distinct segment ids, the search of [areaToSegmentMap] by segment id
    finds for the room at position k of [named] the area k + 1, and the
    name logged for that area is the name published for it (the fallback
    [Unknown] is not needed), which is the room's name without the white
    space at its two ends, or that name with a counter from 2 on. *)
Theorem areas_found_by_segment (segments named : list MapSegment) (k : nat)
    (segment : MapSegment) :
  segments <> [] ->
  NamedRooms segments named ->
  NoDup (ms_id <$> named) ->
  named !! k = Some segment ->
  exists areas final a,
    buildAreas true (Some segments) [] = (Some areas, final)
    /\ areas !! k = Some a
    /\ namedAfter segment a
    /\ findAreaId final (ms_id segment) = Some (Z.of_nat k + 1)
    /\ areaName final (Z.of_nat k + 1) = locationName a.
Proof.
  intros Hne Hrooms Hnd Hseg.
  apply NamedRooms_validSegments in Hrooms. subst named.
  unfold buildAreas.
  destruct segments as [|s0 rest]; [congruence|].
  set (valid := validSegments (s0 :: rest)) in *.
  destruct (areasLoop_shape valid 0 ∅ [])
    as (new & Hm & Hk & Ha & Hi & Hn); [intros ? ? Hin; inversion Hin|].
  pose proof (areasLoop_names valid 0 ∅ []
                ltac:(intros s n Hs; rewrite lookup_empty in Hs; discriminate)
                (validSegments_named _)) as Hnames.
  destruct (areasLoop valid 0 ∅ []) as [areas final].
  cbn [fst snd app] in *. subst new.
  assert (Hlen : length areas = length valid).
  { apply (f_equal length) in Ha.
    rewrite length_fmap, length_seqZ in Ha. lia. }
  destruct (lookup_lt_is_Some_2 areas k) as [a Hka].
  { rewrite Hlen. eapply lookup_lt_Some; eauto. }
  destruct (lookup_lt_is_Some_2 final k) as [[key info] Hfin].
  { apply (f_equal length) in Hk.
    rewrite length_fmap, length_seqZ in Hk.
    apply lookup_lt_Some in Hseg. lia. }
  assert (Hkey : key = Z.of_nat k + 1).
  { assert (H : final.*1 !! k = Some key)
      by (rewrite list_lookup_fmap, Hfin; reflexivity).
    rewrite Hk in H. apply lookup_seqZ in H. lia. }
  assert (Hsid : seg_id info = ms_id segment).
  { assert (H : (seg_id <$> final.*2) !! k = Some (seg_id info))
      by (rewrite !list_lookup_fmap, Hfin; reflexivity).
    rewrite Hi, list_lookup_fmap, Hseg in H. cbn in H. congruence. }
  assert (Hsn : seg_name info = locationName a).
  { assert (H : (seg_name <$> final.*2) !! k = Some (seg_name info))
      by (rewrite !list_lookup_fmap, Hfin; reflexivity).
    rewrite Hn, list_lookup_fmap, Hka in H. cbn in H. congruence. }
  assert (Hnamed : namedAfter segment a)
    by (eapply Forall2_lookup_lr; eauto).
  exists areas, final, a. subst key.
  split; [reflexivity|]. split; [assumption|]. split; [assumption|]. split.
  - rewrite <- Hsid. eapply findAreaId_lookup; [|exact Hfin].
    rewrite Hi. exact Hnd.
  - rewrite <- Hsn. eapply areaName_lookup; [|exact Hfin|].
    + rewrite Hk. apply NoDup_seqZ.
    + rewrite Hsn. eapply namedAfter_nonempty; [|exact Hnamed].
      pose proof (validSegments_named (s0 :: rest)) as Hv.
      eapply Forall_lookup_1 in Hv; eauto.
      intros Hb. apply Hv, trim_blank, Hb.
Qed.

Lemma areas_found_by_segment_witness :
  let kitchen := {| ms_id := "7"; ms_name := " Kitchen " |} in
  let blank := {| ms_id := "8"; ms_name := (nbsp ++ " ")%string |} in
  let segment := {| ms_id := "9"; ms_name := (nbsp ++ "Kitchen" ++ nbsp)%string |} in
  let segments := [kitchen; blank; segment] in
  let named := [kitchen; segment] in
  segments <> []
  /\ NamedRooms segments named
  /\ NoDup (ms_id <$> named)
  /\ named !! 1%nat = Some segment
  /\ exists areas final a,
       buildAreas true (Some segments) [] = (Some areas, final)
       /\ areas !! 1%nat = Some a
       /\ namedAfter segment a
       /\ findAreaId final (ms_id segment) = Some (Z.of_nat 1 + 1)
       /\ areaName final (Z.of_nat 1 + 1) = locationName a.
Proof.
  intros kitchen blank segment segments named.
  assert (H1 : segments <> []) by discriminate.
  assert (H2 : NamedRooms segments named)
    by exact (validSegments_NamedRooms segments).
  assert (H3 : NoDup (ms_id <$> named))
    by (apply (bool_decide_unpack _); vm_compute; exact I).
  assert (H4 : named !! 1%nat = Some segment) by reflexivity.
  split; [exact H1|]. split; [exact H2|]. split; [exact H3|]. split; [exact H4|].
  exact (areas_found_by_segment segments named 1 segment H1 H2 H3 H4).
Defined.

(* ---------------------------------------------------------------------- *)
(** ** Names that repeat                                                   *)

Lemma append_suffix_neq (name : string) : (name ++ " 2")%string <> name.
Proof.
  induction name as [|c name IH]; [discriminate|].
  change (String c name ++ " 2")%string with (String c (name ++ " 2")).
  intros [= E]. exact (IH E).
Qed.

(** X14 -- [createDeviceForVacuum], the counter that tells equal room names
    apart does not make the published names distinct: for three rooms named
    n, n and n followed by " 2" (n any name that is not empty and has no
    white space, ASCII or not, at its two ends), the second room is
    published as n followed by " 2", and so is the third. *)
Theorem area_names_repeat (name : string) (id1 id2 id3 : string) :
  Trimmed name -> name <> "" ->
  exists final,
    buildAreas true
      (Some [ {| ms_id := id1; ms_name := name |};
              {| ms_id := id2; ms_name := name |};
              {| ms_id := id3; ms_name := (name ++ " 2")%string |} ]) []
    = (Some [ {| areaId := 1; locationName := name |};
              {| areaId := 2; locationName := (name ++ " 2")%string |};
              {| areaId := 3; locationName := (name ++ " 2")%string |} ],
       final).
Proof.
  intros Htrimmed Hne.
  pose proof (Trimmed_trim name Htrimmed) as Hfix.
  pose proof (Trimmed_trim _ (Trimmed_counter name Htrimmed Hne)) as Hfix2.
  assert (Hne2 : (name ++ " 2")%string <> "") by (destruct name; discriminate).
  assert (E1 : String.eqb name "" = false) by (now apply String.eqb_neq).
  assert (E2 : String.eqb (name ++ " 2") "" = false) by (now apply String.eqb_neq).
  unfold buildAreas, validSegments. cbn [List.filter ms_name].
  rewrite Hfix, Hfix2, E1, E2. cbn [negb areasLoop ms_name ms_id].
  rewrite Hfix, Hfix2, E1, E2.
  rewrite lookup_empty, lookup_insert.
  rewrite decide_True by reflexivity.
  rewrite lookup_insert_ne by (apply not_eq_sym, append_suffix_neq).
  rewrite lookup_insert_ne by (apply not_eq_sym, append_suffix_neq).
  rewrite lookup_empty.
  eexists. reflexivity.
Qed.

Lemma area_names_repeat_witness :
  Trimmed "Bath" /\ "Bath" <> ""
  /\ exists final,
       buildAreas true
         (Some [ {| ms_id := "1"; ms_name := "Bath" |};
                 {| ms_id := "2"; ms_name := "Bath" |};
                 {| ms_id := "3"; ms_name := ("Bath" ++ " 2")%string |} ]) []
       = (Some [ {| areaId := 1; locationName := "Bath" |};
                 {| areaId := 2; locationName := ("Bath" ++ " 2")%string |};
                 {| areaId := 3; locationName := ("Bath" ++ " 2")%string |} ],
          final).
Proof.
  assert (H1 : Trimmed "Bath") by (apply Trimmed_fixed; reflexivity).
  assert (H2 : "Bath" <> "") by discriminate.
  split; [exact H1|]. split; [exact H2|].
  exact (area_names_repeat "Bath" "1" "2" "3" H1 H2).
Defined.

(* ===================================================================== *)
(** * Command handlers                                                    *)
(* ===================================================================== *)

Lemma selectLoop_omap (m : list (Z * SegmentInfo)) (newAreas : list Z) :
  selectLoop m newAreas
  = (seg_id <$> omap (map_get m) newAreas,
     seg_name <$> omap (map_get m) newAreas).
Proof.
  induction newAreas as [|a rest IH]; [reflexivity|].
  cbn [selectLoop omap list_omap]. rewrite IH.
  destruct (map_get m a); reflexivity.
Qed.

(** X15 -- the [selectAreas] handler.  It sends nothing to the robot.  The
    selection it stores does not depend on the previous one: it is the
    segment ids and the room names of the requested areas that
    [areaToSegmentMap] knows, in the order of the request, unknown area ids
    being dropped; a request without areas, or with an empty list, clears
    the selection.  The two stored lists always have the same length. *)
Theorem selectAreas_known_rooms (m : list (Z * SegmentInfo))
    (newAreas : option (list Z)) (sel : Selection) :
  let r := selectAreas m newAreas sel in
  let known := omap (map_get m) (default [] newAreas) in
  callsOf r.2 = []
  /\ selectedSegmentIds r.1 = seg_id <$> known
  /\ selectedRoomNames r.1 = seg_name <$> known
  /\ length (selectedSegmentIds r.1) = length (selectedRoomNames r.1).
Proof.
  cbv zeta. unfold selectAreas.
  destruct newAreas as [[|a rest]|]; try (repeat split; reflexivity).
  rewrite selectLoop_omap.
  cbn [fst snd default selectedSegmentIds selectedRoomNames].
  repeat split. now rewrite !length_fmap.
Qed.

Lemma areasLoop_lookup (valid : list MapSegment) (k : nat) (segment : MapSegment) :
  valid !! k = Some segment ->
  exists name,
    map_get (areasLoop valid 0 ∅ []).2 (Z.of_nat k + 1)
    = Some {| seg_id := ms_id segment; seg_name := name |}.
Proof.
  intros Hseg.
  destruct (areasLoop_shape valid 0 ∅ [])
    as (new & Hm & Hk & _ & Hi & _); [intros ? ? Hin; inversion Hin|].
  destruct (areasLoop valid 0 ∅ []) as [areas final].
  cbn [fst snd app] in *. subst new.
  destruct (lookup_lt_is_Some_2 final k) as [[key info] Hfin].
  { apply (f_equal length) in Hk.
    rewrite length_fmap, length_seqZ in Hk.
    apply lookup_lt_Some in Hseg. lia. }
  assert (Hkey : key = Z.of_nat k + 1).
  { assert (H : final.*1 !! k = Some key)
      by (rewrite list_lookup_fmap, Hfin; reflexivity).
    rewrite Hk in H. apply lookup_seqZ in H. lia. }
  assert (Hsid : seg_id info = ms_id segment).
  { assert (H : (seg_id <$> final.*2) !! k = Some (seg_id info))
      by (rewrite !list_lookup_fmap, Hfin; reflexivity).
    rewrite Hi, list_lookup_fmap, Hseg in H. cbn in H. congruence. }
  subst key. exists (seg_name info).
  rewrite (map_get_lookup final k _ info).
  - destruct info; cbn in *; congruence.
  - rewrite Hk. apply NoDup_seqZ.
  - assumption.
Qed.

(** X16 -- from the controller's choice to the robot.  For the areas built
    from the robot's rooms, [named] being the rooms that have a name (one
    not made of white space only): after [selectAreas] with the area ids of
    some of the named rooms (at least one), [changeToMode] with the run
    mode Cleaning asks the robot for its segmentation properties and then
    to clean exactly the segment ids of those rooms, in the order chosen,
    one iteration, and keeps the selection. *)
Theorem selected_rooms_are_cleaned (segments named : list MapSegment)
    (ks : list nat) (henv : HandlerEnv) (sel0 : Selection) :
  segments <> [] ->
  NamedRooms segments named ->
  ks <> [] ->
  Forall (fun k => (k < length named)%nat) ks ->
  let final := (buildAreas true (Some segments) []).2 in
  let sel1 :=
    (selectAreas final (Some ((fun k => Z.of_nat k + 1) <$> ks)) sel0).1 in
  let r := changeToMode henv RvcRunModeValue.Cleaning sel1 in
  exists ids,
    callsOf r.2
    = [ GetMapSegmentationProperties;
        CleanSegments ids 1 (nullish (h_customOrderSupported henv) false) ]
    /\ Some <$> ids = (fun k => ms_id <$> named !! k) <$> ks
    /\ r.1 = sel1.
Proof.
  intros Hne Hrooms Hks Hvalid. cbv zeta.
  apply NamedRooms_validSegments in Hrooms. subst named.
  destruct segments as [|s0 rest]; [congruence|].
  set (valid := validSegments (s0 :: rest)) in *.
  assert (Hfinal : (buildAreas true (Some (s0 :: rest)) []).2
                   = (areasLoop valid 0 ∅ []).2).
  { unfold buildAreas. fold valid. destruct (areasLoop valid 0 ∅ []); reflexivity. }
  rewrite Hfinal. set (final := (areasLoop valid 0 ∅ []).2).
  assert (Hids : Some <$> (seg_id <$> omap (map_get final)
                                     ((fun k => Z.of_nat k + 1) <$> ks))
                 = (fun k => ms_id <$> valid !! k) <$> ks
                 /\ (ks <> [] ->
                     omap (map_get final) ((fun k => Z.of_nat k + 1) <$> ks) <> [])).
  { clear Hks. induction Hvalid as [|k ks Hk _ IH]; [split; [reflexivity|congruence]|].
    destruct (lookup_lt_is_Some_2 valid k Hk) as [segment Hseg].
    destruct (areasLoop_lookup valid k segment Hseg) as [name Hget].
    cbn [fmap list_fmap omap list_omap]. fold final in Hget. rewrite Hget.
    cbn [fmap list_fmap seg_id]. rewrite Hseg. split; [|discriminate].
    cbn [fmap option_fmap option_map]. f_equal. apply IH. }
  destruct Hids as [Hids Hnonempty]. specialize (Hnonempty Hks).
  unfold selectAreas.
  destruct ((fun k => Z.of_nat k + 1) <$> ks) as [|a areas] eqn:Eareas;
    [destruct ks; [congruence|discriminate]|].
  rewrite selectLoop_omap. cbn [fst].
  unfold changeToMode. cbn [andb Z.leb Z.eqb RvcRunModeValue.Cleaning
                             selectedSegmentIds selectedRoomNames].
  change ((1 <=? RvcRunModeValue.Cleaning) && (RvcRunModeValue.Cleaning <=? 3))
    with true.
  change (RvcRunModeValue.Cleaning =? 2) with true. cbv iota.
  destruct (omap (map_get final) (a :: areas)) as [|i0 infos] eqn:Eo;
    [congruence|].
  cbn [fmap list_fmap]. eexists. split; [reflexivity|]. split; [|reflexivity].
  exact Hids.
Qed.

Lemma selected_rooms_are_cleaned_witness :
  let kitchen := {| ms_id := "7"; ms_name := "Kitchen" |} in
  let blank := {| ms_id := "8"; ms_name := nbsp |} in
  let hall := {| ms_id := "9"; ms_name := "Hall" |} in
  let segments := [kitchen; blank; hall] in
  let named := [kitchen; hall] in
  let henv := {| h_capabilities := []; h_modeMapping := None;
                 h_intensityPresets := None;
                 h_customOrderSupported := Some true |} in
  segments <> []
  /\ NamedRooms segments named
  /\ [1%nat; 0%nat] <> []
  /\ Forall (fun k => (k < length named)%nat) [1%nat; 0%nat]
  /\ exists ids,
       callsOf (changeToMode henv RvcRunModeValue.Cleaning
                  (selectAreas (buildAreas true (Some segments) []).2
                     (Some ((fun k => Z.of_nat k + 1) <$> [1%nat; 0%nat]))
                     noSelection).1).2
       = [ GetMapSegmentationProperties;
           CleanSegments ids 1 (nullish (h_customOrderSupported henv) false) ]
       /\ Some <$> ids = (fun k => ms_id <$> named !! k) <$> [1%nat; 0%nat]
       /\ (changeToMode henv RvcRunModeValue.Cleaning
             (selectAreas (buildAreas true (Some segments) []).2
                (Some ((fun k => Z.of_nat k + 1) <$> [1%nat; 0%nat]))
                noSelection).1).1
          = (selectAreas (buildAreas true (Some segments) []).2
               (Some ((fun k => Z.of_nat k + 1) <$> [1%nat; 0%nat]))
               noSelection).1.
Proof.
  intros kitchen blank hall segments named henv.
  assert (H1 : segments <> []) by discriminate.
  assert (H2 : NamedRooms segments named)
    by exact (validSegments_NamedRooms segments).
  assert (H3 : [1%nat; 0%nat] <> []) by discriminate.
  assert (H4 : Forall (fun k => (k < length named)%nat) [1%nat; 0%nat])
    by (repeat constructor).
  split; [exact H1|]. split; [exact H2|]. split; [exact H3|]. split; [exact H4|].
  exact (selected_rooms_are_cleaned segments named [1%nat; 0%nat] henv
           noSelection H1 H2 H3 H4).
Defined.

Section RunModeFacts.
Variables (RunTag_Idle RunTag_Cleaning RunTag_Mapping : Z).

(** X17 -- the run modes of the [changeToMode] handler.  Idle stops the
    robot and forgets the selected rooms, so that a following Cleaning
    starts a full cleaning; Cleaning without selected rooms starts a full
    cleaning and with selected rooms never does.  The run mode Mapping,
    which [createDeviceForVacuum] offers when the robot has the
    MappingPassCapability, sends nothing to the robot and changes
    nothing. *)
Theorem changeToMode_run_modes (henv henv' : HandlerEnv) (sel : Selection) :
  let stop := changeToMode henv RvcRunModeValue.Idle sel in
  let start := changeToMode henv RvcRunModeValue.Cleaning sel in
  let mapping := changeToMode henv RvcRunModeValue.Mapping sel in
  callsOf stop.2 = [StopCleaning]
  /\ stop.1 = noSelection
  /\ callsOf (changeToMode henv' RvcRunModeValue.Cleaning stop.1).2
     = [StartCleaning]
  /\ (selectedSegmentIds sel = [] -> callsOf start.2 = [StartCleaning])
  /\ (selectedSegmentIds sel <> [] -> StartCleaning ∉ callsOf start.2)
  /\ start.1 = sel
  /\ (RvcRunModeValue.Mapping
      ∈ mode <$> supportedRunModes RunTag_Idle RunTag_Cleaning RunTag_Mapping
                   (h_capabilities henv)
      <-> "MappingPassCapability" ∈ h_capabilities henv)
  /\ callsOf mapping.2 = []
  /\ mapping.1 = sel.
Proof.
  cbv zeta. unfold changeToMode.
  change ((1 <=? RvcRunModeValue.Idle) && (RvcRunModeValue.Idle <=? 3)) with true.
  change ((1 <=? RvcRunModeValue.Cleaning) && (RvcRunModeValue.Cleaning <=? 3))
    with true.
  change ((1 <=? RvcRunModeValue.Mapping) && (RvcRunModeValue.Mapping <=? 3))
    with true.
  change (RvcRunModeValue.Idle =? 2) with false.
  change (RvcRunModeValue.Idle =? 1) with true.
  change (RvcRunModeValue.Cleaning =? 2) with true.
  change (RvcRunModeValue.Mapping =? 2) with false.
  change (RvcRunModeValue.Mapping =? 1) with false.
  cbv iota. cbn [fst snd selectedSegmentIds noSelection].
  split; [reflexivity|]. split; [reflexivity|]. split; [reflexivity|].
  split; [intros ->; reflexivity|]. split.
  - intros Hsel. destruct (selectedSegmentIds sel); [congruence|].
    cbn. intros Hin.
    repeat (apply elem_of_cons in Hin as [Hin|Hin]; [discriminate Hin|]).
    destruct (not_elem_of_nil _ Hin).
  - split; [destruct (selectedSegmentIds sel); reflexivity|]. split.
    + unfold supportedRunModes. rewrite fmap_app. cbn [fmap list_fmap mode].
      case_bool_decide as Hcap; cbn [fmap list_fmap mode]; split.
      * intros _. exact Hcap.
      * intros _. do 2 right. left.
      * intros Hin.
        repeat (apply elem_of_cons in Hin as [Hin|Hin]; [discriminate Hin|]).
        destruct (not_elem_of_nil _ Hin).
      * intros H. contradiction.
    + split; reflexivity.
Qed.
End RunModeFacts.

(** X18 -- the clean modes of the [changeToMode] handler.  For a mode that
    is not a run mode (not 1, 2 or 3) the selection is kept.  A mode in one
    of the bands 5-9, 31-42, 66-70 first sets the robot's operation mode to
    the vendor mode of the band, then the fan speed if the robot has the
    FanSpeedControlCapability, then the water usage if it has the
    WaterUsageControlCapability; the presets sent are those of
    [getIntensitySettings].  Any other mode sends nothing. *)
Theorem changeToMode_clean_mode (henv : HandlerEnv) (newMode : Z)
    (sel : Selection) :
  ~ (1 <= newMode <= 3) ->
  let r := changeToMode henv newMode sel in
  let settings := getIntensitySettings (h_intensityPresets henv) newMode in
  r.1 = sel
  /\ callsOf r.2
     = if bool_decide (5 <= newMode <= 9 \/ 31 <= newMode <= 42
                       \/ 66 <= newMode <= 70)
       then
         [SetOperationMode (getBaseModeFromNumber (h_modeMapping henv) newMode)]
         ++ (if bool_decide ("FanSpeedControlCapability" ∈ h_capabilities henv)
             then [SetFanSpeed (fan settings)] else [])
         ++ (if bool_decide ("WaterUsageControlCapability" ∈ h_capabilities henv)
             then [SetWaterUsage (water settings)] else [])
       else [].
Proof.
  intros Hrun. cbv zeta. unfold changeToMode.
  assert (E : ((1 <=? newMode) && (newMode <=? 3))%bool = false).
  { destruct (Z.leb_spec 1 newMode), (Z.leb_spec newMode 3); try reflexivity. lia. }
  rewrite E.
  pose proof (getBaseModeFromNumber_band (h_modeMapping henv) newMode) as Hmode.
  destruct (getIntensitySettings_nonempty (h_intensityPresets henv) newMode)
    as [Hfan Hwater].
  destruct (bool_decide (5 <= newMode <= 9 \/ 31 <= newMode <= 42
                         \/ 66 <= newMode <= 70)).
  - apply String.eqb_neq in Hmode, Hfan, Hwater. rewrite Hmode, Hfan, Hwater.
    cbn [negb andb fst snd].
    split; [reflexivity|].
    destruct (bool_decide ("FanSpeedControlCapability" ∈ h_capabilities henv)),
      (bool_decide ("WaterUsageControlCapability" ∈ h_capabilities henv));
      reflexivity.
  - rewrite Hmode. split; reflexivity.
Qed.

Lemma changeToMode_clean_mode_witness :
  let henv := {| h_capabilities := ["FanSpeedControlCapability"];
                 h_modeMapping := None; h_intensityPresets := None;
                 h_customOrderSupported := None |} in
  ~ (1 <= 69 <= 3)
  /\ callsOf (changeToMode henv 69 noSelection).2
     = [SetOperationMode "vacuum"; SetFanSpeed "max"].
Proof.
  intros henv.
  assert (H : ~ (1 <= 69 <= 3)) by lia.
  split; [exact H|].
  exact (proj2 (changeToMode_clean_mode henv 69 noSelection H)).
Defined.

(* ===================================================================== *)
(** * The sub-steps of the poll cycle                                     *)
(* ===================================================================== *)

Lemma positionTracking_outside :
  respects (fun v v' => outsidePositionTracking v' = outsidePositionTracking v)
           positionEvent positionTracking.
Proof.
  unfold positionTracking, positionTrackingBody, refreshMapCacheForVacuum,
    client_findSegmentAtPositionCached.
  repeat (respects_step; try exact I; try reflexivity; try congruence;
          try (cbn; tauto)).
Qed.

(** X19 -- position tracking keeps to itself.  Whatever the robot answers
    and whatever the endpoints do, the position-tracking step of a poll
    returns normally, changes no field of the vacuum's record other than
    the map cache, its validity horizon and the current area, and emits
    nothing but log lines and writes of [ServiceArea.currentArea] on the
    vacuum (no pacing delay, no registration); and it does nothing at all
    when the configuration disables it or the vacuum has no areas. *)
Theorem positionTracking_footprint (env : Env) (w : World) :
  let r := positionTracking env w in
  result r = Ok tt
  /\ outsidePositionTracking (vac (world r)) = outsidePositionTracking (vac w)
  /\ Forall positionEvent (events r)
  /\ (positionTracking_enabled (config env) = Some false
      \/ areaToSegmentMap (vac w) = [] ->
      r = (Ok tt, w, [])).
Proof.
  cbv zeta.
  destruct (positionTracking_no_throw env w) as [[] Hres].
  destruct (positionTracking_outside env w) as [Hout Hev].
  split; [exact Hres|]. split; [exact Hout|]. split; [exact Hev|].
  intros Hoff. unfold positionTracking. rewrite bind_ask, bind_get_vac.
  unfold positionTrackingEnabled.
  destruct Hoff as [-> | ->].
  - rewrite bool_decide_eq_true_2 by reflexivity. reflexivity.
  - rewrite (bool_decide_eq_true_2 ([] = [])) by reflexivity.
    rewrite andb_false_r. reflexivity.
Qed.

Lemma updateConsumableStatesForVacuum_outside :
  respects (fun v v' => outsideConsumables v' = outsideConsumables v)
           consumableEvent updateConsumableStatesForVacuum.
Proof.
  unfold updateConsumableStatesForVacuum, checkConsumablesBody, checkConsumable.
  repeat (respects_step; try exact I; try reflexivity; try congruence;
          try (cbn; eauto)).
Qed.

Lemma forEach_invariant {A} (I : World -> Prop) (l : list A)
    (body : A -> M unit) :
  (forall a env w, I w -> I (world (body a env w))) ->
  forall env w, I w -> I (world (forEach l body env w)).
Proof.
  intros Hb. induction l as [|a l IH]; intros env w Hw; [exact Hw|].
  cbn [forEach]. rewrite bind_run.
  specialize (Hb a env w Hw). unfold world in Hb.
  destruct (body a env w) as [[[[]|e] w1] ev1]; cbn [fst snd] in *;
    [|exact Hb].
  unfold world at 1. cbn [fst snd]. apply IH, Hb.
Qed.

Lemma checkConsumable_sensors (maxLifetimes : gmap string Q)
    (warningThreshold : Q) (c : ValetudoConsumable) (env : Env) (w : World) :
  sensors (vac (world (checkConsumable maxLifetimes warningThreshold c env w)))
  = sensors (vac w).
Proof.
  unfold checkConsumable. rewrite bind_get_vac.
  destruct (consumableMap (vac w) !! getConsumableName c) as [entry|] eqn:E;
    [|reflexivity].
  assert (Hs : sensors (vac w) !! getConsumableName c = Some (endpoint entry)).
  { unfold sensors. rewrite lookup_fmap, E. reflexivity. }
  destruct (getMaxLifetime c maxLifetimes) as [maxLifetime|]; [|reflexivity].
  unfold bind, ret, modify_vac, log, setAttribute, world. destruct w as [v t].
  cbn [vac clock fst snd endpoint lastState] in *.
  destruct (changed (lastState entry) _);
    destruct (endpoint entry) as [sensorId|] eqn:Eend;
    cbn [vac clock fst snd endpoint lastState app];
    unfold sensors; cbn [consumableMap set_consumableMap];
    rewrite ?fmap_insert; cbn [endpoint];
    rewrite ?insert_insert_eq; apply insert_id; exact Hs.
Qed.

Lemma updateConsumableStatesForVacuum_sensors (env : Env) (w : World) :
  sensors (vac (world (updateConsumableStatesForVacuum env w)))
  = sensors (vac w).
Proof.
  unfold updateConsumableStatesForVacuum.
  rewrite bind_ask, bind_dateNow, bind_get_vac.
  destruct (_ <? _); [reflexivity|].
  rewrite bind_modify_vac. cbv zeta.
  set (w1 := {| vac := _; clock := _ |}).
  change (sensors (vac w)) with (sensors (vac w1)).
  rewrite try_catch_run.
  assert (Hbody : forall ml wt,
            sensors (vac (world (checkConsumablesBody ml wt env w1)))
            = sensors (vac w1)).
  { intros ml wt. unfold checkConsumablesBody. rewrite bind_ask.
    destruct (getConsumables env) as [consumables|]; [|reflexivity].
    apply (forEach_invariant (fun w' => sensors (vac w') = sensors (vac w1)));
      [|reflexivity].
    intros a env' w' Hw'. rewrite checkConsumable_sensors. exact Hw'. }
  specialize (Hbody
    (nullish (consumables_maxLifetimes (config env)) defaultMaxLifetimes)
    (or_default (consumables_warningThreshold (config env)) (10 # 1))).
  unfold world in Hbody.
  destruct (checkConsumablesBody _ _ env w1) as [[[[]|e] w2] ev2];
    cbn [fst snd] in *; exact Hbody.
Qed.

(** X20 -- the periodic consumable check keeps to itself.  Whatever the
    robot answers and whatever the endpoints do, the consumable step of a
    poll returns normally, changes no field of the vacuum's record other
    than the consumable table and the time of the last check, never adds
    or removes a tracked consumable nor changes the contact sensor that
    belongs to it, and emits nothing but log lines and writes of
    [BooleanState.stateValue] on contact sensors (no pacing delay, no
    registration); and it does nothing at all when no consumable is
    tracked. *)
Theorem consumables_footprint (env : Env) (w : World) :
  let r := updateConsumablesIfTracked env w in
  result r = Ok tt
  /\ outsideConsumables (vac (world r)) = outsideConsumables (vac w)
  /\ sensors (vac (world r)) = sensors (vac w)
  /\ Forall consumableEvent (events r)
  /\ (consumableMap (vac w) = ∅ -> r = (Ok tt, w, [])).
Proof.
  cbv zeta. unfold updateConsumablesIfTracked. rewrite bind_get_vac.
  case_bool_decide as Hempty; cbn [negb].
  - repeat split; try reflexivity. constructor.
  - destruct (updateConsumableStatesForVacuum_no_throw env w) as [[] Hres].
    destruct (updateConsumableStatesForVacuum_outside env w) as [Hout Hev].
    split; [exact Hres|].
    split; [exact Hout|].
    split; [apply updateConsumableStatesForVacuum_sensors|].
    split; [exact Hev|]. intros H. contradiction.
Qed.

(** X21 -- the consumable check is throttled to once in five minutes.  A
    call less than 300000 ms after the last check does nothing: no request
    to the robot, no event, no change.  A call that is due stamps the time
    of the check before fetching, so that -- whether the fetch and the
    updates succeeded or not -- every call in the following five minutes
    does nothing. *)
Theorem consumables_check_throttled (env : Env) (w : World) :
  let r := updateConsumableStatesForVacuum env w in
  (clock w - lastConsumablesCheck (vac w) < CONSUMABLES_CHECK_INTERVAL ->
   r = (Ok tt, w, []))
  /\ (CONSUMABLES_CHECK_INTERVAL <= clock w - lastConsumablesCheck (vac w) ->
      lastConsumablesCheck (vac (world r)) = clock w
      /\ forall env' v' now',
           lastConsumablesCheck v' = lastConsumablesCheck (vac (world r)) ->
           now' < clock w + CONSUMABLES_CHECK_INTERVAL ->
           updateConsumableStatesForVacuum env' {| vac := v'; clock := now' |}
           = (Ok tt, {| vac := v'; clock := now' |}, [])).
Proof.
  cbv zeta.
  assert (Hskip : forall env0 w0,
            clock w0 - lastConsumablesCheck (vac w0) < CONSUMABLES_CHECK_INTERVAL ->
            updateConsumableStatesForVacuum env0 w0 = (Ok tt, w0, [])).
  { intros env0 w0 Hlt. unfold updateConsumableStatesForVacuum.
    rewrite bind_ask, bind_dateNow, bind_get_vac.
    destruct (Z.ltb_spec (clock w0 - lastConsumablesCheck (vac w0))
                         CONSUMABLES_CHECK_INTERVAL); [reflexivity|lia]. }
  split; [apply Hskip|]. intros Hdue.
  assert (Hstamp : lastConsumablesCheck
                     (vac (world (updateConsumableStatesForVacuum env w)))
                   = clock w).
  { unfold updateConsumableStatesForVacuum.
    rewrite bind_ask, bind_dateNow, bind_get_vac.
    destruct (Z.ltb_spec (clock w - lastConsumablesCheck (vac w))
                         CONSUMABLES_CHECK_INTERVAL); [lia|].
    rewrite bind_modify_vac. cbv zeta.
    set (w1 := {| vac := _; clock := _ |}).
    assert (Hrest : respects
              (fun v v' => lastConsumablesCheck v' = lastConsumablesCheck v)
              (fun _ => True)
              (try_catch
                 (checkConsumablesBody
                    (nullish (consumables_maxLifetimes (config env))
                             defaultMaxLifetimes)
                    (or_default (consumables_warningThreshold (config env))
                                (10 # 1)))
                 (fun error => log LDebug (MsgConsumablesError error)))).
    { unfold checkConsumablesBody, checkConsumable.
      repeat (respects_step; try exact I; try reflexivity). }
    destruct (Hrest env w1) as [Hlast _]. rewrite Hlast. reflexivity. }
  split; [exact Hstamp|].
  intros env' v' now' Hv' Hnow. apply Hskip. cbn [vac clock].
  rewrite Hv', Hstamp. lia.
Qed.


(** The battery block when the endpoints reject every write: it stops at
    the first publication that is due. *)
Lemma updateBatteryState_rejected (env : Env) (w : World)
    (attributes : list StateAttribute) :
  sinkRejects env ->
  let o := updateBatteryState attributes env w in
  let force := initialStatePending (vac w) in
  let due := duePublication force (vac w) attributes BatteryLevel
             ++ duePublication force (vac w) attributes BatteryChargeState in
  vac (world o) = vac w
  /\ publications (events o) = take 1 due
  /\ match due with
     | [] => o = (Ok tt, w, [])
     | _ :: _ => exists e, result o = Throw e
     end.
Proof.
  intros Hsink.
  unfold duePublication, computed, lastPublished, updateBatteryState.
  destruct w as [v c].
  destruct (findBattery attributes) as [[level flag]|];
    destruct (initialStatePending v) eqn:Hpending.
  all: cbn [vac].
  all: rewrite ?(changed_fmap VNum) by (intros ? ? [=]; assumption).
  all: try (destruct (changed (lastBatteryLevel v) _) eqn:E1;
            destruct (changed (lastBatteryChargeState v) _) eqn:E2;
            run_block Hsink Hpending E1 E2).
  all: repeat split; try reflexivity.
  all: try (eexists; reflexivity).
Qed.

(** The status block when the endpoints reject every write. *)
Lemma updateStatusState_rejected (env : Env) (w : World)
    (attributes : list StateAttribute) :
  sinkRejects env ->
  let o := updateStatusState attributes env w in
  let force := initialStatePending (vac w) in
  let due := duePublication force (vac w) attributes OperationalState
             ++ duePublication force (vac w) attributes RunMode in
  vac (world o) = vac w
  /\ publications (events o) = take 1 due
  /\ match due with
     | [] => o = (Ok tt, w, [])
     | _ :: _ => exists e, result o = Throw e
     end.
Proof.
  intros Hsink.
  unfold duePublication, computed, lastPublished, updateStatusState.
  destruct w as [v c].
  destruct (findStatus attributes) as [status|];
    destruct (initialStatePending v) eqn:Hpending.
  all: cbn [vac].
  all: cbv zeta.
  all: rewrite ?(changed_fmap VNum), ?(changed_fmap VJs)
         by (intros ? ? [=]; assumption).
  all: try (destruct (changed (lastOperationalState v) _) eqn:E1;
            destruct (changed (lastRunMode v) _) eqn:E2;
            run_block Hsink Hpending E1 E2).
  all: repeat split; try reflexivity.
  all: try (eexists; reflexivity).
Qed.

Lemma duePublications_split (force : bool) (v : VacuumInstance)
    (attributes : list StateAttribute) :
  duePublications force v attributes
  = (duePublication force v attributes BatteryLevel
     ++ duePublication force v attributes BatteryChargeState)
    ++ (duePublication force v attributes OperationalState
        ++ duePublication force v attributes RunMode).
Proof.
  unfold duePublications, allTracked. cbn [flat_map].
  rewrite app_nil_r, <- !app_assoc. reflexivity.
Qed.

(** X23 -- a poll whose writes are rejected.  When the endpoints reject
    every write and the snapshot holds at least one value that is due for
    publication, [updateVacuumState] attempts the first due publication
    only, returns normally, and marks the device offline; it records
    nothing else, so the next poll with the same snapshot owes exactly the
    same publications again. *)
Theorem rejected_write_goes_offline (env : Env) (w : World)
    (attributes : list StateAttribute) :
  sinkRejects env ->
  device (vac w) = true ->
  getStateAttributes env = Some attributes ->
  duePublications (initialStatePending (vac w)) (vac w) attributes <> [] ->
  let o := updateVacuumState env w in
  result o = Ok tt
  /\ vac (world o) = set_online false (vac w)
  /\ publications (events o)
     = take 1 (duePublications (initialStatePending (vac w)) (vac w) attributes)
  /\ duePublications (initialStatePending (vac (world o))) (vac (world o))
                     attributes
     = duePublications (initialStatePending (vac w)) (vac w) attributes.
Proof.
  intros Hsink Hdev Hattrs Hdue. cbv zeta.
  assert (Hbody : exists e w1 ev1,
            (primaryPass attributes ;; afterPrimaryPass)%js env w = (Throw e, w1, ev1)
            /\ vac w1 = vac w
            /\ publications ev1
               = take 1 (duePublications (initialStatePending (vac w)) (vac w)
                           attributes)).
  { rewrite duePublications_split in Hdue |- *.
    unfold primaryPass.
    pose proof (updateBatteryState_rejected env w attributes Hsink)
      as (Hv1 & Hp1 & Hr1).
    cbv zeta in Hv1, Hp1, Hr1.
    rewrite bind_run, bind_run.
    destruct (duePublication _ (vac w) attributes BatteryLevel
              ++ duePublication _ (vac w) attributes BatteryChargeState)
      as [|p ps] eqn:Eb.
    - rewrite Hr1. clear Hv1 Hp1 Hr1. cbn [app] in Hdue |- *.
      rewrite bind_sleep. cbv zeta.
      set (w2 := {| vac := vac w; clock := clock w + 200 |}).
      pose proof (updateStatusState_rejected env w2 attributes Hsink)
        as (Hv2 & Hp2 & Hr2).
      cbv zeta in Hv2, Hp2, Hr2. subst w2. cbn [vac] in Hv2, Hp2, Hr2.
      destruct (duePublication _ (vac w) attributes OperationalState
                ++ duePublication _ (vac w) attributes RunMode)
        as [|q qs] eqn:Es; [congruence|].
      destruct Hr2 as [e He]. rewrite bind_run.
      destruct (updateStatusState attributes env _) as [[r2 w3] ev2].
      unfold result, world, events in *. cbn [fst snd] in *. subst r2.
      exists e, w3, (EvDelay 200 :: ev2).
      split; [reflexivity|]. split; [exact Hv2|].
      cbn [publications omap list_omap publicationOf]. exact Hp2.
    - destruct Hr1 as [e He].
      destruct (updateBatteryState attributes env w) as [[r1 w1] ev1].
      unfold result, world, events in *. cbn [fst snd] in *. subst r1.
      exists e, w1, ev1. split; [reflexivity|]. split; [exact Hv1|].
      exact Hp1. }
  destruct Hbody as (e & w1 & ev1 & Hrun & Hvac & Hpub).
  unfold updateVacuumState. rewrite bind_ask, bind_get_vac, Hdev. cbn [negb].
  rewrite try_catch_run, Hattrs, Hrun.
  unfold bind, log, modify_vac, result, world, events.
  cbn [fst snd vac clock].
  split; [reflexivity|]. split; [now rewrite Hvac|]. split.
  - unfold publications in *. rewrite omap_app. cbn [omap list_omap publicationOf].
    rewrite app_nil_r. exact Hpub.
  - rewrite Hvac. reflexivity.
Qed.

Lemma rejected_write_goes_offline_witness :
  let env := rejectingEnv (Some (dockedAt (80 # 1))) in
  let w := {| vac := sampleVacuum true None None None None; clock := 0 |} in
  let attributes := dockedAt (80 # 1) in
  sinkRejects env
  /\ device (vac w) = true
  /\ getStateAttributes env = Some attributes
  /\ duePublications (initialStatePending (vac w)) (vac w) attributes <> []
  /\ result (updateVacuumState env w) = Ok tt
  /\ vac (world (updateVacuumState env w)) = set_online false (vac w)
  /\ publications (events (updateVacuumState env w))
     = take 1 (duePublications (initialStatePending (vac w)) (vac w) attributes)
  /\ duePublications
       (initialStatePending (vac (world (updateVacuumState env w))))
       (vac (world (updateVacuumState env w))) attributes
     = duePublications (initialStatePending (vac w)) (vac w) attributes.
Proof.
  intros env w attributes.
  assert (H1 : sinkRejects env) by (intros wr; reflexivity).
  assert (H2 : device (vac w) = true) by reflexivity.
  assert (H3 : getStateAttributes env = Some attributes) by reflexivity.
  assert (H4 : duePublications (initialStatePending (vac w)) (vac w) attributes
               <> [])
    by (vm_compute; discriminate).
  split; [exact H1|]. split; [exact H2|]. split; [exact H3|]. split; [exact H4|].
  exact (rejected_write_goes_offline env w attributes H1 H2 H3 H4).
Defined.

(* ---------------------------------------------------------------------- *)
(** ** The two status mappers together                                     *)

(** X24 -- the dock status matters only for a parked robot.  For a known
    status (in any letter case): when the robot is docked, idle or
    charging and the dock is emptying, drying or cleaning, the operational
    state is Docked; for every other known status the dock status is
    ignored. *)
Theorem dock_status_only_when_parked (status : string) (dock : option string) :
  toLowerCase status ∈ known_statuses ->
  (parked (toLowerCase status) = true -> dockActivity dock = true ->
   mapValetudoStatusToOperationalState status dock
   = JNum OperationalStateValue.Docked)
  /\ (parked (toLowerCase status) = false ->
      mapValetudoStatusToOperationalState status dock
      = mapValetudoStatusToOperationalState status None)
  /\ (dockActivity dock = false ->
      mapValetudoStatusToOperationalState status dock
      = mapValetudoStatusToOperationalState status None).
Proof.
  intros Hk.
  rewrite (operationalState_known status dock Hk),
    (operationalState_known status None Hk).
  split; [intros -> ->; reflexivity|]. split.
  - intros ->. reflexivity.
  - intros ->. rewrite andb_false_r.
    destruct (parked (toLowerCase status)); reflexivity.
Qed.

Lemma dock_status_only_when_parked_witness :
  toLowerCase "Docked" ∈ known_statuses
  /\ mapValetudoStatusToOperationalState "Docked" (Some "Emptying")
     = JNum OperationalStateValue.Docked.
Proof.
  assert (H : toLowerCase "Docked" ∈ known_statuses)
    by (apply (bool_decide_unpack _); vm_compute; exact I).
  split; [exact H|].
  apply (proj1 (dock_status_only_when_parked "Docked" (Some "Emptying") H));
    reflexivity.
Defined.

(** X25 -- the two mappers agree on when the robot is cleaning.  Whenever
    [mapValetudoStatusToRunMode] reports the run mode Cleaning,
    [mapValetudoStatusToOperationalState] reports Running, whatever the dock
    status; and whenever the operational state is Docked, Charging or
    Stopped the run mode is Idle. *)
Theorem run_mode_agrees_with_operational_state (status : string)
    (dock : option string) :
  (mapValetudoStatusToRunMode status = RvcRunModeValue.Cleaning ->
   mapValetudoStatusToOperationalState status dock
   = JNum OperationalStateValue.Running)
  /\ (mapValetudoStatusToOperationalState status dock
      = JNum OperationalStateValue.Docked
      \/ mapValetudoStatusToOperationalState status dock
         = JNum OperationalStateValue.Charging
      \/ mapValetudoStatusToOperationalState status dock
         = JNum OperationalStateValue.Stopped ->
      mapValetudoStatusToRunMode status = RvcRunModeValue.Idle).
Proof.
  destruct (runMode_spec status) as [Hiff Hidle].
  assert (Hclean : toLowerCase status = "cleaning" ->
                   mapValetudoStatusToOperationalState status dock
                   = JNum OperationalStateValue.Running).
  { intros E.
    rewrite operationalState_known
      by (rewrite E; apply (bool_decide_unpack _); vm_compute; exact I).
    rewrite E. reflexivity. }
  split.
  - intros H. apply Hclean, Hiff, H.
  - intros H.
    destruct (String.eqb_spec (toLowerCase status) "cleaning") as [E|E];
      [|exact (Hidle E)].
    rewrite (Hclean E) in H.
    destruct H as [H|[H|H]]; discriminate H.
Qed.

(* ===================================================================== *)
(** * Consumable set-up                                                   *)
(* ===================================================================== *)

Lemma getMaxLifetime_is_Some (c : ValetudoConsumable) (maxLifetimes : gmap string Q) :
  c_remaining c <> None -> is_Some (getMaxLifetime c maxLifetimes).
Proof.
  intros Hrem. unfold getMaxLifetime.
  destruct (c_remaining c); [|congruence].
  repeat match goal with
         | |- is_Some (if ?b then _ else _) => destruct b
         | |- is_Some (match (if ?b then _ else _) with _ => _ end) => destruct b
         | |- is_Some (Some _) => eexists; reflexivity
         end.
Qed.

(** X26 -- consumable set-up with a well-formed payload.  When consumable
    tracking is enabled, the robot has the ConsumableMonitoringCapability
    and reports consumables that all carry [remaining], and the
    registration of contact sensors is accepted:
    [setupConsumablesForVacuum] returns normally; afterwards the tracked
    consumables are those tracked before together with the names of the
    consumables reported; it registers one contact sensor per reported
    consumable, in the order reported, under the sanitised id built from
    the vacuum's id and the consumable's type and sub-type -- or none at
    all when contact sensors are not configured; and it changes no other
    field of the record. *)
Theorem setup_tracks_every_consumable (env : Env) (w : World)
    (consumables : list ValetudoConsumable) :
  consumables_enabled (config env) = true ->
  "ConsumableMonitoringCapability" ∈ capabilities env ->
  getConsumables env = Some consumables ->
  consumables <> [] ->
  Forall (fun c => c_remaining c <> None) consumables ->
  (forall sensorId, registerDevice_throws env sensorId = false) ->
  let r := setupConsumablesForVacuum env w in
  result r = Ok tt
  /\ outsideConsumables (vac (world r)) = outsideConsumables (vac w)
  /\ lastConsumablesCheck (vac (world r)) = lastConsumablesCheck (vac w)
  /\ (forall name,
        is_Some (consumableMap (vac (world r)) !! name)
        <-> is_Some (consumableMap (vac w) !! name)
            \/ name ∈ getConsumableName <$> consumables)
  /\ registrations (events r)
     = if consumables_exposeAsContactSensors (config env)
       then sensorIdOf (id (vac w)) <$> consumables
       else [].
Proof.
  intros Hen Hcap Hget Hne Hrem Hreg. cbv zeta.
  unfold setupConsumablesForVacuum. rewrite bind_ask, Hen. cbn [negb].
  rewrite (bool_decide_eq_true_2 _ Hcap). cbn [negb]. rewrite Hget.
  destruct consumables as [|c0 cs0]; [congruence|].
  set (consumables := c0 :: cs0) in *. clearbody consumables. clear Hne c0 cs0.
  rewrite bind_run. unfold log at 1. cbv iota.
  unfold result at 2, world at 2 3, events at 2. cbn [fst snd].
  cbv zeta.
  set (body := fun consumable : ValetudoConsumable => _).
  assert (Hbody : forall c w0, c_remaining c <> None ->
    exists entry ev,
      body c env w0
      = (Ok tt,
         {| vac := set_consumableMap
                     (<[getConsumableName c := entry]> (consumableMap (vac w0)))
                     (vac w0);
            clock := clock w0 |}, ev)
      /\ registrations ev
         = if consumables_exposeAsContactSensors (config env)
           then [sensorIdOf (id (vac w0)) c] else []).
  { intros c w0 Hc. subst body. cbv beta.
    destruct (getMaxLifetime_is_Some c
                (nullish (consumables_maxLifetimes (config env))
                         defaultMaxLifetimes) Hc) as [ml Hml].
    rewrite Hml.
    unfold bind, ret, log, get_vac, modify_vac, registerDevice.
    destruct (consumables_exposeAsContactSensors (config env));
      cbn [fst snd vac clock]; rewrite ?Hreg; cbn [fst snd vac clock app];
      do 2 eexists; (split; [reflexivity|]); reflexivity. }
  clearbody body. clear Hget.
  assert (Hloop : forall w0,
    let r := forEach consumables body env w0 in
    result r = Ok tt
    /\ outsideConsumables (vac (world r)) = outsideConsumables (vac w0)
    /\ lastConsumablesCheck (vac (world r)) = lastConsumablesCheck (vac w0)
    /\ (forall name,
          is_Some (consumableMap (vac (world r)) !! name)
          <-> is_Some (consumableMap (vac w0) !! name)
              \/ name ∈ getConsumableName <$> consumables)
    /\ registrations (events r)
       = if consumables_exposeAsContactSensors (config env)
         then sensorIdOf (id (vac w0)) <$> consumables
         else []).
  { induction Hrem as [|c cs Hc _ IH]; intros w0; cbv zeta.
    - cbn. repeat split; try reflexivity.
      + intros H. left. exact H.
      + intros [H|H]; [exact H | destruct (not_elem_of_nil _ H)].
      + destruct (consumables_exposeAsContactSensors (config env)); reflexivity.
    - cbn [forEach]. rewrite bind_run.
      destruct (Hbody c w0 Hc) as (entry & ev & -> & Hregs).
      set (w1 := {| vac := _; clock := _ |}).
      destruct (IH w1) as (Hr & Hout & Hlast & Hkeys & Hrs).
      unfold result, world, events in *. cbn [fst snd] in *.
      split; [exact Hr|]. split; [exact Hout|].
      split; [exact Hlast|]. split.
      + intros name. rewrite Hkeys. subst w1.
        cbn [vac consumableMap set_consumableMap fmap list_fmap].
        rewrite lookup_insert_is_Some, elem_of_cons.
        destruct (decide (getConsumableName c = name)) as [->|Hn];
          [tauto|].
        split; [intros [[?|[_ ?]]|?]; auto; congruence | intros [?|[?|?]]; auto].
      + unfold registrations in *. rewrite omap_app, Hregs, Hrs. subst w1.
        cbn [vac]. change (id (set_consumableMap ?m ?v)) with (id v).
        destruct (consumables_exposeAsContactSensors (config env)); reflexivity. }
  destruct (Hloop w) as (Hr & Hout & Hlast & Hkeys & Hrs).
  unfold result, world, events in *. cbn [fst snd] in *.
  split; [exact Hr|]. split; [exact Hout|].
  split; [exact Hlast|]. split; [exact Hkeys|].
  unfold registrations in *. cbn [omap list_omap app]. exact Hrs.
Qed.

Lemma setup_tracks_every_consumable_witness :
  let env := consumableEnv true None [mainBrush (200 # 1)] in
  let w := {| vac := sampleVacuum false None None None None; clock := 0 |} in
  consumables_enabled (config env) = true
  /\ "ConsumableMonitoringCapability" ∈ capabilities env
  /\ getConsumables env = Some [mainBrush (200 # 1)]
  /\ [mainBrush (200 # 1)] <> []
  /\ Forall (fun c => c_remaining c <> None) [mainBrush (200 # 1)]
  /\ (forall sensorId, registerDevice_throws env sensorId = false)
  /\ result (setupConsumablesForVacuum env w) = Ok tt
  /\ registrations (events (setupConsumablesForVacuum env w))
     = [sensorIdOf "robot" (mainBrush (200 # 1))].
Proof.
  intros env w.
  assert (H1 : consumables_enabled (config env) = true) by reflexivity.
  assert (H2 : "ConsumableMonitoringCapability" ∈ capabilities env) by left.
  assert (H3 : getConsumables env = Some [mainBrush (200 # 1)]) by reflexivity.
  assert (H4 : [mainBrush (200 # 1)] <> []) by discriminate.
  assert (H5 : Forall (fun c => c_remaining c <> None) [mainBrush (200 # 1)])
    by (repeat constructor; discriminate).
  assert (H6 : forall sensorId, registerDevice_throws env sensorId = false)
    by reflexivity.
  split; [exact H1|]. split; [exact H2|]. split; [exact H3|]. split; [exact H4|].
  split; [exact H5|]. split; [exact H6|].
  destruct (setup_tracks_every_consumable env w _ H1 H2 H3 H4 H5 H6)
    as (Hr & _ & _ & _ & Hregs).
  split; [exact Hr | exact Hregs].
Defined.

(* ===================================================================== *)
(** * The clean modes offered and the handler that receives them          *)
(* ===================================================================== *)

Section CatalogueFacts.
Variables (Tag_Auto Tag_Quick Tag_Quiet Tag_Min Tag_Max
           Tag_Vacuum Tag_Mop : Z).

(** X27 -- every clean mode offered can be set.  For each entry with a
    numeric code that "Build clean modes" pushes, the code is no run mode,
    so the [changeToMode] handler treats it as a clean mode, and the first
    request it sends sets the robot's operation mode to the vendor mode
    configured for the entry's category.  That vendor mode is one of the
    operation modes the robot listed -- with one exception: a robot that
    lists "vaccum" but not "vacuum" is offered the vacuum category (codes
    66 to 70) and is then sent "vacuum". *)
Theorem offered_modes_can_be_set (capabilities : list string)
    (getFanSpeedPresets getWaterUsagePresets getOperationModePresets
       : option (list string))
    (henv : HandlerEnv) (sel : Selection) (m : GeneratedMode) (code : Z) :
  m ∈ (assembleCleanModes Tag_Auto Tag_Quick Tag_Quiet Tag_Min Tag_Max
         Tag_Vacuum Tag_Mop capabilities getFanSpeedPresets
         getWaterUsagePresets getOperationModePresets (h_modeMapping henv)).1 ->
  g_mode m = Some code ->
  exists operationModes sent,
    getOperationModePresets = Some operationModes
    /\ ~ (1 <= code <= 3)
    /\ head (callsOf (changeToMode henv code sel).2)
       = Some (SetOperationMode sent)
    /\ (sent ∈ operationModes
        \/ (sent = "vacuum" /\ "vaccum" ∈ operationModes
            /\ 66 <= code <= 70)).
Proof.
  intros Hm Hcode. unfold assembleCleanModes in Hm.
  set (fanSpeedPresets := if bool_decide ("FanSpeedControlCapability" ∈ _)
                          then _ else _) in Hm.
  set (waterUsagePresets := if bool_decide ("WaterUsageControlCapability" ∈ _)
                            then _ else _) in Hm.
  clearbody fanSpeedPresets waterUsagePresets.
  destruct (bool_decide ("OperationModeControlCapability" ∈ capabilities));
    [|destruct (not_elem_of_nil _ Hm)].
  destruct getOperationModePresets as [[|o0 os]|];
    try (destruct (not_elem_of_nil _ Hm)).
  set (operationModes := o0 :: os) in *. clearbody operationModes.
  cbv zeta in Hm.
  set (cfg := h_modeMapping henv) in *.
  assert (Hhandler : forall sent,
            5 <= code <= 9 \/ 31 <= code <= 42 \/ 66 <= code <= 70 ->
            getBaseModeFromNumber cfg code = sent ->
            ~ (1 <= code <= 3)
            /\ head (callsOf (changeToMode henv code sel).2)
               = Some (SetOperationMode sent)).
  { intros sent Hband Hsent. split; [lia|].
    unfold changeToMode.
    assert (E : ((1 <=? code) && (code <=? 3))%bool = false).
    { destruct (Z.leb_spec 1 code), (Z.leb_spec code 3); try reflexivity. lia. }
    rewrite E. fold cfg. rewrite Hsent.
    pose proof (getBaseModeFromNumber_band cfg code) as Hne.
    rewrite (bool_decide_eq_true_2 _ Hband), Hsent in Hne.
    apply String.eqb_neq in Hne. rewrite Hne. reflexivity. }
  assert (Hvac : forall src, m ∈ createIntensityVariants Tag_Auto Tag_Quick
                   Tag_Quiet Tag_Min Tag_Max src RvcCleanModeValue.VacuumQuiet
                   [Tag_Vacuum] fanSpeedPresets ->
                 66 <= code <= 70
                 /\ getBaseModeFromNumber cfg code
                    = vacuumSource (getModeMapping cfg)).
  { intros src H.
    destruct (createIntensityVariants_band Tag_Auto Tag_Quick Tag_Quiet Tag_Min
                Tag_Max src RvcCleanModeValue.VacuumQuiet [Tag_Vacuum]
                fanSpeedPresets) as (_ & _ & Hb).
    specialize (Hb m code H Hcode). unfold RvcCleanModeValue.VacuumQuiet in Hb.
    split; [lia|]. unfold getBaseModeFromNumber.
    destruct (Z.leb_spec 66 code), (Z.leb_spec code 70); try lia. reflexivity. }
  assert (Hvm : forall src, m ∈ createIntensityVariants Tag_Auto Tag_Quick
                  Tag_Quiet Tag_Min Tag_Max src RvcCleanModeValue.VacuumMopQuiet
                  [Tag_Mop; Tag_Vacuum] fanSpeedPresets ->
                5 <= code <= 9
                /\ getBaseModeFromNumber cfg code
                   = vacuumMopSource (getModeMapping cfg)).
  { intros src H.
    destruct (createIntensityVariants_band Tag_Auto Tag_Quick Tag_Quiet Tag_Min
                Tag_Max src RvcCleanModeValue.VacuumMopQuiet [Tag_Mop; Tag_Vacuum]
                fanSpeedPresets) as (_ & _ & Hb).
    specialize (Hb m code H Hcode). unfold RvcCleanModeValue.VacuumMopQuiet in Hb.
    split; [lia|]. unfold getBaseModeFromNumber.
    destruct (Z.leb_spec 66 code), (Z.leb_spec code 70), (Z.leb_spec 31 code),
      (Z.leb_spec code 42), (Z.leb_spec 5 code), (Z.leb_spec code 9); try lia;
      reflexivity. }
  assert (Hmop : m ∈ createMopVariants Tag_Auto Tag_Quick Tag_Quiet Tag_Min
                   Tag_Max Tag_Mop fanSpeedPresets waterUsagePresets ->
                 31 <= code <= 35
                 /\ getBaseModeFromNumber cfg code
                    = mopSource (getModeMapping cfg)).
  { intros H.
    pose proof (createMopVariants_band Tag_Auto Tag_Quick Tag_Quiet Tag_Min
                  Tag_Max Tag_Mop _ _ _ _ H Hcode) as Hb.
    split; [lia|]. unfold getBaseModeFromNumber.
    destruct (Z.leb_spec 66 code), (Z.leb_spec code 70), (Z.leb_spec 31 code),
      (Z.leb_spec code 42); try lia; reflexivity. }
  exists operationModes.
  destruct (bool_decide (vacuumSource (getModeMapping cfg) ∈ operationModes)
            || (String.eqb (vacuumSource (getModeMapping cfg)) "vacuum"
                && bool_decide ("vaccum" ∈ operationModes)))%bool eqn:E1;
    destruct (bool_decide (mopSource (getModeMapping cfg) ∈ operationModes))
      eqn:E2;
    destruct (bool_decide (vacuumMopSource (getModeMapping cfg) ∈ operationModes))
      eqn:E3;
    cbn [fst snd app] in Hm;
    rewrite ?elem_of_app in Hm;
    repeat match type of Hm with
           | _ \/ _ => destruct Hm as [Hm|Hm]
           | _ ∈ [] => destruct (not_elem_of_nil _ Hm)
           end.
  all: try (apply Hvac in Hm as [Hb Hs];
            exists (vacuumSource (getModeMapping cfg));
            split; [reflexivity|];
            destruct (Hhandler _ ltac:(lia) Hs) as [H1 H2];
            split; [exact H1|]; split; [exact H2|];
            apply orb_true_iff in E1 as [E1|E1];
            [ left; exact (bool_decide_eq_true_1 _ E1)
            | right; apply andb_true_iff in E1 as [Ev Et];
              apply String.eqb_eq in Ev;
              split; [exact Ev|]; split;
              [exact (bool_decide_eq_true_1 _ Et) | exact Hb] ]).
  all: try (apply Hmop in Hm as [Hb Hs];
            exists (mopSource (getModeMapping cfg));
            split; [reflexivity|];
            destruct (Hhandler _ ltac:(lia) Hs) as [H1 H2];
            split; [exact H1|]; split; [exact H2|];
            left; exact (bool_decide_eq_true_1 _ E2)).
  all: try (apply Hvm in Hm as [Hb Hs];
            exists (vacuumMopSource (getModeMapping cfg));
            split; [reflexivity|];
            destruct (Hhandler _ ltac:(lia) Hs) as [H1 H2];
            split; [exact H1|]; split; [exact H2|];
            left; exact (bool_decide_eq_true_1 _ E3)).
Qed.
End CatalogueFacts.

Lemma offered_modes_can_be_set_witness :
  let henv := {| h_capabilities := ["OperationModeControlCapability"];
                 h_modeMapping := None; h_intensityPresets := None;
                 h_customOrderSupported := None |} in
  let m := {| g_label := "Vacuum"; g_mode := Some 66;
              g_modeTags := [Some 16385; Some 0] |} in
  m ∈ (assembleCleanModes 0 1 2 6 7 16385 16386
         ["OperationModeControlCapability"] None None (Some ["vaccum"])
         (h_modeMapping henv)).1
  /\ g_mode m = Some 66
  /\ exists operationModes sent,
       Some ["vaccum"] = Some operationModes
       /\ ~ (1 <= 66 <= 3)
       /\ head (callsOf (changeToMode henv 66 noSelection).2)
          = Some (SetOperationMode sent)
       /\ (sent ∈ operationModes
           \/ (sent = "vacuum" /\ "vaccum" ∈ operationModes /\ 66 <= 66 <= 70)).
Proof.
  intros henv m.
  assert (H1 : m ∈ (assembleCleanModes 0 1 2 6 7 16385 16386
                      ["OperationModeControlCapability"] None None
                      (Some ["vaccum"]) (h_modeMapping henv)).1)
    by (vm_compute; left).
  assert (H2 : g_mode m = Some 66) by reflexivity.
  split; [exact H1|]. split; [exact H2|].
  exact (offered_modes_can_be_set 0 1 2 6 7 16385 16386
           ["OperationModeControlCapability"] None None (Some ["vaccum"])
           henv noSelection m 66 H1 H2).
Defined.

(* ===================================================================== *)
(** * Initial state                                                       *)
(* ===================================================================== *)

(** X28 -- the initial state and the first poll.  When the endpoints accept
    every write and the robot answers the attribute fetch,
    [setInitialVacuumState] publishes every value the snapshot allows to
    compute, in the order battery level, charge state, operational state,
    run mode, and records each as last published, leaving the
    initial-state flag as it was.  A poll on the same snapshot would then
    owe nothing by change, and owes all of it again while the flag is
    pending. *)
Theorem initial_state_matches_first_poll (env : Env) (v : VacuumInstance)
    (attributes : list StateAttribute) :
  sinkAccepts env ->
  device v = true ->
  getStateAttributes env = Some attributes ->
  let r := setInitialVacuumState env v in
  initPublications r.2 = duePublications true v attributes
  /\ (forall t, lastPublished t r.1
                = match computed t attributes with
                  | Some x => Some x
                  | None => lastPublished t v
                  end)
  /\ initialStatePending r.1 = initialStatePending v
  /\ duePublications false r.1 attributes = []
  /\ duePublications true r.1 attributes = duePublications true v attributes.
Proof.
  intros Hsink Hdev Hattrs. cbv zeta.
  unfold setInitialVacuumState, setInitialBattery, setInitialStatus.
  rewrite Hdev, Hattrs. cbn [negb].
  unfold duePublications, duePublication, computed, allTracked.
  cbn [flat_map orb].
  destruct (findBattery attributes) as [[level flag]|];
    destruct (findStatus attributes) as [status|];
    cbv zeta; rewrite ?Hsink; cbn [fst snd app];
    unfold initPublications; cbn [omap list_omap publicationOf];
    (split; [reflexivity|]);
    (split; [intros []; reflexivity|]);
    (split; [reflexivity|]);
    cbn [lastPublished lastBatteryLevel lastBatteryChargeState
         lastOperationalState lastRunMode set_lastBatteryLevel
         set_lastBatteryChargeState set_lastOperationalState set_lastRunMode
         fmap option_fmap option_map];
    rewrite ?bool_decide_eq_true_2 by reflexivity;
    split; reflexivity.
Qed.

Lemma initial_state_matches_first_poll_witness :
  let env := sampleEnv (Some (dockedAt (80 # 1))) in
  let v := sampleVacuum true None None None None in
  sinkAccepts env
  /\ device v = true
  /\ getStateAttributes env = Some (dockedAt (80 # 1))
  /\ initPublications (setInitialVacuumState env v).2
     = duePublications true v (dockedAt (80 # 1))
  /\ duePublications true (setInitialVacuumState env v).1 (dockedAt (80 # 1))
     = duePublications true v (dockedAt (80 # 1)).
Proof.
  intros env v.
  assert (H1 : sinkAccepts env) by (intros wr; reflexivity).
  assert (H2 : device v = true) by reflexivity.
  assert (H3 : getStateAttributes env = Some (dockedAt (80 # 1))) by reflexivity.
  split; [exact H1|]. split; [exact H2|]. split; [exact H3|].
  destruct (initial_state_matches_first_poll env v _ H1 H2 H3)
    as (Hp & _ & _ & _ & Hd).
  split; [exact Hp | exact Hd].
Defined.
